(** * Chess-Scan: the FEN editing state machine, the transforms, the
      structural validator, the castling boxes, the analysis links, the
      upload cooldown and the detector pipeline

    A shallow embedding of [src/App.jsx] and [src/visionService.ts].

    Conventions of the embedding.
    - A JavaScript string is the list of its code units; the development
      covers code units below 256, which is what [ascii] holds.
    - The React state cells read and written by the handlers ([fen], [game],
      [draggedPiece], [processingError], [lastApiCallRef]) are fields of
      explicit state records; a handler is a function from the state before
      the event to the state after it, together with its return value.
    - chess.js is an external library.  Its constructor-then-[fen()] round
      trip is a parameter [Chess : jsstring -> option jsstring], [None]
      standing for a constructor that throws.
    - What the browser and the network contribute is given to the function
      that uses it: the answer to [window.confirm], the pointer position of
      a drop, the bytes and the dimensions of an uploaded image, the body of
      the detector's response.  A link handler returns the address it
      opens. *)

From Stdlib Require Import Ascii String ZArith QArith Qround Lia Bool.
From Stdlib Require Import DecimalString.
From stdpp Require Import base list strings.

Local Open Scope nat_scope.

(** ** JavaScript strings *)

Abbreviation jsstring := (list ascii).

Definition js (s : string) : jsstring := list_ascii_of_string s.

Definition code (c : ascii) : nat := nat_of_ascii c.

(** [lo <= c && c <= hi] on single-character strings compares code units. *)
Definition between (lo hi c : ascii) : bool :=
  (code lo <=? code c) && (code c <=? code hi).

(** [s.split(sep)] for a one-character separator. *)
Fixpoint split (sep : ascii) (s : jsstring) : list jsstring :=
  match s with
  | [] => [[]]
  | c :: s' =>
      if Ascii.eqb c sep then [] :: split sep s'
      else match split sep s' with
           | [] => [[c]]
           | h :: t => (c :: h) :: t
           end
  end.

(** [parts.join(sep)]. *)
Fixpoint join (sep : jsstring) (parts : list jsstring) : jsstring :=
  match parts with
  | [] => []
  | [p] => p
  | p :: rest => p ++ sep ++ join sep rest
  end.

(** [c.toLowerCase()] and [c.toUpperCase()] on one code unit below 256: the
    ASCII letters and the Latin-1 letters that have a Latin-1 counterpart. *)
Definition toLowerCase (c : ascii) : ascii :=
  let n := code c in
  if ((65 <=? n) && (n <=? 90)) || ((192 <=? n) && (n <=? 222) && negb (n =? 215))
  then ascii_of_nat (n + 32) else c.

Definition toUpperCaseAscii (c : ascii) : ascii :=
  let n := code c in
  if (97 <=? n) && (n <=? 122) then ascii_of_nat (n - 32) else c.

(** Decimal rendering of a non-negative integer, as string concatenation
    with a number produces it. *)
Definition numToString (n : nat) : jsstring :=
  js (NilZero.string_of_uint (Nat.to_uint n)).

Definition intToString (z : Z) : jsstring :=
  js (NilZero.string_of_int (Z.to_int z)).

(** [parseInt(c, 10)] on a single character: [None] is [NaN]. *)
Definition parseInt (c : ascii) : option nat :=
  if between "0" "9" c then Some (code c - 48) else None.

(** [x || d] on a possibly missing string: [undefined] and the empty string
    are falsy. *)
Definition orDefault (x : option jsstring) (d : jsstring) : jsstring :=
  match x with
  | Some (c :: s) => c :: s
  | _ => d
  end.

(** A template literal renders a missing array entry as [undefined]. *)
Definition render (x : option jsstring) : jsstring :=
  match x with
  | Some s => s
  | None => js "undefined"
  end.

(** ** Pieces and boards *)

(** The values of [fenToPieceType] and the members of [PIECE_COLORS]: every
    piece object the program builds takes its [type] and [color] there. *)
Inductive PieceType := pawn | rook | knight | bishop | queen | king.
Inductive Color := w | b.

Record Piece := mkPiece { type : PieceType; color : Color }.

Global Instance PieceType_eq_dec : EqDecision PieceType.
Proof. solve_decision. Defined.
Global Instance Color_eq_dec : EqDecision Color.
Proof. solve_decision. Defined.
Global Instance Piece_eq_dec : EqDecision Piece.
Proof. solve_decision. Defined.

Definition pieceTypeToFEN (t : PieceType) : ascii :=
  match t with
  | pawn => "p" | rook => "r" | knight => "n"
  | bishop => "b" | queen => "q" | king => "k"
  end%char.

Definition fenToPieceType (c : ascii) : option PieceType :=
  if Ascii.eqb c "p" then Some pawn
  else if Ascii.eqb c "r" then Some rook
  else if Ascii.eqb c "n" then Some knight
  else if Ascii.eqb c "b" then Some bishop
  else if Ascii.eqb c "q" then Some queen
  else if Ascii.eqb c "k" then Some king
  else None.

Definition DEFAULT_FEN_PARTS : list jsstring :=
  [js ""; js "w"; js "-"; js "-"; js "0"; js "1"].

Abbreviation Row := (list (option Piece)).
Abbreviation Board := (list (list (option Piece))).

(** [Array(8).fill(null).map(() => Array(8).fill(null))] *)
Definition emptyBoard : Board := replicate 8 (replicate 8 None).

(** The inner loop of the FEN-to-array conversion, over the characters that
    remain in the rank; [col] is the loop's column counter.  Every write is
    guarded by [col < 8], so it stays inside the row. *)
Fixpoint parseRankLoop (chars : jsstring) (col : nat) (row : Row) : Row :=
  match chars with
  | [] => row
  | char :: rest =>
      if col <? 8 then
        if between "1" "8" char then
          let col := col + default 0 (parseInt char) in
          let col := if 8 <? col then 8 else col in
          parseRankLoop rest col row
        else
          let row :=
            if col <? 8 then
              let isWhite := between "A" "Z" char in
              match fenToPieceType (toLowerCase char) with
              | Some t => <[col := Some (mkPiece t (if isWhite then w else b))]> row
              | None => row
              end
            else row in
          let col := S col in
          if 8 <? col then row else parseRankLoop rest col row
      else row
  end.

(** One pass of the outer loop: an empty rank string is skipped. *)
Definition parseRank (rank : jsstring) : Row :=
  match rank with
  | [] => replicate 8 None
  | _ => parseRankLoop rank 0 (replicate 8 None)
  end.

(** The outer loop runs over the eight ranks; the handlers have checked
    [ranks.length === 8] before. *)
Definition parseBoard (ranks : list jsstring) : Board :=
  map parseRank ranks.

Definition pieceChar (p : Piece) : ascii :=
  let c := pieceTypeToFEN (type p) in
  match color p with
  | w => toUpperCaseAscii c
  | b => c
  end.

(** The inner loop of the array-to-FEN conversion with its [emptyCount]. *)
Fixpoint encodeRowLoop (row : Row) (emptyCount : nat) : jsstring :=
  match row with
  | [] => if 0 <? emptyCount then numToString emptyCount else []
  | None :: rest => encodeRowLoop rest (S emptyCount)
  | Some p :: rest =>
      (if 0 <? emptyCount then numToString emptyCount else [])
        ++ pieceChar p :: encodeRowLoop rest 0
  end.

Definition encodeRow (row : Row) : jsstring := encodeRowLoop row 0.

(** [fenBoard], the ranks joined by a slash after all but the last. *)
Definition boardToFen (board : Board) : jsstring :=
  join (js "/") (map encodeRow board).

(** [board[row][col]] and [board[row][col] = v] for indices in 0..7. *)
Definition getSquare (board : Board) (row col : nat) : option Piece :=
  match board !! row with
  | Some r => default None (r !! col)
  | None => None
  end.

Definition setSquare (board : Board) (row col : nat) (v : option Piece) : Board :=
  match board !! row with
  | Some r => <[row := <[col := v]> r]> board
  | None => board
  end.

(** ** Squares in algebraic notation *)

(** The checks on a square argument, and its row and column: [None] when a
    handler returns early. *)
Definition squareCoords (square : option jsstring) : option (nat * nat) :=
  match square with
  | Some [file; rank] =>
      if negb (between "a" "h" file) || negb (between "1" "8" rank) then None
      else
        let row := (8 - Z.of_nat (default 0%nat (parseInt rank)))%Z in
        let col := (Z.of_nat (code file) - 97)%Z in
        if (row <? 0)%Z || (7 <? row)%Z || (col <? 0)%Z || (7 <? col)%Z then None
        else Some (Z.to_nat row, Z.to_nat col)
  | _ => None
  end.

(** The format checks every handler runs on a square before anything else. *)
Definition validSquare (square : option jsstring) : bool :=
  match square with
  | Some [file; rank] => between "a" "h" file && between "1" "8" rank
  | _ => false
  end.

(** ** The six fields of a FEN *)

Definition isEmpty (s : jsstring) : bool :=
  match s with [] => true | _ => false end.

(** [fenParts[i] || DEFAULT_FEN_PARTS[i]] *)
Definition partOr (fenParts : list jsstring) (i : nat) : jsstring :=
  orDefault (fenParts !! i) (default [] (DEFAULT_FEN_PARTS !! i)).

(** The template [`${a} ${b} ${c} ${d} ${e} ${f}`]. *)
Definition sixFields (a b c d e f : jsstring) : jsstring :=
  a ++ js " " ++ b ++ js " " ++ c ++ js " " ++ d ++ js " " ++ e ++ js " " ++ f.

(** [newFen]: the rebuilt board followed by the fields of the FEN the edit
    started from. *)
Definition rebuildFen (fenBoard : jsstring) (fenParts : list jsstring) : jsstring :=
  sixFields fenBoard (partOr fenParts 1) (partOr fenParts 2)
            (partOr fenParts 3) (partOr fenParts 4) (partOr fenParts 5).

(** ** Transforms on FEN text *)

Definition includes (s : jsstring) (c : ascii) : bool :=
  existsb (Ascii.eqb c) s.

(** The castling relabelling shared by [swapPieceColors] and [rotateFEN180]. *)
Definition swapCastlingRights (castling : jsstring) : jsstring :=
  if bool_decide (castling = js "-") then js "-"
  else
    let s := (if includes castling "K" then js "k" else [])
               ++ (if includes castling "Q" then js "q" else [])
               ++ (if includes castling "k" then js "K" else [])
               ++ (if includes castling "q" then js "Q" else []) in
    if isEmpty s then js "-" else s.

(** What the loop over a rank appends for one character. *)
Definition swapChar (char : ascii) : jsstring :=
  if between "1" "8" char then [char]
  else if between "A" "Z" char then [toLowerCase char]
  else if between "a" "z" char then [toUpperCaseAscii char]
  else [].

Definition swapRank (rank : jsstring) : jsstring :=
  match rank with
  | [] => rank
  | _ => concat (map swapChar rank)
  end.

Definition swapPieceColors (fenString : jsstring) : jsstring :=
  if isEmpty fenString then fenString
  else
    let fenParts := split " " fenString in
    if length fenParts <? 6 then fenString
    else
      let boardPart := partOr fenParts 0 in
      let turn := partOr fenParts 1 in
      let castling := partOr fenParts 2 in
      let enPassant := partOr fenParts 3 in
      let halfmove := partOr fenParts 4 in
      let fullmove := partOr fenParts 5 in
      let ranks := split "/" boardPart in
      if negb (length ranks =? 8) then fenString
      else
        let swappedRanks := map swapRank ranks in
        let swappedCastling := swapCastlingRights castling in
        let swappedBoard := join (js "/") swappedRanks in
        sixFields swappedBoard turn swappedCastling enPassant halfmove fullmove.

(** The en-passant square seen from the other side of the board. *)
Definition rotateEnPassant (enPassant : jsstring) : jsstring :=
  match enPassant with
  | file :: rankChar :: _ =>
      if bool_decide (enPassant = js "-") then js "-"
      else
        match parseInt rankChar with
        | Some rank =>
            if between "a" "h" file && (1 <=? rank) && (rank <=? 8) then
              let rotatedFile := ascii_of_nat (97 + (7 - (code file - 97))) in
              let rotatedRank := 9 - rank in
              rotatedFile :: numToString rotatedRank
            else js "-"
        | None => js "-"
        end
  | _ => js "-"
  end.

(** [rank.split('').reverse().join('')] *)
Definition rotateRank (rank : jsstring) : jsstring :=
  match rank with
  | [] => rank
  | _ => reverse rank
  end.

Definition rotateFEN180 (fenString : jsstring) : jsstring :=
  if isEmpty fenString then fenString
  else
    let fenParts := split " " fenString in
    if length fenParts <? 6 then fenString
    else
      let boardPart := partOr fenParts 0 in
      let turn := partOr fenParts 1 in
      let castling := partOr fenParts 2 in
      let enPassant := partOr fenParts 3 in
      let halfmove := partOr fenParts 4 in
      let fullmove := partOr fenParts 5 in
      let ranks := split "/" boardPart in
      if negb (length ranks =? 8) then fenString
      else
        let reversedRanks := reverse ranks in
        let rotatedRanks := map rotateRank reversedRanks in
        let rotatedCastling := swapCastlingRights castling in
        let rotatedEnPassant := rotateEnPassant enPassant in
        let rotatedBoard := join (js "/") rotatedRanks in
        sixFields rotatedBoard turn rotatedCastling rotatedEnPassant halfmove fullmove.

(** ** The structural validator *)

(** The white space of [trim] and of the regular expression class [\s]
    among the code units below 256. *)
Definition isSpace (c : ascii) : bool :=
  let n := code c in
  ((9 <=? n) && (n <=? 13)) || (n =? 32) || (n =? 160).

Fixpoint dropWhile (f : ascii -> bool) (s : jsstring) : jsstring :=
  match s with
  | [] => []
  | c :: s' => if f c then dropWhile f s' else s
  end.

(** [s.trim()] *)
Definition trim (s : jsstring) : jsstring :=
  reverse (dropWhile isSpace (reverse (dropWhile isSpace s))).

(** [s.split(/\s+/)]: every maximal run of white space is one separator, and
    a run at either end leaves an empty string there. *)
Fixpoint splitWs (s : jsstring) : list jsstring :=
  match s with
  | [] => [[]]
  | c :: s' =>
      if isSpace c then
        match s' with
        | c' :: _ => if isSpace c' then splitWs s' else [] :: splitWs s'
        | [] => [] :: splitWs s'
        end
      else match splitWs s' with
           | [] => [[c]]
           | h :: t => (c :: h) :: t
           end
  end.

(** The character class [[rnbqkpRNBQKP1-8]]. *)
Definition validFENChar (c : ascii) : bool :=
  includes (js "rnbqkpRNBQKP") c || between "1" "8" c.

(** The loop that counts the squares of a rank. *)
Fixpoint squareCount (rank : jsstring) : nat :=
  match rank with
  | [] => 0
  | char :: rest =>
      (if between "1" "8" char then default 0 (parseInt char) else 1)
        + squareCount rest
  end.

(** [/^[rnbqkpRNBQKP1-8]+$/.test(rank)] and the sum of its squares. *)
Definition validRank (rank : jsstring) : bool :=
  negb (isEmpty rank) && forallb validFENChar rank && (squareCount rank =? 8).

(** [/^[KQkq]*$/], [/^[a-h][36]$/] and [/^\d+$/]. *)
Definition castlingLetters (s : jsstring) : bool :=
  forallb (includes (js "KQkq")) s.

Definition enPassantSquare (s : jsstring) : bool :=
  match s with
  | [file; rank] => between "a" "h" file && includes (js "36") rank
  | _ => false
  end.

Definition allDigits (s : jsstring) : bool :=
  negb (isEmpty s) && forallb (between "0" "9") s.

Definition validateFENFormat (fenString : jsstring) : bool :=
  if isEmpty fenString then false
  else
    match splitWs (trim fenString) with
    | [board; turn; castling; enPassant; halfmove; fullmove] =>
        let ranks := split "/" board in
        if negb (length ranks =? 8) then false
        else if negb (forallb validRank ranks) then false
        else if negb (bool_decide (turn = js "w")) && negb (bool_decide (turn = js "b"))
        then false
        else if negb (bool_decide (castling = js "-")) && negb (castlingLetters castling)
        then false
        else if negb (bool_decide (enPassant = js "-")) && negb (enPassantSquare enPassant)
        then false
        else if negb (allDigits halfmove) || negb (allDigits fullmove) then false
        else true
    | _ => false
    end.

(** ** The editor state and its handlers *)

Record AppState := mkApp {
  fen : jsstring;
  game : jsstring;                 (* what [game.fen()] returns *)
  draggedPiece : option Piece;
  isBoardFlipped : bool;
  processingError : option jsstring
}.

Definition setFen (v : jsstring) (st : AppState) : AppState :=
  mkApp v (game st) (draggedPiece st) (isBoardFlipped st) (processingError st).
Definition setGame (v : jsstring) (st : AppState) : AppState :=
  mkApp (fen st) v (draggedPiece st) (isBoardFlipped st) (processingError st).
Definition setDraggedPiece (v : option Piece) (st : AppState) : AppState :=
  mkApp (fen st) (game st) v (isBoardFlipped st) (processingError st).
Definition setIsBoardFlipped (v : bool) (st : AppState) : AppState :=
  mkApp (fen st) (game st) (draggedPiece st) v (processingError st).
Definition setProcessingError (v : option jsstring) (st : AppState) : AppState :=
  mkApp (fen st) (game st) (draggedPiece st) (isBoardFlipped st) v.

(** Modelled from the spec: the FEN chess.js reports for [new Chess()], the
    standard initial position; chess.js is not part of the sources. *)
Definition DEFAULT_POSITION : jsstring :=
  js "rnbqkbnr/pppppppp/8/8/8/8/PPPPPPPP/RNBQKBNR w KQkq - 0 1".

(** [gameFen[1] = preservedTurn] on the array [split] returned: an array of
    length one grows by one entry. *)
Definition assignTurn (gameFen : list jsstring) (turn : jsstring) : list jsstring :=
  match gameFen with
  | [] => [[]; turn]
  | [board] => [board; turn]
  | board :: _ :: rest => board :: turn :: rest
  end.

(** [if (x)] on a possibly missing string. *)
Definition truthy (s : option jsstring) : bool :=
  match s with
  | Some (_ :: _) => true
  | _ => false
  end.

(** The checks on [fen] and the FEN-to-array conversion at the head of
    every edit: the fields and the board, or [None] on an early return. *)
Definition readFen (fen : jsstring) : option (list jsstring * Board) :=
  if isEmpty fen then None
  else
    let fenParts := split " " fen in
    if (length fenParts <? 6) || isEmpty (default [] (fenParts !! 0)) then None
    else
      let boardPart := default [] (fenParts !! 0) in
      let ranks := split "/" boardPart in
      if negb (length ranks =? 8) then None
      else Some (fenParts, parseBoard ranks).

(** What each edit handler computes before it touches the state: [newFen]
    and [preservedTurn], or [None] when the handler returns early. *)
Definition moveEdit (sourceSquare targetSquare : option jsstring) (fen : jsstring)
  : option (jsstring * jsstring) :=
  if negb (validSquare sourceSquare) || negb (validSquare targetSquare) then None
  else
    match readFen fen with
    | None => None
    | Some (fenParts, board) =>
        match squareCoords sourceSquare with
        | None => None
        | Some (sourceRow, sourceCol) =>
            match getSquare board sourceRow sourceCol with
            | None => None
            | Some piece =>
                match squareCoords targetSquare with
                | None => None
                | Some (targetRow, targetCol) =>
                    let board := setSquare board sourceRow sourceCol None in
                    let board := setSquare board targetRow targetCol (Some piece) in
                    let preservedTurn := partOr fenParts 1 in
                    Some (rebuildFen (boardToFen board) fenParts, preservedTurn)
                end
            end
        end
    end.

Definition removeEdit (square : option jsstring) (fen : jsstring)
  : option (jsstring * jsstring) :=
  if negb (validSquare square) then None
  else
    match readFen fen with
    | None => None
    | Some (fenParts, board) =>
        match squareCoords square with
        | None => None
        | Some (row, col) =>
            match getSquare board row col with
            | Some _ =>
                let board := setSquare board row col None in
                let preservedTurn := partOr fenParts 1 in
                Some (rebuildFen (boardToFen board) fenParts, preservedTurn)
            | None => None
            end
        end
    end.

Definition placeEdit (dragged : Piece) (targetSquare : option jsstring) (fen : jsstring)
  : option (jsstring * jsstring) :=
  match readFen fen with
  | None => None
  | Some (fenParts, board) =>
      match squareCoords targetSquare with
      | None => None
      | Some (row, col) =>
          let board :=
            setSquare board row col (Some (mkPiece (type dragged) (color dragged))) in
          let preservedTurn := partOr fenParts 1 in
          Some (rebuildFen (boardToFen board) fenParts, preservedTurn)
      end
  end.

(** [fenWithPreservedTurn] and [preservedTurn] of the Swap Colors button. *)
Definition swapEdit (fen : jsstring) : jsstring * jsstring :=
  let currentFenParts := split " " fen in
  let preservedTurn := partOr currentFenParts 1 in
  let swappedFen := swapPieceColors fen in
  let swappedFenParts := split " " swappedFen in
  (sixFields (render (swappedFenParts !! 0)) preservedTurn
             (render (swappedFenParts !! 2)) (render (swappedFenParts !! 3))
             (render (swappedFenParts !! 4)) (render (swappedFenParts !! 5)),
   preservedTurn).

(** The user-level operations on a position. *)
Inductive Operation :=
| Place (piece : Piece) (target : jsstring)
| Remove (square : jsstring)
| Move (source target : jsstring)
| Rotate180
| SwapColors.

Section Handlers.

(** [Chess f = Some g]: [new Chess(f)] succeeds and its [fen()] is [g]. *)
Variable Chess : jsstring -> option jsstring.

(** The block that follows every edit: show [newFen], then try to obtain a
    chess.js instance for it, forcing the turn back when the instance
    reports another one. *)
Definition commitFen (newFen preservedTurn : jsstring) (st : AppState) : AppState :=
  let st := setFen newFen st in
  match Chess newFen with
  | Some newGame =>
      let gameFen := split " " newGame in
      if negb (bool_decide (gameFen !! 1 = Some preservedTurn)) then
        let correctedFen := join (js " ") (assignTurn gameFen preservedTurn) in
        match Chess correctedFen with
        | Some correctedGame => setFen correctedFen (setGame correctedGame st)
        | None => setGame newGame st
        end
      else setGame newGame st
  | None => st
  end.

(** Move: a piece dragged from one square of the board to another. *)
Definition onDrop (sourceSquare targetSquare : option jsstring) (st : AppState)
  : AppState * bool :=
  match moveEdit sourceSquare targetSquare (fen st) with
  | Some (newFen, preservedTurn) => (commitFen newFen preservedTurn st, true)
  | None => (st, false)
  end.

(** Remove: a right click on a square. *)
Definition handleSquareRightClick (square : option jsstring) (st : AppState) : AppState :=
  match removeEdit square (fen st) with
  | Some (newFen, preservedTurn) => commitFen newFen preservedTurn st
  | None => st
  end.

(** Place and Move as the board component reports them: a drop with a
    palette piece in hand and no source square places that piece; a drop
    with a source square is a move. *)
Definition enhancedOnDrop (sourceSquare targetSquare : option jsstring) (st : AppState)
  : AppState * bool :=
  match draggedPiece st with
  | Some dragged =>
      if negb (truthy sourceSquare) then
        if negb (validSquare targetSquare) then (setDraggedPiece None st, false)
        else
          let st := setDraggedPiece None st in
          match placeEdit dragged targetSquare (fen st) with
          | Some (newFen, preservedTurn) => (commitFen newFen preservedTurn st, true)
          | None => (st, false)
          end
      else onDrop sourceSquare targetSquare st
  | None =>
      if truthy sourceSquare then onDrop sourceSquare targetSquare st
      else (st, false)
  end.

Definition handleReset (st : AppState) : AppState :=
  setFen DEFAULT_POSITION (setGame DEFAULT_POSITION st).

(** Rotate180: the Flip Board button. *)
Definition handleFlipBoard (st : AppState) : AppState :=
  if isEmpty (fen st) then st
  else
    let flippedFen := rotateFEN180 (fen st) in
    if negb (validateFENFormat flippedFen) then
      setProcessingError (Some (js "Invalid FEN format after flip.")) st
    else
      let st := setIsBoardFlipped false (setFen flippedFen st) in
      match Chess flippedFen with
      | Some newGame => setGame newGame st
      | None => st
      end.

(** SwapColors: the Swap Colors button. *)
Definition handleSwapColors (st : AppState) : AppState :=
  let '(fenWithPreservedTurn, preservedTurn) := swapEdit (fen st) in
  let st := setFen fenWithPreservedTurn st in
  match Chess fenWithPreservedTurn with
  | Some newGame =>
      let gameFen := split " " newGame in
      if negb (bool_decide (gameFen !! 1 = Some preservedTurn)) then
        let correctedFen := join (js " ") (assignTurn gameFen preservedTurn) in
        match Chess correctedFen with
        | Some correctedGame => setFen correctedFen (setGame correctedGame st)
        | None => st
        end
      else setGame newGame st
  | None => st
  end.

(** Turn-set: the turn radio buttons. *)
Definition handleTurnChange (newTurn : jsstring) (st : AppState) : AppState :=
  if isEmpty (fen st) then st
  else
    let fenParts := split " " (fen st) in
    if length fenParts <? 2 then st
    else
      let newFen := join (js " ") (assignTurn fenParts newTurn) in
      match Chess newFen with
      | Some newGame => setFen newGame (setGame newGame st)
      | None => setFen newFen st
      end.

(** The palette's [handlePieceDragStart], as far as the state goes. *)
Definition handlePieceDragStart (piece : Piece) (st : AppState) : AppState :=
  setDraggedPiece (Some piece) st.

(** How the handlers carry out a user-level operation. *)
Definition perform (op : Operation) (st : AppState) : AppState :=
  match op with
  | Place piece target =>
      fst (enhancedOnDrop None (Some target) (handlePieceDragStart piece st))
  | Remove square => handleSquareRightClick (Some square) st
  | Move source target => fst (enhancedOnDrop (Some source) (Some target) st)
  | Rotate180 => handleFlipBoard st
  | SwapColors => handleSwapColors st
  end.

Definition performAll (ops : list Operation) (st : AppState) : AppState :=
  fold_left (fun st op => perform op st) ops st.

End Handlers.

(** The castling check boxes read the field this way ([castlingRights]). *)
Record CastlingRights := mkRights {
  whiteKingside : bool; whiteQueenside : bool;
  blackKingside : bool; blackQueenside : bool
}.

Definition castlingRights (castling : jsstring) : CastlingRights :=
  mkRights (includes castling "K") (includes castling "Q")
           (includes castling "k") (includes castling "q").

(** A stand-in for chess.js that accepts every FEN and reports it as
    loaded. *)
Definition chessEcho (f : jsstring) : option jsstring := Some f.

(** ** The upload cooldown *)

(** Times are the millisecond counts [Date.now()] returns. *)
Record UploadState := mkUpload {
  lastApiCallRef : Z;
  uploadError : option jsstring;       (* [processingError] *)
  isProcessing : bool
}.

Definition API_CALL_COOLDOWN : Z := 1000.

(** [Math.ceil(a / 1000)] on an integer [a]. *)
Definition ceilDiv1000 (a : Z) : Z := (- ((- a) / 1000))%Z.

Definition waitMessage (waitTime : Z) : jsstring :=
  js "Please wait " ++ intToString waitTime ++ js " second"
     ++ (if (1 <? waitTime)%Z then js "s" else [])
     ++ js " before uploading another image.".

(** What the handler does up to its [await]: [Ignored] when no file was
    chosen, [RateLimited] when it returns before the call, [CallIssued] when
    it goes on to [processImageToFEN(file)], the only path to the network. *)
Inductive UploadStep := Ignored | RateLimited (waitTime : Z) | CallIssued.

Definition handleImageUpload (hasFile : bool) (now : Z) (st : UploadState)
  : UploadState * UploadStep :=
  if negb hasFile then (st, Ignored)
  else
    let timeSinceLastCall := (now - lastApiCallRef st)%Z in
    if (timeSinceLastCall <? API_CALL_COOLDOWN)%Z then
      let waitTime := ceilDiv1000 (API_CALL_COOLDOWN - timeSinceLastCall) in
      (mkUpload (lastApiCallRef st) (Some (waitMessage waitTime)) (isProcessing st),
       RateLimited waitTime)
    else (mkUpload now None true, CallIssued).

(** A run of upload events, each with the clock reading at which it fires;
    the result is the final state and the number of calls issued. *)
Fixpoint uploads (events : list Z) (st : UploadState) : UploadState * nat :=
  match events with
  | [] => (st, 0)
  | now :: rest =>
      let '(st', step) := handleImageUpload true now st in
      let '(st'', calls) := uploads rest st' in
      (st'', (match step with CallIssued => 1 | _ => 0 end) + calls)
  end.

(** ** The detector grid mapper *)

(** JavaScript numbers, idealised: the finite ones are exact rationals (no
    rounding, no overflow, one zero), together with the two infinities and
    [NaN] and their arithmetic. *)
Inductive num := NaN | NegInf | Fin (q : Q) | PosInf.

Definition sgn (x : num) : comparison :=
  match x with
  | NaN => Eq
  | NegInf => Lt
  | Fin q => (q ?= 0)%Q
  | PosInf => Gt
  end.

Definition sgnMul (s t : comparison) : comparison :=
  match s, t with
  | Eq, _ | _, Eq => Eq
  | Lt, Lt | Gt, Gt => Gt
  | _, _ => Lt
  end.

Definition infinite (s : comparison) : num :=
  match s with Lt => NegInf | Eq => NaN | Gt => PosInf end.

Definition numNeg (x : num) : num :=
  match x with
  | NaN => NaN
  | NegInf => PosInf
  | Fin q => Fin (- q)
  | PosInf => NegInf
  end.

Definition numAdd (x y : num) : num :=
  match x, y with
  | NaN, _ | _, NaN => NaN
  | Fin p, Fin q => Fin (p + q)
  | PosInf, NegInf | NegInf, PosInf => NaN
  | PosInf, _ | _, PosInf => PosInf
  | NegInf, _ | _, NegInf => NegInf
  end.

Definition numSub (x y : num) : num := numAdd x (numNeg y).

Definition numMul (x y : num) : num :=
  match x, y with
  | NaN, _ | _, NaN => NaN
  | Fin p, Fin q => Fin (p * q)
  | _, _ => infinite (sgnMul (sgn x) (sgn y))
  end.

Definition numDiv (x y : num) : num :=
  match x, y with
  | NaN, _ | _, NaN => NaN
  | Fin p, Fin q => if Qeq_bool q 0 then infinite (sgn x) else Fin (p / q)
  | Fin _, _ => Fin 0
  | _, Fin q => infinite (sgnMul (sgn x) (if Qeq_bool q 0 then Gt else sgn y))
  | _, _ => NaN
  end.

(** [x < y] and [x <= y]: false as soon as one side is [NaN]. *)
Definition numLt (x y : num) : bool :=
  match x, y with
  | NaN, _ | _, NaN => false
  | Fin p, Fin q => negb (Qle_bool q p)
  | NegInf, NegInf | PosInf, _ | _, NegInf => false
  | _, _ => true
  end.

Definition numLe (x y : num) : bool :=
  match x, y with
  | NaN, _ | _, NaN => false
  | Fin p, Fin q => Qle_bool p q
  | NegInf, _ | _, PosInf => true
  | _, _ => false
  end.

Definition numGt (x y : num) : bool := numLt y x.

Definition mathMin (x y : num) : num :=
  match x, y with
  | NaN, _ | _, NaN => NaN
  | _, _ => if numLe x y then x else y
  end.

Definition mathMax (x y : num) : num :=
  match x, y with
  | NaN, _ | _, NaN => NaN
  | _, _ => if numLe x y then y else x
  end.

Definition mathFloor (x : num) : num :=
  match x with
  | Fin q => Fin (inject_Z (Qfloor q))
  | _ => x
  end.

Definition isFinite (x : num) : bool :=
  match x with Fin _ => true | _ => false end.

(** [if (x)] on an optional number: [undefined], [NaN] and zero are falsy. *)
Definition truthyNum (x : option num) : bool :=
  match x with
  | Some (Fin q) => negb (Qeq_bool q 0)
  | Some NaN | None => false
  | Some _ => true
  end.

Definition ofNat (n : nat) : num := Fin (inject_Z (Z.of_nat n)).

(** An array index: a number selects an entry when it is one of the
    integers [0 .. length - 1]; any other number reads [undefined]. *)
Definition toIndex (x : num) : option nat :=
  match x with
  | Fin q =>
      if Qeq_bool q (inject_Z (Qfloor q)) && (0 <=? Qfloor q)%Z
      then Some (Z.to_nat (Qfloor q)) else None
  | _ => None
  end.

Record ChessPieceDetection := mkDetection {
  x : num; y : num; width : num; height : num;
  class : jsstring;
  confidence : num
}.

Record GridSquare := mkGridSquare {
  row : nat; col : nat;
  piece : option jsstring;
  gridConfidence : num
}.

(** The own properties of [pieceClassToFEN]; the names a JavaScript object
    inherits are outside the detector's vocabulary and are not modelled. *)
Definition pieceClassToFEN : list (jsstring * jsstring) :=
  [ (js "white-pawn", js "P"); (js "white-rook", js "R"); (js "white-knight", js "N");
    (js "white-bishop", js "B"); (js "white-queen", js "Q"); (js "white-king", js "K");
    (js "black-pawn", js "p"); (js "black-rook", js "r"); (js "black-knight", js "n");
    (js "black-bishop", js "b"); (js "black-queen", js "q"); (js "black-king", js "k");
    (js "w-pawn", js "P"); (js "w-rook", js "R"); (js "w-knight", js "N");
    (js "w-bishop", js "B"); (js "w-queen", js "Q"); (js "w-king", js "K");
    (js "b-pawn", js "p"); (js "b-rook", js "r"); (js "b-knight", js "n");
    (js "b-bishop", js "b"); (js "b-queen", js "q"); (js "b-king", js "k") ].

Fixpoint lookupKey (table : list (jsstring * jsstring)) (key : jsstring) : option jsstring :=
  match table with
  | [] => None
  | (k, v) :: rest => if bool_decide (k = key) then Some v else lookupKey rest key
  end.

(** [pieceClassToFEN[det.class.toLowerCase()]] *)
Definition fenPieceOf (det : ChessPieceDetection) : option jsstring :=
  lookupKey pieceClassToFEN (map toLowerCase (class det)).

Inductive outcome (A : Type) := Returned (a : A) | Thrown.
Arguments Returned {A} a.
Arguments Thrown {A}.

Abbreviation Grid := (list (list GridSquare)).

Definition emptyGrid : Grid :=
  replicate 8 (replicate 8 (mkGridSquare 0 0 None (Fin 0))).

Record Bounds := mkBounds {
  minX : num; minY : num; maxX : num; maxY : num;
  boardWidth : num; boardHeight : num
}.

(** The first [forEach]: the tight rectangle around all detection boxes. *)
Definition growBounds (acc : num * num * num * num) (det : ChessPieceDetection)
  : num * num * num * num :=
  let '(minX, minY, maxX, maxY) := acc in
  let centerX := x det in
  let centerY := y det in
  let halfWidth := numDiv (width det) (ofNat 2) in
  let halfHeight := numDiv (height det) (ofNat 2) in
  (mathMin minX (numSub centerX halfWidth),
   mathMin minY (numSub centerY halfHeight),
   mathMax maxX (numAdd centerX halfWidth),
   mathMax maxY (numAdd centerY halfHeight)).

Definition margin : num := Fin (5 # 100).

Definition boardBounds (detections : list ChessPieceDetection)
    (imageWidth imageHeight : option num) : Bounds :=
  if negb (truthyNum imageWidth) || negb (truthyNum imageHeight) then
    let '(minX, minY, maxX, maxY) :=
      fold_left growBounds detections (PosInf, PosInf, NegInf, NegInf) in
    mkBounds minX minY maxX maxY (numSub maxX minX) (numSub maxY minY)
  else
    let imageWidth := default NaN imageWidth in
    let imageHeight := default NaN imageHeight in
    let scale := numSub (ofNat 1) (numMul (ofNat 2) margin) in
    mkBounds (numMul imageWidth margin) (numMul imageHeight margin) NegInf NegInf
             (numMul imageWidth scale) (numMul imageHeight scale).

(** The cell of a detection: the clamped row and column, still numbers. *)
Definition clampedCell (bounds : Bounds) (squareWidth squareHeight : num)
    (det : ChessPieceDetection) : num * num :=
  let col := mathFloor (numDiv (numSub (x det) (minX bounds)) squareWidth) in
  let row := mathFloor (numDiv (numSub (y det) (minY bounds)) squareHeight) in
  let clampedRow := mathMax (ofNat 0) (mathMin (ofNat 7) row) in
  let clampedCol := mathMax (ofNat 0) (mathMin (ofNat 7) col) in
  (clampedRow, clampedCol).

(** [grid[row][col]] on indices that may be any number: [None] is the
    [TypeError] of reading a property of [undefined]. *)
Definition gridAt (grid : Grid) (clampedRow clampedCol : num) : option (nat * nat * GridSquare) :=
  match toIndex clampedRow, toIndex clampedCol with
  | Some r, Some c =>
      match grid !! r with
      | Some cells =>
          match cells !! c with
          | Some sq => Some (r, c, sq)
          | None => None
          end
      | None => None
      end
  | _, _ => None
  end.

Definition setCell (grid : Grid) (r c : nat) (sq : GridSquare) : Grid :=
  match grid !! r with
  | Some cells => <[r := <[c := sq]> cells]> grid
  | None => grid
  end.

(** One iteration of the second [forEach]. *)
Definition placeDetection (bounds : Bounds) (squareWidth squareHeight : num)
    (grid : Grid) (det : ChessPieceDetection) : outcome Grid :=
  let '(clampedRow, clampedCol) := clampedCell bounds squareWidth squareHeight det in
  match fenPieceOf det with
  | Some fenPiece =>
      match gridAt grid clampedRow clampedCol with
      | Some (r, c, sq) =>
          if negb (truthy (piece sq)) || numGt (confidence det) (gridConfidence sq) then
            Returned (setCell grid r c (mkGridSquare r c (Some fenPiece) (confidence det)))
          else Returned grid
      | None => Thrown
      end
  | None => Returned grid
  end.

Fixpoint mapDetections (bounds : Bounds) (squareWidth squareHeight : num)
    (grid : Grid) (detections : list ChessPieceDetection) : outcome Grid :=
  match detections with
  | [] => Returned grid
  | det :: rest =>
      match placeDetection bounds squareWidth squareHeight grid det with
      | Returned grid' => mapDetections bounds squareWidth squareHeight grid' rest
      | Thrown => Thrown
      end
  end.

(** The grid-to-FEN loop of one row. *)
Fixpoint gridRowLoop (cells : list GridSquare) (emptyCount : nat) : jsstring :=
  match cells with
  | [] => if 0 <? emptyCount then numToString emptyCount else []
  | square :: rest =>
      if truthy (piece square) then
        (if 0 <? emptyCount then numToString emptyCount else [])
          ++ default [] (piece square) ++ gridRowLoop rest 0
      else gridRowLoop rest (S emptyCount)
  end.

Definition gridToFen (grid : Grid) : jsstring :=
  join (js "/") (map (fun cells => gridRowLoop cells 0) grid).

Definition EMPTY_BOARD_FEN : jsstring := js "8/8/8/8/8/8/8/8 w - - 0 1".

(** The two guards in front of the mapping loop. *)
Definition degenerate (bounds : Bounds) : bool :=
  let squareWidth := numDiv (boardWidth bounds) (ofNat 8) in
  let squareHeight := numDiv (boardHeight bounds) (ofNat 8) in
  (numLe (boardWidth bounds) (ofNat 0) || numLe (boardHeight bounds) (ofNat 0))
  || (numLe squareWidth (ofNat 0) || numLe squareHeight (ofNat 0)
      || negb (isFinite squareWidth) || negb (isFinite squareHeight)).

Definition detectionsToFEN (detections : list ChessPieceDetection)
    (imageWidth imageHeight : option num) : outcome jsstring :=
  let grid := emptyGrid in
  let bounds := boardBounds detections imageWidth imageHeight in
  if numLe (boardWidth bounds) (ofNat 0) || numLe (boardHeight bounds) (ofNat 0) then
    Returned EMPTY_BOARD_FEN
  else
    let squareWidth := numDiv (boardWidth bounds) (ofNat 8) in
    let squareHeight := numDiv (boardHeight bounds) (ofNat 8) in
    if numLe squareWidth (ofNat 0) || numLe squareHeight (ofNat 0)
       || negb (isFinite squareWidth) || negb (isFinite squareHeight) then
      Returned EMPTY_BOARD_FEN
    else
      match mapDetections bounds squareWidth squareHeight grid detections with
      | Returned grid => Returned (gridToFen grid ++ js " w - - 0 1")
      | Thrown => Thrown
      end.

(** ** Vocabulary of the statements *)

(** A character that is neither of the two separators of a FEN. *)
Definition boardSafe (c : ascii) : Prop := c <> " "%char /\ c <> "/"%char.

(** A board in the sense of the data model: eight rows of eight squares. *)
Definition wellShaped (board : Board) : Prop :=
  length board = 8 /\ Forall (fun r : Row => length r = 8) board.

(** The space-separated fields of a FEN and the one at a given position. *)
Definition fields (fen : jsstring) : list jsstring := split " " fen.

Definition turnOf (fen : jsstring) : option jsstring := fields fen !! 1.

(** The five fields after the board. *)
Definition metadata (fen : jsstring) : list jsstring := drop 1 (fields fen).

(** A FEN with six fields: six non-empty strings separated by single spaces. *)
Definition sixFieldFen (fen : jsstring) : Prop :=
  length (fields fen) = 6 /\ Forall (fun p => p <> []) (fields fen).

(** chess.js reports the side to move it was given: when it accepts a FEN
    of six fields, the FEN it returns has the same turn field. *)
Definition keepsTurn (Chess : jsstring -> option jsstring) : Prop :=
  forall f g, sixFieldFen f -> Chess f = Some g -> turnOf g = turnOf f.

(** What an edit hands to the commit block: the FEN rebuilt from some
    eight-by-eight board and the fields of the FEN it started from. *)
Definition rebuiltFrom (fen newFen preservedTurn : jsstring) : Prop :=
  exists parts board board',
    readFen fen = Some (parts, board) /\ wellShaped board'
    /\ newFen = rebuildFen (boardToFen board') parts
    /\ preservedTurn = partOr parts 1.

(** The three board edits among the operations. *)
Definition isEdit (op : Operation) : Prop :=
  match op with
  | Place _ _ | Remove _ | Move _ _ => True
  | _ => False
  end.

(** The state the application starts in: [useState(new Chess())]. *)
Definition initialState : AppState :=
  mkApp DEFAULT_POSITION DEFAULT_POSITION None false None.

(** Another stand-in, which reports black to move whatever it was given:
    it drives the handlers through their turn-restoring branch. *)
Definition chessBlackToMove (f : jsstring) : option jsstring :=
  Some (join (js " ") (assignTurn (split " " f) (js "b"))).

(** An en-passant field of a position: [-] or a square. *)
Definition enPassantField (enPassant : jsstring) : Prop :=
  enPassant = js "-" \/ validSquare (Some enPassant) = true.

(** A position in FEN text: six non-empty fields, the first with eight
    ranks. *)
Definition positionFen (fen : jsstring) (board turn castling enPassant halfmove fullmove : jsstring)
  : Prop :=
  fields fen = [board; turn; castling; enPassant; halfmove; fullmove]
  /\ Forall (fun p => p <> []) (fields fen)
  /\ length (split "/" board) = 8.

(** The piece the edit handlers find on a square of a FEN, by row and
    column of the array they decode it into. *)
Definition pieceAt (fen : jsstring) (row col : nat) : option Piece :=
  match readFen fen with
  | Some (_, board) => getSquare board row col
  | None => None
  end.

(** Colour inversion on a board character and on a piece. *)
Definition swapCase (c : ascii) : ascii :=
  if between "A" "Z" c then toLowerCase c
  else if between "a" "z" c then toUpperCaseAscii c
  else c.

Definition swapColor (p : Piece) : Piece :=
  mkPiece (type p) (match color p with w => b | b => w end).

(** The characters a rank is written with: letters and the counts 1 to 8.
    The FEN board alphabet of the validator is among them. *)
Definition letterOrCount (c : ascii) : bool :=
  between "1" "8" c || between "A" "Z" c || between "a" "z" c.

Definition plainBoard (board : jsstring) : Prop :=
  Forall (fun rank : jsstring => Forall (fun c => letterOrCount c = true) rank)
         (split "/" board).

(** The validator's view of a string: [fenString.trim().split(/\s+/)]. *)
Definition wsFields (s : jsstring) : list jsstring := splitWs (trim s).

(** Structural validity, clause by clause. *)
Definition rankOk (rank : jsstring) : Prop :=
  rank <> [] /\ Forall (fun c => c ∈ js "rnbqkpRNBQKP12345678") rank
  /\ squareCount rank = 8.

Definition numeric (s : jsstring) : Prop :=
  s <> [] /\ Forall (fun c => c ∈ js "0123456789") s.

Definition structurallyValid (s : jsstring) : Prop :=
  exists board turn castling enPassant halfmove fullmove,
    wsFields s = [board; turn; castling; enPassant; halfmove; fullmove]
    /\ length (split "/" board) = 8
    /\ Forall rankOk (split "/" board)
    /\ (turn = js "w" \/ turn = js "b")
    /\ (castling = js "-" \/ Forall (fun c => c ∈ js "KQkq") castling)
    /\ (enPassant = js "-"
        \/ exists file rank, enPassant = [file; rank]
                             /\ file ∈ js "abcdefgh" /\ rank ∈ js "36")
    /\ numeric halfmove /\ numeric fullmove.








(** Free of white space. *)
Definition blankFree (s : jsstring) : Prop := Forall (fun c => isSpace c = false) s.

(** ** The squares a rank describes *)

(** The piece object the FEN-to-array loop builds for a character that is
    not a count: [None] when the character names no piece type. *)
Definition decodePiece (c : ascii) : option Piece :=
  match fenToPieceType (toLowerCase c) with
  | Some t => Some (mkPiece t (if between "A" "Z" c then w else b))
  | None => None
  end.

(** The squares one character of a rank stands for, and a rank read as the
    squares it lists from left to right. *)
Definition cellsOf (c : ascii) : Row :=
  if between "1" "8" c then replicate (default 0 (parseInt c)) None
  else [decodePiece c].

Definition expand (rank : jsstring) : Row := concat (map cellsOf rank).

(** A rank that lists exactly eight squares. *)
Definition fullRank (rank : jsstring) : Prop := squareCount rank = 8.
(** ** FENs as the editor keeps them *)

(** The validator's checks on the fields it found, in its order. *)
Definition validFields (parts : list jsstring) : bool :=
  match parts with
  | [board; turn; castling; enPassant; halfmove; fullmove] =>
      let ranks := split "/" board in
      (length ranks =? 8) && forallb validRank ranks
      && (bool_decide (turn = js "w") || bool_decide (turn = js "b"))
      && (bool_decide (castling = js "-") || castlingLetters castling)
      && (bool_decide (enPassant = js "-") || enPassantSquare enPassant)
      && allDigits halfmove && allDigits fullmove
  | _ => false
  end.

(** A FEN whose fields, as the handlers split it at single spaces, are
    non-empty and pass those checks. *)
Definition editorFen (fen : jsstring) : Prop :=
  validFields (fields fen) = true /\ Forall (fun p => p <> []) (fields fen).

(** ** The castling check boxes *)

(** [s.startsWith(p)], [s.includes(p)] and [s.replace(p, '')] for a string
    pattern [p]: [replace] removes the first occurrence only. *)
Fixpoint startsWith (p s : jsstring) : bool :=
  match p, s with
  | [], _ => true
  | _ :: _, [] => false
  | a :: p', c :: s' => Ascii.eqb a c && startsWith p' s'
  end.

Fixpoint includesString (s p : jsstring) : bool :=
  startsWith p s
  || match s with
     | [] => false
     | _ :: s' => includesString s' p
     end.

Fixpoint removeFirst (s p : jsstring) : jsstring :=
  if startsWith p s then drop (length p) s
  else match s with
       | [] => []
       | c :: s' => c :: removeFirst s' p
       end.

(** The castling text after a box was ticked or cleared. *)
Definition toggleCastling (castling right : jsstring) (enabled : bool) : jsstring :=
  let castling :=
    if enabled then
      if negb (includesString castling right) then castling ++ right else castling
    else removeFirst castling right in
  if isEmpty castling then js "-" else castling.

(** [newFen] of [handleCastlingRightsChange]; the handler has this block
    twice, once on the fields chess.js reports and once on those of [fen]. *)
Definition castlingEdit (fenParts : list jsstring) (right : jsstring) (enabled : bool)
  : jsstring :=
  let castling := orDefault (fenParts !! 2) (js "-") in
  let castling := toggleCastling castling right enabled in
  join (js " ") (<[2 := castling]> fenParts).

Section CastlingHandler.

Variable Chess : jsstring -> option jsstring.

Definition handleCastlingRightsChange (right : jsstring) (enabled : bool) (st : AppState)
  : AppState :=
  if isEmpty (fen st) then st
  else
    match Chess (fen st) with
    | Some gameCopy =>
        let fenParts := split " " gameCopy in
        if length fenParts <? 6 then st
        else
          let newFen := castlingEdit fenParts right enabled in
          match Chess newFen with
          | Some newGame => setFen newGame (setGame newGame st)
          | None => setFen newFen st
          end
    | None =>
        let fenParts := split " " (fen st) in
        if 6 <=? length fenParts then setFen (castlingEdit fenParts right enabled) st
        else st
    end.

End CastlingHandler.

(** How often a character occurs in a string. *)
Definition occurrences (c : ascii) (s : jsstring) : nat :=
  length (filter (fun a => a = c) s).

(** A stand-in for chess.js on positions it does not accept: every
    constructor call throws. *)
Definition chessRejects (f : jsstring) : option jsstring := None.

(** ** King counts and the analysis links *)

(** The loop of [checkKingCounts] over the characters of the board field. *)
Definition countKings (boardPart : jsstring) : nat * nat :=
  fold_left
    (fun (counts : nat * nat) (char : ascii) =>
       let '(whiteKings, blackKings) := counts in
       let whiteKings := if Ascii.eqb char "K" then S whiteKings else whiteKings in
       let blackKings := if Ascii.eqb char "k" then S blackKings else blackKings in
       (whiteKings, blackKings))
    boardPart (0, 0).

Definition checkKingCounts (fen : jsstring) : list jsstring :=
  let fenParts := split " " fen in
  let boardPart := default [] (fenParts !! 0) in
  let '(whiteKings, blackKings) := countKings boardPart in
  let warnings := [] in
  let warnings :=
    if whiteKings =? 0 then warnings ++ [js "White is missing a king"]
    else if 1 <? whiteKings
         then warnings ++ [js "White has " ++ numToString whiteKings
                             ++ js " kings (should be 1)"]
         else warnings in
  let warnings :=
    if blackKings =? 0 then warnings ++ [js "Black is missing a king"]
    else if 1 <? blackKings
         then warnings ++ [js "Black has " ++ numToString blackKings
                             ++ js " kings (should be 1)"]
         else warnings in
  warnings.

(** The line feed of the warning dialogue. *)
Definition LF : ascii := ascii_of_nat 10.

Definition warningMessage (warnings : list jsstring) (question : jsstring) : jsstring :=
  js "Warning: Invalid king count detected!" ++ [LF; LF]
     ++ join [LF] warnings ++ [LF; LF] ++ question.

(** [fen.replace(/ /g, '_')] *)
Definition underscored (fen : jsstring) : jsstring :=
  map (fun c => if Ascii.eqb c " " then "_"%char else c) fen.

(** The class [[rnbqkpRNBQKP0-9\/_wbKQkq-]] and the path
    [fen.replace(/ /g, '_').replace(/[^...]/g, '')]. *)
Definition lichessChar (c : ascii) : bool :=
  includes (js "rnbqkpRNBQKP/_wbKQkq-") c || between "0" "9" c.

Definition lichessFEN (fen : jsstring) : jsstring :=
  filter (fun c => lichessChar c = true) (underscored fen).

(** [encodeURIComponent] on code units below 256: the unreserved
    characters stand for themselves, every other one is written as the
    percent-escaped bytes of its UTF-8 encoding. *)
Definition hexDigit (n : nat) : ascii := nth n (js "0123456789ABCDEF") "0"%char.

Definition percent (byte : nat) : jsstring :=
  ["%"%char; hexDigit (byte / 16); hexDigit (byte mod 16)].

Definition unreserved (c : ascii) : bool :=
  between "A" "Z" c || between "a" "z" c || between "0" "9" c
  || includes (js "-_.!~*'()") c.

Definition encodeChar (c : ascii) : jsstring :=
  if unreserved c then [c]
  else
    let n := code c in
    if n <? 128 then percent n
    else percent (192 + n / 64) ++ percent (128 + n mod 64).

Definition encodeURIComponent (s : jsstring) : jsstring := concat (map encodeChar s).

(** What a link handler did with [window.open]. *)
Inductive LinkStep := Opened (url : jsstring) | NotOpened.

Section LinkHandlers.

(** The user's answer to [window.confirm(message)]. *)
Variable confirm : jsstring -> bool.

Definition handleAnalyzeLichess (st : AppState) : AppState * LinkStep :=
  if negb (validateFENFormat (fen st)) then
    (setProcessingError (Some (js "Invalid FEN format. Cannot open analysis.")) st,
     NotOpened)
  else
    let warnings := checkKingCounts (fen st) in
    if (0 <? length warnings)
       && negb (confirm (warningMessage warnings
                           (js "Do you still want to analyze this position?")))
    then (st, NotOpened)
    else
      let fenToAnalyze := fen st in
      let lichessFEN := lichessFEN fenToAnalyze in
      if 200 <? length lichessFEN then
        (setProcessingError (Some (js "FEN string too long for analysis.")) st, NotOpened)
      else (st, Opened (js "https://lichess.org/analysis/" ++ lichessFEN)).

Definition handleAnalyzeChessCom (st : AppState) : AppState * LinkStep :=
  if negb (validateFENFormat (fen st)) then
    (setProcessingError (Some (js "Invalid FEN format. Cannot open analysis.")) st,
     NotOpened)
  else
    let warnings := checkKingCounts (fen st) in
    if (0 <? length warnings)
       && negb (confirm (warningMessage warnings
                           (js "Do you still want to analyze this position?")))
    then (st, NotOpened)
    else
      let fenToAnalyze := fen st in
      let encodedFEN := encodeURIComponent fenToAnalyze in
      (st, Opened (js "https://www.chess.com/analysis?fen=" ++ encodedFEN)).

Definition handleEditorLichess (st : AppState) : AppState * LinkStep :=
  if negb (validateFENFormat (fen st)) then
    (setProcessingError (Some (js "Invalid FEN format. Cannot open editor.")) st,
     NotOpened)
  else
    let warnings := checkKingCounts (fen st) in
    if (0 <? length warnings)
       && negb (confirm (warningMessage warnings
                           (js "Do you still want to open this position?")))
    then (st, NotOpened)
    else
      let fenToAnalyze := fen st in
      let lichessFEN := lichessFEN fenToAnalyze in
      if 200 <? length lichessFEN then
        (setProcessingError (Some (js "FEN string too long for editor.")) st, NotOpened)
      else (st, Opened (js "https://lichess.org/editor/" ++ lichessFEN)).

Definition handleEditFENTool (st : AppState) : AppState * LinkStep :=
  if negb (validateFENFormat (fen st)) then
    (setProcessingError (Some (js "Invalid FEN format. Cannot open FEN Tool.")) st,
     NotOpened)
  else
    let encodedFEN := encodeURIComponent (fen st) in
    (st, Opened (js "https://mutsuntsai.github.io/fen-tool/?fen=" ++ encodedFEN)).

End LinkHandlers.

(** How many squares of a board hold a given piece. *)
Definition countPiece (p : Piece) (board : Board) : nat :=
  length (filter (fun square => square = Some p) (concat board)).

(** The FEN with its spaces and slashes percent-escaped. *)
Definition escaped (fen : jsstring) : jsstring :=
  concat (map (fun c => if Ascii.eqb c " " then js "%20"
                        else if Ascii.eqb c "/" then js "%2F" else [c]) fen).

(** The characters a valid FEN is written with. *)
Definition editorChar (c : ascii) : bool :=
  validFENChar c || includes (js "/ wb-KQkqabcdefgh") c || between "0" "9" c.

(** ** The detector's response and the upload pipeline *)

(** A value of the response body, as the HTTP client hands it over. *)
#[local] Unset Elimination Schemes.
#[local] Set Elimination Schemes.




















(** The names of the 64 squares. *)
Definition boardSquares : list jsstring :=
  file ← js "abcdefgh"; rank ← js "12345678"; [[file; rank]].

(** ** A drop on the frame around the board *)






Section FrameDrop.

Variable Chess : jsstring -> option jsstring.


End FrameDrop.


(** * Properties *)

(** ** [split] and [join] *)

Lemma split_cons (sep : ascii) (s : jsstring) :
  exists h t, split sep s = h :: t.
Proof.
  induction s as [|c s IH]; simpl; [by eauto|].
  destruct (Ascii.eqb c sep); [by eauto|].
  destruct IH as (h & t & ->). by eauto.
Qed.

Lemma split_nosep (sep : ascii) (s : jsstring) :
  sep ∉ s -> split sep s = [s].
Proof.
  induction s as [|c s IH]; intros Hs; simpl; [done|].
  apply not_elem_of_cons in Hs as [Hc Hs].
  destruct (Ascii.eqb_spec c sep) as [->|_]; [done|].
  by rewrite IH.
Qed.

Lemma split_app (sep : ascii) (p rest : jsstring) :
  sep ∉ p -> split sep (p ++ sep :: rest) = p :: split sep rest.
Proof.
  induction p as [|c p IH]; intros Hp; simpl.
  - by rewrite Ascii.eqb_refl.
  - apply not_elem_of_cons in Hp as [Hc Hp].
    destruct (Ascii.eqb_spec c sep) as [->|_]; [done|].
    by rewrite IH.
Qed.

Lemma split_parts_nosep (sep : ascii) (s : jsstring) :
  Forall (fun p => sep ∉ p) (split sep s).
Proof.
  induction s as [|c s IH]; simpl.
  - repeat constructor. by apply not_elem_of_nil.
  - destruct (Ascii.eqb_spec c sep) as [->|Hne].
    + constructor; [apply not_elem_of_nil | done].
    + destruct (split sep s) as [|h t]; inversion IH; subst.
      * repeat constructor. rewrite list_elem_of_singleton. congruence.
      * constructor; [|done]. rewrite not_elem_of_cons. split; [congruence | done].
Qed.

Lemma join_split (sep : ascii) (s : jsstring) :
  join [sep] (split sep s) = s.
Proof.
  induction s as [|c s IH]; simpl; [done|].
  destruct (Ascii.eqb_spec c sep) as [->|Hne].
  - destruct (split_cons sep s) as (h & t & E). rewrite E in IH |- *.
    simpl. by rewrite <- IH.
  - destruct (split sep s) as [|h t]; simpl in *; [by subst|].
    destruct t; simpl in *; by subst.
Qed.

Lemma split_join (sep : ascii) (parts : list jsstring) :
  parts <> [] -> Forall (fun p => sep ∉ p) parts ->
  split sep (join [sep] parts) = parts.
Proof.
  induction parts as [|p parts IH]; intros Hne Hall; [done|].
  inversion Hall as [|? ? Hp Hps]; subst.
  destruct parts as [|q parts].
  - simpl. by apply split_nosep.
  - change (join [sep] (p :: q :: parts)) with (p ++ sep :: join [sep] (q :: parts)).
    rewrite split_app by done. by rewrite IH.
Qed.

Lemma split_sixFields (p0 p1 p2 p3 p4 p5 : jsstring) :
  Forall (fun p => " "%char ∉ p) [p0; p1; p2; p3; p4; p5] ->
  split " " (sixFields p0 p1 p2 p3 p4 p5) = [p0; p1; p2; p3; p4; p5].
Proof.
  intros H. change (sixFields p0 p1 p2 p3 p4 p5)
    with (join [" "%char] [p0; p1; p2; p3; p4; p5]).
  by apply split_join.
Qed.

(** ** Characters of a rebuilt board *)

Ltac each_char c := destruct c as [[] [] [] [] [] [] [] []].

(** Closed decidable facts are settled by evaluation. *)
Ltac decided := apply (bool_decide_unpack _); vm_compute; exact I.

Lemma numToString_safe (n : nat) : Forall boardSafe (numToString n).
Proof.
  unfold numToString, NilZero.string_of_uint.
  assert (H : forall d, Forall boardSafe (js (NilEmpty.string_of_uint d))).
  { induction d; simpl; constructor; try done; by split. }
  destruct (Nat.to_uint n); try apply H.
  repeat constructor; done.
Qed.

Lemma pieceChar_safe (p : Piece) : boardSafe (pieceChar p).
Proof. destruct p as [[] []]; by split. Qed.

Lemma encodeRowLoop_safe (r : Row) (k : nat) : Forall boardSafe (encodeRowLoop r k).
Proof.
  revert k; induction r as [|[p|] r IH]; intros k; simpl.
  - destruct (0 <? k); [apply numToString_safe | constructor].
  - apply Forall_app; split.
    + destruct (0 <? k); [apply numToString_safe | constructor].
    + constructor; [apply pieceChar_safe | apply IH].
  - apply IH.
Qed.

Lemma safe_no_slash (s : jsstring) : Forall boardSafe s -> "/"%char ∉ s.
Proof.
  intros H Hin. rewrite Forall_forall in H. by destruct (H _ Hin).
Qed.

Lemma safe_no_space (s : jsstring) : Forall boardSafe s -> " "%char ∉ s.
Proof.
  intros H Hin. rewrite Forall_forall in H. by destruct (H _ Hin).
Qed.

Lemma join_no_space (sep : ascii) (parts : list jsstring) :
  sep <> " "%char -> Forall (fun p => " "%char ∉ p) parts ->
  " "%char ∉ join [sep] parts.
Proof.
  intros Hsep. induction parts as [|p parts IH]; intros H.
  - apply not_elem_of_nil.
  - inversion H as [|? ? Hp Hps]; subst. destruct parts as [|q parts]; [done|].
    change (join [sep] (p :: q :: parts)) with (p ++ sep :: join [sep] (q :: parts)).
    rewrite elem_of_app, elem_of_cons. intros [?|[?|?]]; [done | congruence |].
    by apply IH.
Qed.

Lemma boardToFen_no_space (board : Board) : " "%char ∉ boardToFen board.
Proof.
  apply join_no_space; [done|].
  apply Forall_map, Forall_forall. intros r _.
  apply safe_no_space, encodeRowLoop_safe.
Qed.

Lemma split_boardToFen (board : Board) :
  board <> [] -> split "/" (boardToFen board) = map encodeRow board.
Proof.
  intros Hne. apply split_join.
  - by destruct board.
  - apply Forall_map, Forall_forall. intros r _.
    apply safe_no_slash, encodeRowLoop_safe.
Qed.

(** ** Decoding a rebuilt board gives the board back *)

Lemma numToString_count (k : nat) :
  1 <= k <= 8 ->
  exists c, numToString k = [c] /\ between "1" "8" c = true /\ parseInt c = Some k.
Proof.
  intros [H1 H8].
  do 9 (destruct k as [|k]; [first [lia | by eexists] |]). lia.
Qed.

Lemma pieceChar_decodes (p : Piece) :
  between "1" "8" (pieceChar p) = false
  /\ fenToPieceType (toLowerCase (pieceChar p)) = Some (type p)
  /\ (if between "A" "Z" (pieceChar p) then w else b) = color p.
Proof. by destruct p as [[] []]. Qed.

Lemma parseRankLoop_nil_or_full (chars : jsstring) (r : Row) :
  parseRankLoop chars 8 r = r.
Proof. by destruct chars. Qed.

Lemma parseRankLoop_digit (c : ascii) (rest : jsstring) (col n : nat) (r : Row) :
  col < 8 -> between "1" "8" c = true -> parseInt c = Some n -> col + n <= 8 ->
  parseRankLoop (c :: rest) col r = parseRankLoop rest (col + n) r.
Proof.
  intros Hcol Hc Hn Hsum. simpl.
  replace (col <? 8) with true by (symmetry; apply Nat.ltb_lt; lia).
  rewrite Hc, Hn. simpl.
  by replace (8 <? col + n) with false by (symmetry; apply Nat.ltb_ge; lia).
Qed.

Lemma parseRankLoop_piece (p : Piece) (rest : jsstring) (col : nat) (r : Row) :
  col < 8 ->
  parseRankLoop (pieceChar p :: rest) col r
  = parseRankLoop rest (S col) (<[col := Some p]> r).
Proof.
  intros Hcol. destruct (pieceChar_decodes p) as (Hd & Ht & Hc). simpl.
  replace (col <? 8) with true by (symmetry; apply Nat.ltb_lt; lia).
  rewrite Hd, Ht, Hc.
  replace (8 <? S col) with false by (symmetry; apply Nat.ltb_ge; lia).
  by destruct p.
Qed.

Lemma parse_encode_loop (r : Row) : forall (k : nat) (pre : Row),
  length pre + k + length r = 8 ->
  parseRankLoop (encodeRowLoop r k) (length pre) (pre ++ replicate (k + length r) None)
  = pre ++ replicate k None ++ r.
Proof.
  induction r as [|[p|] r IH]; intros k pre Hlen; simpl in *.
  - rewrite Nat.add_0_r, app_nil_r.
    destruct k as [|k]; [done|]. change (0 <? S k) with true. cbv iota.
    destruct (numToString_count (S k)) as (c & -> & Hc & Hn); [lia|].
    by rewrite (parseRankLoop_digit c [] _ (S k)) by (done || lia).
  - assert (Hstep : forall pre' : Row,
      length pre' + S (length r) = 8 ->
      parseRankLoop (pieceChar p :: encodeRowLoop r 0) (length pre')
                    (pre' ++ replicate (S (length r)) None)
      = pre' ++ Some p :: r).
    { intros pre' Hsum. rewrite parseRankLoop_piece by lia.
      rewrite insert_app_r_alt by lia. rewrite Nat.sub_diag. simpl.
      specialize (IH 0 (pre' ++ [Some p])).
      rewrite length_app in IH. simpl in IH.
      replace (length pre' + 1) with (S (length pre')) in IH by lia.
      rewrite <- !app_assoc in IH. simpl in IH. apply IH. lia. }
    destruct k as [|k].
    + simpl. apply (Hstep pre); lia.
    + change (0 <? S k) with true. cbv iota.
      destruct (numToString_count (S k)) as (c & -> & Hc8 & Hint); [lia|].
      change ([c] ++ pieceChar p :: encodeRowLoop r 0)
        with (c :: pieceChar p :: encodeRowLoop r 0).
      rewrite (parseRankLoop_digit c _ _ (S k)) by (done || lia).
      specialize (Hstep (pre ++ replicate (S k) None)).
      rewrite length_app, length_replicate in Hstep.
      rewrite replicate_add. rewrite <- !app_assoc in Hstep. apply Hstep; lia.
  - specialize (IH (S k) pre).
    replace (k + S (length r)) with (S k + length r) by lia.
    rewrite IH by lia.
    change (None :: r) with ([None] ++ r).
    rewrite (app_assoc (replicate k None)).
    by rewrite <- replicate_S_end.
Qed.

Lemma parseRank_loop (rank : jsstring) :
  parseRank rank = parseRankLoop rank 0 (replicate 8 None).
Proof. by destruct rank. Qed.

Lemma parseRank_encodeRow (r : Row) :
  length r = 8 -> parseRank (encodeRow r) = r.
Proof.
  intros Hlen. rewrite parseRank_loop. unfold encodeRow.
  pose proof (parse_encode_loop r 0 []) as H. simpl in H.
  rewrite Hlen in H. by apply H.
Qed.

Lemma parseBoard_boardToFen (board : Board) :
  wellShaped board -> parseBoard (split "/" (boardToFen board)) = board.
Proof.
  intros [Hlen Hrows]. rewrite split_boardToFen by (by destruct board).
  unfold parseBoard. rewrite map_map. clear Hlen.
  induction Hrows as [|r rows Hr _ IH]; simpl; [done|].
  rewrite parseRank_encodeRow by done. by f_equal.
Qed.

(** ** Shapes *)

Lemma parseRankLoop_length (chars : jsstring) : forall (col : nat) (r : Row),
  length (parseRankLoop chars col r) = length r.
Proof.
  induction chars as [|c chars IH]; intros col r; simpl; [done|].
  destruct (col <? 8); [|done].
  destruct (between "1" "8" c); [apply IH|].
  destruct (fenToPieceType (toLowerCase c));
    destruct (8 <? S col); rewrite ?IH, ?length_insert; done.
Qed.

Lemma parseRank_length (rank : jsstring) : length (parseRank rank) = 8.
Proof. rewrite parseRank_loop, parseRankLoop_length. done. Qed.

Lemma parseBoard_wellShaped (ranks : list jsstring) :
  length ranks = 8 -> wellShaped (parseBoard ranks).
Proof.
  intros H. split.
  - unfold parseBoard. by rewrite length_map.
  - unfold parseBoard. apply Forall_map, Forall_forall. intros r _.
    apply parseRank_length.
Qed.

Lemma setSquare_wellShaped (board : Board) (r c : nat) (v : option Piece) :
  wellShaped board -> wellShaped (setSquare board r c v).
Proof.
  intros [Hlen Hrows]. unfold setSquare.
  destruct (board !! r) as [cells|] eqn:E; [|done].
  split; [by rewrite length_insert|].
  apply Forall_insert; [done|]. rewrite length_insert.
  rewrite Forall_forall in Hrows. apply Hrows. by eapply list_elem_of_lookup_2.
Qed.

Lemma getSquare_setSquare_eq (board : Board) (r c : nat) (v : option Piece) :
  wellShaped board -> r < 8 -> c < 8 ->
  getSquare (setSquare board r c v) r c = v.
Proof.
  intros [Hlen Hrows] Hr Hc. unfold getSquare, setSquare.
  destruct (board !! r) as [cells|] eqn:E.
  - rewrite list_lookup_insert_eq by lia.
    rewrite list_lookup_insert_eq; [done|].
    rewrite Forall_forall in Hrows.
    rewrite (Hrows cells); [lia|]. by eapply list_elem_of_lookup_2.
  - apply lookup_ge_None in E. lia.
Qed.

Lemma getSquare_setSquare_ne (board : Board) (r c r' c' : nat) (v : option Piece) :
  (r, c) <> (r', c') ->
  getSquare (setSquare board r c v) r' c' = getSquare board r' c'.
Proof.
  intros Hne. unfold getSquare, setSquare.
  destruct (board !! r) as [cells|] eqn:E; [|done].
  destruct (decide (r = r')) as [<-|Hr].
  - rewrite list_lookup_insert_eq by (by eapply lookup_lt_Some).
    rewrite E. rewrite list_lookup_insert_ne; [done|]. congruence.
  - by rewrite list_lookup_insert_ne.
Qed.

(** ** The fields of a rebuilt FEN *)

Lemma fields_no_space (fen : jsstring) : Forall (fun p => " "%char ∉ p) (fields fen).
Proof. apply split_parts_nosep. Qed.

Lemma orDefault_no_space (x : option jsstring) (d : jsstring) :
  " "%char ∉ d -> (forall p, x = Some p -> " "%char ∉ p) -> " "%char ∉ orDefault x d.
Proof.
  intros Hd Hx. destruct x as [[|c p]|]; simpl; try done. by apply Hx.
Qed.

Lemma partOr_no_space (parts : list jsstring) (i : nat) :
  Forall (fun p => " "%char ∉ p) parts -> " "%char ∉ partOr parts i.
Proof.
  intros H. apply orDefault_no_space.
  - do 6 (destruct i as [|i]; [by decided |]). apply not_elem_of_nil.
  - intros p Hp. rewrite Forall_forall in H. apply H. by eapply list_elem_of_lookup_2.
Qed.

Lemma partOr_lookup (parts : list jsstring) (i : nat) (p : jsstring) :
  parts !! i = Some p -> p <> [] -> partOr parts i = p.
Proof. intros E Hp. unfold partOr. rewrite E. by destruct p. Qed.

Lemma fields_rebuildFen (fenBoard : jsstring) (parts : list jsstring) :
  " "%char ∉ fenBoard -> Forall (fun p => " "%char ∉ p) parts ->
  fields (rebuildFen fenBoard parts)
  = [fenBoard; partOr parts 1; partOr parts 2; partOr parts 3;
     partOr parts 4; partOr parts 5].
Proof.
  intros Hb Hp. unfold fields, rebuildFen. apply split_sixFields.
  repeat constructor; try done; by apply partOr_no_space.
Qed.

Lemma readFen_Some (fen : jsstring) (parts : list jsstring) (board : Board) :
  readFen fen = Some (parts, board) ->
  parts = fields fen /\ 6 <= length parts /\
  exists bd, parts !! 0 = Some bd /\ length (split "/" bd) = 8
             /\ board = parseBoard (split "/" bd).
Proof.
  unfold readFen, fields. destruct (isEmpty fen); [done|].
  destruct (length (split " " fen) <? 6) eqn:Hlen; [done|]. simpl.
  destruct (split " " fen) as [|bd rest] eqn:E; simpl in *; [done|].
  destruct (isEmpty bd); [done|].
  destruct (length (split "/" bd) =? 8) eqn:Hr; simpl; [|done].
  intros [= <- <-]. apply Nat.ltb_ge in Hlen. apply Nat.eqb_eq in Hr.
  split; [done|]. split; [done|]. by exists bd.
Qed.

Lemma readFen_wellShaped (fen : jsstring) (parts : list jsstring) (board : Board) :
  readFen fen = Some (parts, board) -> wellShaped board.
Proof.
  intros H. apply readFen_Some in H as (_ & _ & bd & _ & Hlen & ->).
  by apply parseBoard_wellShaped.
Qed.

Lemma boardToFen_nonempty (board : Board) : wellShaped board -> boardToFen board <> [].
Proof.
  intros [Hlen Hrows] E.
  assert (H : split "/" (boardToFen board) = map encodeRow board)
    by (apply split_boardToFen; by destruct board).
  rewrite E in H. apply (f_equal length) in H. rewrite length_map, Hlen in H. done.
Qed.

Lemma readFen_rebuildFen (board : Board) (parts : list jsstring) :
  wellShaped board -> Forall (fun p => " "%char ∉ p) parts ->
  readFen (rebuildFen (boardToFen board) parts)
  = Some (fields (rebuildFen (boardToFen board) parts), board).
Proof.
  intros Hb Hp. pose proof (boardToFen_nonempty board Hb) as Hne.
  pose proof (fields_rebuildFen (boardToFen board) parts
                (boardToFen_no_space board) Hp) as Hf.
  assert (Hi : isEmpty (boardToFen board) = false) by (by destruct (boardToFen board)).
  unfold readFen. unfold fields in Hf |- *. rewrite Hf.
  assert (isEmpty (rebuildFen (boardToFen board) parts) = false) as ->.
  { unfold rebuildFen, sixFields. by destruct (boardToFen board). }
  cbn [length lookup list_lookup default from_option id Nat.ltb Nat.leb orb]. rewrite Hi.
  assert (Hs : length (split "/" (boardToFen board)) = 8).
  { rewrite split_boardToFen by (destruct Hb; by destruct board).
    rewrite length_map. apply Hb. }
  rewrite Hs. cbn [Nat.eqb negb]. by rewrite parseBoard_boardToFen.
Qed.

(** ** The block that commits an edit *)

Lemma assignTurn_spec (gameFen : list jsstring) (turn : jsstring) :
  assignTurn gameFen turn !! 1 = Some turn /\ assignTurn gameFen turn <> [] /\
  (Forall (fun p => " "%char ∉ p) gameFen -> " "%char ∉ turn ->
   Forall (fun p => " "%char ∉ p) (assignTurn gameFen turn)).
Proof.
  destruct gameFen as [|p0 [|p1 rest]]; simpl; (split; [done|]); (split; [done|]);
    intros H Ht; repeat constructor; try done;
    inversion H as [|? ? ? H']; subst; try done.
  - apply not_elem_of_nil.
  - by inversion H'.
Qed.

Lemma turnOf_corrected (newGame turn : jsstring) :
  " "%char ∉ turn ->
  turnOf (join (js " ") (assignTurn (split " " newGame) turn)) = Some turn.
Proof.
  intros Ht. destruct (assignTurn_spec (split " " newGame) turn) as (H1 & Hne & Hall).
  unfold turnOf, fields. change (js " ") with [" "%char].
  rewrite split_join; [done | done |]. apply Hall; [apply split_parts_nosep | done].
Qed.

Lemma commitFen_turnOf (Chess : jsstring -> option jsstring)
    (newFen turn : jsstring) (st : AppState) :
  " "%char ∉ turn -> turnOf newFen = Some turn ->
  turnOf (fen (commitFen Chess newFen turn st)) = Some turn.
Proof.
  intros Ht Hnew. unfold commitFen.
  destruct (Chess newFen) as [newGame|]; [|done].
  destruct (bool_decide _); simpl; [done|].
  destruct (Chess _); simpl; [|done]. by apply turnOf_corrected.
Qed.

Lemma commitFen_fen (Chess : jsstring -> option jsstring)
    (newFen turn : jsstring) (st : AppState) :
  keepsTurn Chess -> sixFieldFen newFen -> turnOf newFen = Some turn ->
  fen (commitFen Chess newFen turn st) = newFen.
Proof.
  intros Hk Hsix Hnew. unfold commitFen.
  destruct (Chess newFen) as [newGame|] eqn:E; [|done].
  apply Hk in E; [|done]. unfold turnOf, fields in E, Hnew. rewrite Hnew in E.
  rewrite bool_decide_eq_true_2 by done. done.
Qed.

(** ** The three edits *)

Lemma moveEdit_rebuilt (source target : option jsstring) (fen newFen turn : jsstring) :
  moveEdit source target fen = Some (newFen, turn) -> rebuiltFrom fen newFen turn.
Proof.
  unfold moveEdit. destruct (_ || _); [done|].
  destruct (readFen fen) as [[parts board]|] eqn:E; [|done].
  destruct (squareCoords source) as [[sr sc]|]; [|done].
  destruct (getSquare board sr sc) as [piece|]; [|done].
  destruct (squareCoords target) as [[tr tc]|]; [|done].
  intros [= <- <-]. exists parts, board. eexists. split; [done|]. split; [|done].
  do 2 apply setSquare_wellShaped. by eapply readFen_wellShaped.
Qed.

Lemma removeEdit_rebuilt (square : option jsstring) (fen newFen turn : jsstring) :
  removeEdit square fen = Some (newFen, turn) -> rebuiltFrom fen newFen turn.
Proof.
  unfold removeEdit. destruct (negb _); [done|].
  destruct (readFen fen) as [[parts board]|] eqn:E; [|done].
  destruct (squareCoords square) as [[r c]|]; [|done].
  destruct (getSquare board r c) as [piece|]; [|done].
  intros [= <- <-]. exists parts, board. eexists. split; [done|]. split; [|done].
  apply setSquare_wellShaped. by eapply readFen_wellShaped.
Qed.

Lemma placeEdit_rebuilt (dragged : Piece) (target : option jsstring)
    (fen newFen turn : jsstring) :
  placeEdit dragged target fen = Some (newFen, turn) -> rebuiltFrom fen newFen turn.
Proof.
  unfold placeEdit.
  destruct (readFen fen) as [[parts board]|] eqn:E; [|done].
  destruct (squareCoords target) as [[r c]|]; [|done].
  intros [= <- <-]. exists parts, board. eexists. split; [done|]. split; [|done].
  apply setSquare_wellShaped. by eapply readFen_wellShaped.
Qed.

Lemma rebuiltFrom_fields (fen newFen turn : jsstring) :
  rebuiltFrom fen newFen turn ->
  exists fenBoard,
    fields newFen = [fenBoard; partOr (fields fen) 1; partOr (fields fen) 2;
                     partOr (fields fen) 3; partOr (fields fen) 4; partOr (fields fen) 5]
    /\ turn = partOr (fields fen) 1 /\ " "%char ∉ turn.
Proof.
  intros (parts & board & board' & Hread & Hshape & -> & ->).
  apply readFen_Some in Hread as (-> & _).
  exists (boardToFen board'). split; [|split; [done|]].
  - apply fields_rebuildFen; [apply boardToFen_no_space | apply fields_no_space].
  - apply partOr_no_space, fields_no_space.
Qed.

Lemma rebuiltFrom_turnOf (fen newFen turn : jsstring) :
  rebuiltFrom fen newFen turn -> turnOf newFen = Some turn.
Proof.
  intros H. apply rebuiltFrom_fields in H as (bd & Hf & -> & _).
  unfold turnOf. by rewrite Hf.
Qed.

Lemma partOr_nonempty (parts : list jsstring) (i : nat) :
  1 <= i <= 5 -> partOr parts i <> [].
Proof.
  intros Hi. unfold partOr.
  assert (Hd : default [] (DEFAULT_FEN_PARTS !! i) <> []).
  { destruct i as [|[|[|[|[|[|i]]]]]]; try done; lia. }
  destruct (parts !! i) as [[|a p]|]; done.
Qed.

Lemma rebuiltFrom_sixFieldFen (fen newFen turn : jsstring) :
  rebuiltFrom fen newFen turn -> sixFieldFen newFen.
Proof.
  intros (parts & board & board' & Hread & Hshape & -> & ->).
  apply readFen_Some in Hread as (-> & _).
  unfold sixFieldFen.
  rewrite fields_rebuildFen by (apply boardToFen_no_space || apply fields_no_space).
  split; [done|].
  repeat constructor; try (apply partOr_nonempty; lia). by apply boardToFen_nonempty.
Qed.

(** Every edit either leaves the state's FEN alone or commits a rebuilt one. *)
Lemma perform_edit (Chess : jsstring -> option jsstring) (op : Operation) (st : AppState) :
  isEdit op ->
  fen (perform Chess op st) = fen st
  \/ exists newFen turn st',
       rebuiltFrom (fen st) newFen turn
       /\ fen (perform Chess op st) = fen (commitFen Chess newFen turn st').
Proof.
  destruct op as [piece target|square|source target| |]; try done; intros _; simpl.
  - unfold enhancedOnDrop, handlePieceDragStart.
    change (draggedPiece (setDraggedPiece (Some piece) st)) with (Some piece).
    change (truthy None) with false. cbn [negb].
    destruct (validSquare (Some target)); cbn [negb]; [|by left].
    change (fen (setDraggedPiece None (setDraggedPiece (Some piece) st))) with (fen st).
    destruct (placeEdit piece (Some target) (fen st)) as [[newFen turn]|] eqn:E;
      [|by left].
    right. exists newFen, turn. eexists. split; [|done]. by eapply placeEdit_rebuilt.
  - unfold handleSquareRightClick.
    destruct (removeEdit (Some square) (fen st)) as [[newFen turn]|] eqn:E; [|by left].
    right. exists newFen, turn, st. split; [|done]. by eapply removeEdit_rebuilt.
  - assert (H : fen (fst (onDrop Chess (Some source) (Some target) st)) = fen st
      \/ exists newFen turn st',
           rebuiltFrom (fen st) newFen turn
           /\ fen (fst (onDrop Chess (Some source) (Some target) st))
              = fen (commitFen Chess newFen turn st')).
    { unfold onDrop.
      destruct (moveEdit (Some source) (Some target) (fen st)) as [[newFen turn]|] eqn:E;
        [|by left].
      right. exists newFen, turn, st. split; [|done]. by eapply moveEdit_rebuilt. }
    unfold enhancedOnDrop.
    destruct (draggedPiece st) as [dragged|]; destruct (truthy (Some source));
      cbn [negb]; try done; [|by left].
    destruct (validSquare (Some target)); cbn [negb]; [|by left].
    change (fen (setDraggedPiece None st)) with (fen st).
    destruct (placeEdit dragged (Some target) (fen st)) as [[newFen turn]|] eqn:E;
      [|by left].
    right. exists newFen, turn. eexists. split; [|done]. by eapply placeEdit_rebuilt.
Qed.

(** ** The transforms, field by field *)

Lemma split_parts_notin (sep c : ascii) (s : jsstring) :
  c ∉ s -> Forall (fun p => c ∉ p) (split sep s).
Proof.
  induction s as [|a s IH]; intros Hs; simpl.
  - repeat constructor. apply not_elem_of_nil.
  - apply not_elem_of_cons in Hs as [Ha Hs]. specialize (IH Hs).
    destruct (Ascii.eqb a sep).
    + constructor; [apply not_elem_of_nil | done].
    + destruct (split sep s) as [|h t]; inversion IH; subst.
      * repeat constructor. by rewrite list_elem_of_singleton.
      * constructor; [|done]. by rewrite not_elem_of_cons.
Qed.

Lemma swapCastlingRights_no_space (castling : jsstring) :
  " "%char ∉ swapCastlingRights castling.
Proof.
  unfold swapCastlingRights. destruct (bool_decide _); [by decided|].
  destruct (includes castling "K"), (includes castling "Q"),
    (includes castling "k"), (includes castling "q"); by decided.
Qed.

Lemma rotatedFile_no_space (file : ascii) :
  between "a" "h" file = true ->
  ascii_of_nat (97 + (7 - (code file - 97))) <> " "%char.
Proof. each_char file; by vm_compute. Qed.

Lemma rotateEnPassant_no_space (enPassant : jsstring) :
  " "%char ∉ rotateEnPassant enPassant.
Proof.
  unfold rotateEnPassant. destruct enPassant as [|file [|rankChar rest]]; try by decided.
  destruct (bool_decide _); [by decided|].
  destruct (parseInt rankChar) as [rank|]; [|by decided].
  destruct (between "a" "h" file) eqn:Hf; [|by decided].
  destruct (1 <=? rank), (rank <=? 8); cbn [andb]; try by decided.
  rewrite not_elem_of_cons. split.
  - intros E. by apply (rotatedFile_no_space file).
  - apply safe_no_space, numToString_safe.
Qed.

Lemma rotatedBoard_no_space (boardPart : jsstring) :
  " "%char ∉ boardPart ->
  " "%char ∉ join (js "/") (map rotateRank (reverse (split "/" boardPart))).
Proof.
  intros H. apply join_no_space; [done|].
  apply Forall_map, Forall_reverse.
  eapply Forall_impl; [by apply split_parts_notin|].
  intros p Hp. destruct p; [done|]. simpl. by rewrite elem_of_reverse.
Qed.

Lemma swapChar_no_space (char : ascii) : " "%char ∉ swapChar char.
Proof. each_char char; by decided. Qed.

Lemma swapRank_no_space (rank : jsstring) : " "%char ∉ swapRank rank.
Proof.
  destruct rank as [|c rank]; [apply not_elem_of_nil|].
  unfold swapRank. generalize (c :: rank). clear. intros s.
  induction s as [|a s IH]; simpl; [apply not_elem_of_nil|].
  rewrite elem_of_app. intros [H|H]; [by apply (swapChar_no_space a) | done].
Qed.

Lemma swappedBoard_no_space (boardPart : jsstring) :
  " "%char ∉ join (js "/") (map swapRank (split "/" boardPart)).
Proof.
  apply join_no_space; [done|].
  apply Forall_map, Forall_forall. intros p _. apply swapRank_no_space.
Qed.

Lemma rotateFEN180_cases (fen : jsstring) :
  rotateFEN180 fen = fen
  \/ (6 <= length (fields fen)
      /\ length (split "/" (partOr (fields fen) 0)) = 8
      /\ rotateFEN180 fen
         = sixFields
             (join (js "/") (map rotateRank (reverse (split "/" (partOr (fields fen) 0)))))
             (partOr (fields fen) 1) (swapCastlingRights (partOr (fields fen) 2))
             (rotateEnPassant (partOr (fields fen) 3))
             (partOr (fields fen) 4) (partOr (fields fen) 5)).
Proof.
  unfold rotateFEN180, fields. destruct (isEmpty fen); [by left|].
  destruct (length (split " " fen) <? 6) eqn:Hlen; [by left|].
  destruct (length (split "/" _) =? 8) eqn:Hr; [|by left].
  right. apply Nat.ltb_ge in Hlen. apply Nat.eqb_eq in Hr. done.
Qed.

Lemma swapPieceColors_cases (fen : jsstring) :
  swapPieceColors fen = fen
  \/ (6 <= length (fields fen)
      /\ length (split "/" (partOr (fields fen) 0)) = 8
      /\ swapPieceColors fen
         = sixFields
             (join (js "/") (map swapRank (split "/" (partOr (fields fen) 0))))
             (partOr (fields fen) 1) (swapCastlingRights (partOr (fields fen) 2))
             (partOr (fields fen) 3) (partOr (fields fen) 4) (partOr (fields fen) 5)).
Proof.
  unfold swapPieceColors, fields. destruct (isEmpty fen); [by left|].
  destruct (length (split " " fen) <? 6) eqn:Hlen; [by left|].
  destruct (length (split "/" _) =? 8) eqn:Hr; [|by left].
  right. apply Nat.ltb_ge in Hlen. apply Nat.eqb_eq in Hr. done.
Qed.

Lemma fields_rotateFEN180 (fen : jsstring) :
  rotateFEN180 fen <> fen ->
  fields (rotateFEN180 fen)
  = [join (js "/") (map rotateRank (reverse (split "/" (partOr (fields fen) 0))));
     partOr (fields fen) 1; swapCastlingRights (partOr (fields fen) 2);
     rotateEnPassant (partOr (fields fen) 3);
     partOr (fields fen) 4; partOr (fields fen) 5].
Proof.
  intros Hne. destruct (rotateFEN180_cases fen) as [?|(_ & _ & ->)]; [done|].
  pose proof (fields_no_space fen) as Hp.
  apply split_sixFields. repeat constructor;
    auto using partOr_no_space, swapCastlingRights_no_space,
               rotateEnPassant_no_space, rotatedBoard_no_space.
Qed.

Lemma fields_swapPieceColors (fen : jsstring) :
  swapPieceColors fen <> fen ->
  fields (swapPieceColors fen)
  = [join (js "/") (map swapRank (split "/" (partOr (fields fen) 0)));
     partOr (fields fen) 1; swapCastlingRights (partOr (fields fen) 2);
     partOr (fields fen) 3; partOr (fields fen) 4; partOr (fields fen) 5].
Proof.
  intros Hne. destruct (swapPieceColors_cases fen) as [?|(_ & _ & ->)]; [done|].
  pose proof (fields_no_space fen) as Hp.
  apply split_sixFields. repeat constructor;
    auto using partOr_no_space, swapCastlingRights_no_space, swappedBoard_no_space.
Qed.

(** ** The side to move under each operation *)

Lemma partOr_turn (fen turn : jsstring) :
  turnOf fen = Some turn -> turn <> [] -> partOr (fields fen) 1 = turn.
Proof. intros H Hne. by apply partOr_lookup. Qed.

Lemma turnOf_rotateFEN180 (fen turn : jsstring) :
  turnOf fen = Some turn -> turn <> [] -> turnOf (rotateFEN180 fen) = Some turn.
Proof.
  intros H Hne. destruct (decide (rotateFEN180 fen = fen)) as [->|Hd]; [done|].
  unfold turnOf. rewrite fields_rotateFEN180 by done. simpl.
  by rewrite (partOr_turn fen turn).
Qed.

Lemma handleFlipBoard_fen (Chess : jsstring -> option jsstring) (st : AppState) :
  fen (handleFlipBoard Chess st) = fen st
  \/ (validateFENFormat (rotateFEN180 (fen st)) = true
      /\ fen (handleFlipBoard Chess st) = rotateFEN180 (fen st)).
Proof.
  unfold handleFlipBoard. destruct (isEmpty (fen st)); [by left|].
  destruct (validateFENFormat (rotateFEN180 (fen st))); cbn [negb]; [|by left].
  right. split; [done|]. by destruct (Chess _).
Qed.

Lemma render_no_space (x : option jsstring) :
  (forall p, x = Some p -> " "%char ∉ p) -> " "%char ∉ render x.
Proof. destruct x as [p|]; simpl; [by auto | intros _; by decided]. Qed.

Lemma swapEdit_fields (fen : jsstring) :
  let parts := fields (swapPieceColors fen) in
  fields (swapEdit fen).1
  = [render (parts !! 0); partOr (fields fen) 1; render (parts !! 2);
     render (parts !! 3); render (parts !! 4); render (parts !! 5)]
  /\ (swapEdit fen).2 = partOr (fields fen) 1.
Proof.
  intros parts. split; [|done]. unfold swapEdit. cbn [fst].
  pose proof (fields_no_space (swapPieceColors fen)) as Hp. fold parts in Hp.
  assert (Hr : forall i, " "%char ∉ render (parts !! i)).
  { intros i. apply render_no_space. intros p E.
    rewrite Forall_forall in Hp. apply Hp. by eapply list_elem_of_lookup_2. }
  apply split_sixFields. repeat constructor; auto.
  apply partOr_no_space, fields_no_space.
Qed.

Lemma handleSwapColors_turnOf (Chess : jsstring -> option jsstring)
    (st : AppState) (turn : jsstring) :
  turnOf (fen st) = Some turn -> turn <> [] ->
  turnOf (fen (handleSwapColors Chess st)) = Some turn.
Proof.
  intros H Hne. unfold handleSwapColors.
  destruct (swapEdit_fields (fen st)) as [Hf Ht].
  destruct (swapEdit (fen st)) as [newFen preserved] eqn:E. cbn [fst snd] in Hf, Ht.
  rewrite (partOr_turn _ turn) in Hf, Ht by done. subst preserved.
  assert (Hnew : turnOf newFen = Some turn) by (unfold turnOf; by rewrite Hf).
  assert (Hsp : " "%char ∉ turn).
  { pose proof (fields_no_space (fen st)) as Hp. rewrite Forall_forall in Hp.
    apply Hp. by eapply list_elem_of_lookup_2. }
  destruct (Chess newFen) as [newGame|]; [|done].
  destruct (bool_decide _); cbn [negb]; [done|].
  destruct (Chess _); [|done]. by apply turnOf_corrected.
Qed.

Lemma handleSwapColors_fen (Chess : jsstring -> option jsstring) (st : AppState) :
  keepsTurn Chess -> sixFieldFen (swapEdit (fen st)).1 ->
  fen (handleSwapColors Chess st) = (swapEdit (fen st)).1.
Proof.
  intros Hk Hsix. unfold handleSwapColors.
  destruct (swapEdit_fields (fen st)) as [Hf Ht].
  destruct (swapEdit (fen st)) as [newFen preserved] eqn:E. cbn [fst snd] in *.
  destruct (Chess newFen) as [newGame|] eqn:EC; [|done].
  apply Hk in EC; [|done]. unfold turnOf in EC. rewrite Hf in EC. cbn in EC.
  rewrite <- Ht in EC. unfold fields in EC. rewrite EC.
  by rewrite bool_decide_eq_true_2.
Qed.

Lemma perform_turnOf (Chess : jsstring -> option jsstring) (op : Operation)
    (st : AppState) (turn : jsstring) :
  turnOf (fen st) = Some turn -> turn <> [] ->
  turnOf (fen (perform Chess op st)) = Some turn.
Proof.
  intros H Hne.
  assert (Hedit : isEdit op -> turnOf (fen (perform Chess op st)) = Some turn).
  { intros He. destruct (perform_edit Chess op st He) as [->|(newFen & t & st' & Hr & ->)];
      [done|].
    pose proof (rebuiltFrom_turnOf _ _ _ Hr) as Hnew.
    apply rebuiltFrom_fields in Hr as (_ & _ & Ht & Hsp).
    rewrite (partOr_turn _ turn) in Ht by done. subst t.
    by apply commitFen_turnOf. }
  destruct op; try (by apply Hedit).
  - simpl. destruct (handleFlipBoard_fen Chess st) as [->|[_ ->]]; [done|].
    by apply turnOf_rotateFEN180.
  - simpl. by apply handleSwapColors_turnOf.
Qed.

(** The turn changes where it is meant to: the turn buttons overwrite it. *)
Lemma handleTurnChange_turnOf (Chess : jsstring -> option jsstring)
    (st : AppState) (newTurn : jsstring) :
  keepsTurn Chess -> sixFieldFen (fen st) ->
  newTurn <> [] -> " "%char ∉ newTurn ->
  turnOf (fen (handleTurnChange Chess newTurn st)) = Some newTurn.
Proof.
  intros Hk [Hlen Hne] Hnew Hsp. unfold handleTurnChange.
  assert (isEmpty (fen st) = false) as ->.
  { destruct (fen st); [by vm_compute in Hlen | done]. }
  unfold fields in *.
  replace (length (split " " (fen st)) <? 2) with false
    by (symmetry; apply Nat.ltb_ge; lia).
  pose proof (split_parts_nosep " " (fen st)) as Hparts.
  destruct (split " " (fen st)) as [|p0 [|p1 [|p2 [|p3 [|p4 [|p5 [|]]]]]]]; try done.
  cbn [assignTurn].
  assert (Hf : fields (join (js " ") [p0; newTurn; p2; p3; p4; p5])
               = [p0; newTurn; p2; p3; p4; p5]).
  { apply split_sixFields.
    repeat match goal with H : Forall _ (_ :: _) |- _ => inversion H; clear H; subst end.
    repeat constructor; done. }
  assert (Hsix : sixFieldFen (join (js " ") [p0; newTurn; p2; p3; p4; p5])).
  { split; rewrite Hf; [done|].
    repeat match goal with H : Forall _ (_ :: _) |- _ => inversion H; clear H; subst end.
    repeat constructor; done. }
  destruct (Chess _) as [newGame|] eqn:E; cbn [fen setFen].
  - rewrite (Hk _ _ Hsix E). unfold turnOf. by rewrite Hf.
  - unfold turnOf. by rewrite Hf.
Qed.

(** ** C3 *)

(** C3.  Place, Remove and Move keep the five fields after the board: on a
    FEN with six fields, the turn, castling, en-passant, halfmove and
    fullmove fields after the edit are those before it (chess.js reporting
    the side to move it was given). *)
Theorem C3_edits_keep_metadata (Chess : jsstring -> option jsstring)
    (op : Operation) (st : AppState) :
  keepsTurn Chess -> isEdit op -> sixFieldFen (fen st) ->
  metadata (fen (perform Chess op st)) = metadata (fen st).
Proof.
  intros Hk He [Hlen Hne].
  destruct (perform_edit Chess op st He) as [->|(newFen & t & st' & Hr & ->)]; [done|].
  rewrite commitFen_fen
    by (done || (by eapply rebuiltFrom_sixFieldFen) || (by eapply rebuiltFrom_turnOf)).
  apply rebuiltFrom_fields in Hr as (bd & Hf & _ & _).
  unfold metadata. rewrite Hf.
  destruct (fields (fen st)) as [|p0 [|p1 [|p2 [|p3 [|p4 [|p5 [|]]]]]]]; try done.
  repeat match goal with H : Forall _ (_ :: _) |- _ => inversion H; clear H; subst end.
  simpl. unfold partOr. simpl.
  by destruct p1, p2, p3, p4, p5.
Qed.

Lemma keepsTurn_chessEcho : keepsTurn chessEcho.
Proof. by intros f g _ [= ->]. Qed.

Lemma sixFieldFen_DEFAULT_POSITION : sixFieldFen DEFAULT_POSITION.
Proof. split; [done|]. repeat constructor; done. Qed.

Lemma C3_witness :
  keepsTurn chessEcho /\ isEdit (Move (js "e2") (js "e4"))
  /\ sixFieldFen (fen initialState)
  /\ metadata (fen (perform chessEcho (Move (js "e2") (js "e4")) initialState))
     = metadata (fen initialState).
Proof.
  split; [apply keepsTurn_chessEcho|]. split; [exact I|].
  split; [apply sixFieldFen_DEFAULT_POSITION|].
  apply C3_edits_keep_metadata;
    [apply keepsTurn_chessEcho | exact I | apply sixFieldFen_DEFAULT_POSITION].
Defined.

(** ** C4 *)

(** C4.  No sequence of Place, Remove, Move, Rotate180 and SwapColors
    changes the side to move: whatever chess.js answers, the turn field of
    the FEN after the sequence is the one before it. *)
Theorem C4_turn_invariant (Chess : jsstring -> option jsstring)
    (ops : list Operation) (st : AppState) (turn : jsstring) :
  turnOf (fen st) = Some turn -> turn <> [] ->
  turnOf (fen (performAll Chess ops st)) = Some turn.
Proof.
  intros H Hne. unfold performAll. revert st H.
  induction ops as [|op ops IH]; intros st H; simpl; [done|].
  apply IH. by apply perform_turnOf.
Qed.

Lemma C4_witness :
  let ops := [Move (js "e2") (js "e4"); Rotate180; SwapColors;
              Remove (js "a1"); Place (mkPiece queen w) (js "d4")] in
  turnOf (fen initialState) = Some (js "w") /\ js "w" <> []
  /\ turnOf (fen (performAll chessBlackToMove ops initialState)) = Some (js "w").
Proof.
  intros ops. split; [reflexivity|]. split; [discriminate|].
  apply (C4_turn_invariant chessBlackToMove ops initialState (js "w"));
    [reflexivity | discriminate].
Defined.

(** ** C1 *)

(** C1, as amended.  From the standard initial position, removing the pawn
    on e2 gives [rnbqkbnr/pppppppp/8/8/8/8/PPPP1PPP/RNBQKBNR w KQkq - 0 1],
    and swapping colours then inverts every piece where it stands: the gap
    stays on e2, in the seventh rank string, and the FEN is
    [RNBQKBNR/PPPPPPPP/8/8/8/8/pppp1ppp/rnbqkbnr w kqKQ - 0 1], white still
    to move. *)
Theorem C1_reset_remove_swap (Chess : jsstring -> option jsstring) (st : AppState) :
  keepsTurn Chess ->
  let reset := handleReset st in
  let removed := handleSquareRightClick Chess (Some (js "e2")) reset in
  let swapped := handleSwapColors Chess removed in
  fen reset = js "rnbqkbnr/pppppppp/8/8/8/8/PPPPPPPP/RNBQKBNR w KQkq - 0 1"
  /\ fen removed = js "rnbqkbnr/pppppppp/8/8/8/8/PPPP1PPP/RNBQKBNR w KQkq - 0 1"
  /\ metadata (fen removed) = metadata (fen reset)
  /\ fen swapped = js "RNBQKBNR/PPPPPPPP/8/8/8/8/pppp1ppp/rnbqkbnr w kqKQ - 0 1"
  /\ turnOf (fen swapped) = Some (js "w").
Proof.
  intros Hk reset removed swapped.
  assert (H1 : fen reset = DEFAULT_POSITION) by reflexivity.
  assert (H2 : fen removed
               = js "rnbqkbnr/pppppppp/8/8/8/8/PPPP1PPP/RNBQKBNR w KQkq - 0 1").
  { unfold removed, handleSquareRightClick. rewrite H1.
    assert (removeEdit (Some (js "e2")) DEFAULT_POSITION
            = Some (js "rnbqkbnr/pppppppp/8/8/8/8/PPPP1PPP/RNBQKBNR w KQkq - 0 1",
                    js "w")) as -> by (by vm_compute).
    apply commitFen_fen; [done | | done].
    split; [by vm_compute | by decided]. }
  assert (H3 : fen swapped
               = js "RNBQKBNR/PPPPPPPP/8/8/8/8/pppp1ppp/rnbqkbnr w kqKQ - 0 1").
  { unfold swapped. rewrite handleSwapColors_fen; [| done |].
    - rewrite H2. by vm_compute.
    - rewrite H2. split; [by vm_compute | by decided]. }
  rewrite H1, H2, H3. repeat split; by vm_compute.
Qed.

Lemma C1_witness :
  keepsTurn chessEcho
  /\ fen (handleSwapColors chessEcho
            (handleSquareRightClick chessEcho (Some (js "e2")) (handleReset initialState)))
     = js "RNBQKBNR/PPPPPPPP/8/8/8/8/pppp1ppp/rnbqkbnr w kqKQ - 0 1".
Proof.
  split; [apply keepsTurn_chessEcho|].
  apply (C1_reset_remove_swap chessEcho initialState keepsTurn_chessEcho).
Defined.

(** The FEN the claim expects after the swap has the gap on e7; the
    handlers produce another one. *)
Lemma C1_counterexample :
  fen (handleSquareRightClick chessEcho (Some (js "e2")) (handleReset initialState))
  = js "rnbqkbnr/pppppppp/8/8/8/8/PPPP1PPP/RNBQKBNR w KQkq - 0 1"
  /\ fen (handleSwapColors chessEcho
            (handleSquareRightClick chessEcho (Some (js "e2")) (handleReset initialState)))
     <> js "RNBQKBNR/PPPP1PPP/8/8/8/8/pppppppp/rnbqkbnr w kqKQ - 0 1".
Proof. split; [by vm_compute | by decided]. Qed.

(** ** Rotating twice *)

Lemma map_reverse {A B} (f : A -> B) (l : list A) :
  map f (reverse l) = reverse (map f l).
Proof. change (f <$> reverse l = reverse (f <$> l)). apply fmap_reverse. Qed.

Lemma rotateRank_involutive (rank : jsstring) : rotateRank (rotateRank rank) = rank.
Proof.
  destruct rank as [|c rank]; [done|]. unfold rotateRank at 2.
  destruct (reverse (c :: rank)) as [|c' rank'] eqn:E.
  - apply (f_equal length) in E. rewrite length_reverse in E. done.
  - unfold rotateRank. by rewrite <- E, reverse_involutive.
Qed.

Lemma rotateRank_no_slash (rank : jsstring) : "/"%char ∉ rank -> "/"%char ∉ rotateRank rank.
Proof. destruct rank; [done|]. simpl. by rewrite elem_of_reverse. Qed.

Lemma positionFen_parts (fen bd t c e h f : jsstring) :
  positionFen fen bd t c e h f ->
  isEmpty fen = false /\ 6 <= length (fields fen)
  /\ partOr (fields fen) 0 = bd /\ partOr (fields fen) 1 = t
  /\ partOr (fields fen) 2 = c /\ partOr (fields fen) 3 = e
  /\ partOr (fields fen) 4 = h /\ partOr (fields fen) 5 = f.
Proof.
  intros (Hf & Hne & _). rewrite Hf in Hne |- *.
  repeat match goal with H : Forall _ (_ :: _) |- _ => inversion H; clear H; subst end.
  split. { destruct fen; [|done]. by vm_compute in Hf. }
  split; [simpl; lia|].
  unfold partOr. simpl. by destruct bd, t, c, e, h, f.
Qed.

Lemma rotateFEN180_position (fen bd t c e h f : jsstring) :
  positionFen fen bd t c e h f ->
  rotateFEN180 fen
  = sixFields (join (js "/") (map rotateRank (reverse (split "/" bd))))
              t (swapCastlingRights c) (rotateEnPassant e) h f.
Proof.
  intros Hp. pose proof Hp as (_ & _ & Hr).
  apply positionFen_parts in Hp as (He & Hlen & H0 & H1 & H2 & H3 & H4 & H5).
  unfold rotateFEN180. rewrite He. unfold fields in *.
  replace (length (split " " fen) <? 6) with false by (symmetry; apply Nat.ltb_ge; lia).
  by rewrite H0, H1, H2, H3, H4, H5, Hr.
Qed.

Lemma swapCastlingRights_nonempty (castling : jsstring) : swapCastlingRights castling <> [].
Proof.
  unfold swapCastlingRights. destruct (bool_decide _); [done|].
  destruct (includes castling "K"), (includes castling "Q"),
    (includes castling "k"), (includes castling "q"); done.
Qed.

Lemma rotateEnPassant_nonempty (enPassant : jsstring) : rotateEnPassant enPassant <> [].
Proof.
  unfold rotateEnPassant. destruct enPassant as [|file [|rankChar rest]]; try done.
  destruct (bool_decide _); [done|].
  destruct (parseInt rankChar); [|done]. by destruct (_ && _).
Qed.

Lemma join_nonempty (sep : ascii) (parts : list jsstring) :
  2 <= length parts -> join [sep] parts <> [].
Proof. destruct parts as [|p [|q parts]]; simpl; try lia. intros _. by destruct p. Qed.

Lemma rotated_ranks (bd : jsstring) :
  split "/" (join (js "/") (map rotateRank (reverse (split "/" bd))))
  = map rotateRank (reverse (split "/" bd)).
Proof.
  apply split_join.
  - destruct (split_cons "/" bd) as (h0 & t0 & ->).
    intros E. apply (f_equal length) in E.
    rewrite length_map, length_reverse in E. done.
  - apply Forall_map, Forall_reverse.
    eapply Forall_impl; [apply split_parts_nosep|].
    intros p Hp. by apply rotateRank_no_slash.
Qed.

Lemma rotate_position (fen bd t c e h f : jsstring) :
  positionFen fen bd t c e h f ->
  positionFen (rotateFEN180 fen)
    (join (js "/") (map rotateRank (reverse (split "/" bd))))
    t (swapCastlingRights c) (rotateEnPassant e) h f.
Proof.
  intros Hp. rewrite (rotateFEN180_position _ _ _ _ _ _ _ Hp).
  destruct Hp as (Hf & Hne & Hr).
  pose proof (fields_no_space fen) as Hsp. rewrite Hf in Hsp, Hne.
  repeat match goal with H : Forall _ (_ :: _) |- _ => inversion H; clear H; subst end.
  assert (Hfields : fields (sixFields
            (join (js "/") (map rotateRank (reverse (split "/" bd))))
            t (swapCastlingRights c) (rotateEnPassant e) h f)
          = [join (js "/") (map rotateRank (reverse (split "/" bd)));
             t; swapCastlingRights c; rotateEnPassant e; h; f]).
  { apply split_sixFields. repeat constructor;
      auto using swapCastlingRights_no_space, rotateEnPassant_no_space,
                 rotatedBoard_no_space. }
  split; [done|]. split.
  - rewrite Hfields. repeat constructor;
      auto using swapCastlingRights_nonempty, rotateEnPassant_nonempty.
    apply join_nonempty. rewrite length_map, length_reverse. lia.
  - rewrite rotated_ranks, length_map, length_reverse. done.
Qed.

Lemma between_elem_of (lo hi c : ascii) (range : jsstring) :
  (forall a, between lo hi a = true -> bool_decide (a ∈ range) = true) ->
  between lo hi c = true -> c ∈ range.
Proof. intros H Hc. eapply bool_decide_eq_true_1, H, Hc. Qed.

Lemma file_letters (c : ascii) : between "a" "h" c = true -> c ∈ js "abcdefgh".
Proof. apply between_elem_of. intros a. each_char a; by vm_compute. Qed.

Lemma rank_digits (c : ascii) : between "1" "8" c = true -> c ∈ js "12345678".
Proof. apply between_elem_of. intros a. each_char a; by vm_compute. Qed.

Lemma rotateEnPassant_involutive (enPassant : jsstring) :
  enPassantField enPassant -> rotateEnPassant (rotateEnPassant enPassant) = enPassant.
Proof.
  intros [->|H]; [done|].
  destruct enPassant as [|file [|rank [|]]]; try done. simpl in H.
  apply andb_true_iff in H as [Hf Hr].
  apply file_letters in Hf. apply rank_digits in Hr.
  change (js "abcdefgh") with ["a"; "b"; "c"; "d"; "e"; "f"; "g"; "h"]%char in Hf.
  change (js "12345678") with ["1"; "2"; "3"; "4"; "5"; "6"; "7"; "8"]%char in Hr.
  repeat (apply elem_of_cons in Hf as [->|Hf]);
    [| | | | | | | | by apply elem_of_nil in Hf];
    (repeat (apply elem_of_cons in Hr as [->|Hr]);
     [| | | | | | | | by apply elem_of_nil in Hr]); by vm_compute.
Qed.

Lemma castlingRights_swapCastlingRights (castling : jsstring) :
  castlingRights (swapCastlingRights castling)
  = mkRights (blackKingside (castlingRights castling))
             (blackQueenside (castlingRights castling))
             (whiteKingside (castlingRights castling))
             (whiteQueenside (castlingRights castling)).
Proof.
  unfold swapCastlingRights. destruct (bool_decide_reflect (castling = js "-")) as [->|_];
    [done|].
  unfold castlingRights. simpl.
  destruct (includes castling "K"), (includes castling "Q"),
    (includes castling "k"), (includes castling "q"); done.
Qed.

Lemma readFen_position (fen bd t c e h f : jsstring) :
  positionFen fen bd t c e h f ->
  readFen fen = Some (fields fen, parseBoard (split "/" bd)).
Proof.
  intros Hp. pose proof Hp as (Hf & Hne & Hr).
  apply positionFen_parts in Hp as (He & Hlen & _).
  unfold readFen. rewrite He. unfold fields in *.
  replace (length (split " " fen) <? 6) with false by (symmetry; apply Nat.ltb_ge; lia).
  rewrite Hf in Hne |- *. inversion Hne as [|? ? Hbd _]; subst.
  cbn [lookup list_lookup default from_option id orb].
  assert (isEmpty bd = false) as -> by (by destruct bd).
  by rewrite Hr.
Qed.

Lemma pieceAt_position (fen bd t c e h f : jsstring) (row col : nat) :
  positionFen fen bd t c e h f ->
  pieceAt fen row col = getSquare (parseBoard (split "/" bd)) row col.
Proof. intros Hp. unfold pieceAt. by rewrite (readFen_position _ _ _ _ _ _ _ Hp). Qed.

(** ** C5 *)

(** C5, as amended.  On a position whose en-passant field is [-] or a
    square, rotating twice gives back the board field character for
    character, hence the piece on every square, and with it the en-passant
    field, the turn and both counters, and the same four castling rights.
    The castling text itself is written in the order k, q, K, Q: [KQkq]
    comes back as [kqKQ]. *)
Theorem C5_rotate_twice (fen bd t c e h f : jsstring) :
  positionFen fen bd t c e h f -> enPassantField e ->
  fields (rotateFEN180 (rotateFEN180 fen))
  = [bd; t; swapCastlingRights (swapCastlingRights c); e; h; f]
  /\ (forall row col,
        pieceAt (rotateFEN180 (rotateFEN180 fen)) row col = pieceAt fen row col)
  /\ castlingRights (swapCastlingRights (swapCastlingRights c)) = castlingRights c.
Proof.
  intros Hp He.
  pose proof (rotate_position _ _ _ _ _ _ _ Hp) as Hp1.
  pose proof (rotate_position _ _ _ _ _ _ _ Hp1) as Hp2.
  assert (Hbd : join (js "/") (map rotateRank (reverse (split "/"
                  (join (js "/") (map rotateRank (reverse (split "/" bd))))))) = bd).
  { rewrite rotated_ranks, map_reverse, map_map.
    rewrite (map_ext _ id) by apply rotateRank_involutive.
    rewrite map_id, reverse_involutive. change (js "/") with ["/"%char].
    apply join_split. }
  rewrite Hbd, (rotateEnPassant_involutive e He) in Hp2.
  split; [apply Hp2|]. split.
  - intros row col.
    by rewrite (pieceAt_position _ _ _ _ _ _ _ row col Hp2),
               (pieceAt_position _ _ _ _ _ _ _ row col Hp).
  - rewrite !castlingRights_swapCastlingRights. by destruct (castlingRights c).
Qed.

Lemma C5_witness :
  let fen := js "rnbqkbnr/pppppppp/8/8/4P3/8/PPPP1PPP/RNBQKBNR b KQkq e3 0 1" in
  positionFen fen (js "rnbqkbnr/pppppppp/8/8/4P3/8/PPPP1PPP/RNBQKBNR")
              (js "b") (js "KQkq") (js "e3") (js "0") (js "1")
  /\ enPassantField (js "e3")
  /\ fields (rotateFEN180 (rotateFEN180 fen))
     = [js "rnbqkbnr/pppppppp/8/8/4P3/8/PPPP1PPP/RNBQKBNR"; js "b";
        swapCastlingRights (swapCastlingRights (js "KQkq")); js "e3"; js "0"; js "1"].
Proof.
  intros fen.
  assert (Hp : positionFen fen (js "rnbqkbnr/pppppppp/8/8/4P3/8/PPPP1PPP/RNBQKBNR")
                 (js "b") (js "KQkq") (js "e3") (js "0") (js "1")).
  { split; [reflexivity|]. split; [|reflexivity]. repeat constructor; discriminate. }
  assert (He : enPassantField (js "e3")) by (right; reflexivity).
  split; [exact Hp|]. split; [exact He|].
  apply (C5_rotate_twice _ _ _ _ _ _ _ Hp He).
Defined.

(** Two flips of the initial position leave [kqKQ] where [KQkq] stood. *)
Lemma C5_counterexample :
  let twice := handleFlipBoard chessEcho (handleFlipBoard chessEcho initialState) in
  fen twice = rotateFEN180 (rotateFEN180 (fen initialState))
  /\ fields (fen initialState) !! 2 = Some (js "KQkq")
  /\ fields (fen twice) !! 2 = Some (js "kqKQ")
  /\ fields (fen twice) !! 2 <> fields (fen initialState) !! 2.
Proof. repeat split; by vm_compute. Qed.

(** ** Moving a piece *)

Lemma squareCoords_Some (square : option jsstring) (row col : nat) :
  squareCoords square = Some (row, col) ->
  validSquare square = true /\ row < 8 /\ col < 8.
Proof.
  destruct square as [[|file [|rank [|]]]|]; try done. simpl.
  destruct (between "a" "h" file) eqn:Hf; [|done].
  destruct (between "1" "8" rank) eqn:Hr; [|done]. simpl.
  destruct (_ || _) eqn:Hrange; [done|]. intros [= <- <-].
  split; [done|]. lia.
Qed.

Lemma pieceAt_Some (fen : jsstring) (row col : nat) (p : Piece) :
  pieceAt fen row col = Some p ->
  exists parts board, readFen fen = Some (parts, board)
                      /\ getSquare board row col = Some p.
Proof.
  unfold pieceAt. destruct (readFen fen) as [[parts board]|]; [|done]. by eauto.
Qed.

Lemma pieceAt_rebuildFen (board : Board) (parts : list jsstring) (row col : nat) :
  wellShaped board -> Forall (fun p => " "%char ∉ p) parts ->
  pieceAt (rebuildFen (boardToFen board) parts) row col = getSquare board row col.
Proof. intros Hb Hp. unfold pieceAt. by rewrite readFen_rebuildFen. Qed.

(** ** C6 *)

(** C6, as amended.  A move from an empty square returns false and leaves
    the whole state as it was.  A move from an occupied square returns
    true; afterwards the target holds the piece that stood on the source,
    the source is empty when it is another square than the target, and
    every other square is as before.  Moving a piece onto its own square
    leaves the piece there. *)
Theorem C6_move (Chess : jsstring -> option jsstring) (st : AppState)
    (source target : jsstring) (sr sc tr tc : nat) :
  keepsTurn Chess ->
  squareCoords (Some source) = Some (sr, sc) ->
  squareCoords (Some target) = Some (tr, tc) ->
  (pieceAt (fen st) sr sc = None ->
   onDrop Chess (Some source) (Some target) st = (st, false))
  /\ (forall piece, pieceAt (fen st) sr sc = Some piece ->
      let after := onDrop Chess (Some source) (Some target) st in
      snd after = true
      /\ pieceAt (fen (fst after)) tr tc = Some piece
      /\ ((sr, sc) <> (tr, tc) -> pieceAt (fen (fst after)) sr sc = None)
      /\ (forall row col, (row, col) <> (sr, sc) -> (row, col) <> (tr, tc) ->
          pieceAt (fen (fst after)) row col = pieceAt (fen st) row col)).
Proof.
  intros Hk Hs Ht.
  destruct (squareCoords_Some _ _ _ Hs) as (Hvs & Hsr & Hsc).
  destruct (squareCoords_Some _ _ _ Ht) as (Hvt & Htr & Htc).
  split.
  - intros Hnone. unfold onDrop, moveEdit. rewrite Hvs, Hvt. cbn [negb orb].
    unfold pieceAt in Hnone.
    destruct (readFen (fen st)) as [[parts board]|]; [|done].
    by rewrite Hs, Hnone.
  - intros piece Hp after.
    apply pieceAt_Some in Hp as (parts & board & Hread & Hget).
    pose proof (readFen_wellShaped _ _ _ Hread) as Hshape.
    pose proof Hread as Hparts. apply readFen_Some in Hparts as (Hparts & _).
    assert (Hsp : Forall (fun p => " "%char ∉ p) parts)
      by (rewrite Hparts; apply fields_no_space).
    set (board' := setSquare (setSquare board sr sc None) tr tc (Some piece)).
    assert (Hshape' : wellShaped board') by (by do 2 apply setSquare_wellShaped).
    assert (Hafter : after = (commitFen Chess (rebuildFen (boardToFen board') parts)
                                (partOr parts 1) st, true)).
    { unfold after, onDrop, moveEdit. rewrite Hvs, Hvt. cbn [negb orb].
      by rewrite Hread, Hs, Hget, Ht. }
    assert (Hfen : fen (fst after) = rebuildFen (boardToFen board') parts).
    { assert (Hrebuilt : rebuiltFrom (fen st) (rebuildFen (boardToFen board') parts)
                                     (partOr parts 1)) by (by exists parts, board, board').
      rewrite Hafter. cbn [fst].
      apply commitFen_fen;
        [done | by eapply rebuiltFrom_sixFieldFen | by eapply rebuiltFrom_turnOf]. }
    rewrite Hafter at 1. cbn [snd]. split; [done|].
    rewrite Hfen. split; [|split].
    + rewrite pieceAt_rebuildFen by done. unfold board'.
      apply getSquare_setSquare_eq; [by apply setSquare_wellShaped | done | done].
    + intros Hne. rewrite pieceAt_rebuildFen by done. unfold board'.
      rewrite getSquare_setSquare_ne by done.
      by apply getSquare_setSquare_eq.
    + intros row col Hn1 Hn2. rewrite pieceAt_rebuildFen by done. unfold board'.
      rewrite !getSquare_setSquare_ne by done.
      unfold pieceAt. by rewrite Hread.
Qed.

Lemma C6_witness :
  let after := onDrop chessEcho (Some (js "e2")) (Some (js "e4")) initialState in
  keepsTurn chessEcho
  /\ squareCoords (Some (js "e2")) = Some (6, 4)
  /\ squareCoords (Some (js "e4")) = Some (4, 4)
  /\ pieceAt (fen initialState) 6 4 = Some (mkPiece pawn w)
  /\ snd after = true
  /\ pieceAt (fen (fst after)) 4 4 = Some (mkPiece pawn w)
  /\ ((6, 4) <> (4, 4) -> pieceAt (fen (fst after)) 6 4 = None).
Proof.
  intros after.
  assert (Hs : squareCoords (Some (js "e2")) = Some (6, 4)) by reflexivity.
  assert (Ht : squareCoords (Some (js "e4")) = Some (4, 4)) by reflexivity.
  assert (Hp : pieceAt (fen initialState) 6 4 = Some (mkPiece pawn w)) by reflexivity.
  destruct (C6_move chessEcho initialState (js "e2") (js "e4") 6 4 4 4
              keepsTurn_chessEcho Hs Ht) as [_ Hmove].
  destruct (Hmove _ Hp) as (H1 & H2 & H3 & _).
  repeat split; try assumption. apply keepsTurn_chessEcho.
Defined.

(** A piece dropped on the square it came from is moved, and stays. *)
Lemma C6_counterexample :
  let after := onDrop chessEcho (Some (js "e2")) (Some (js "e2")) initialState in
  pieceAt (fen initialState) 6 4 = Some (mkPiece pawn w)
  /\ snd after = true
  /\ pieceAt (fen (fst after)) 6 4 = Some (mkPiece pawn w)
  /\ pieceAt (fen (fst after)) 6 4 <> None.
Proof. repeat split; by vm_compute. Qed.

(** ** Swapping colours *)

Lemma swapChar_swapCase (c : ascii) :
  letterOrCount c = true -> swapChar c = [swapCase c].
Proof. each_char c; by vm_compute. Qed.

Lemma swapCase_involutive (c : ascii) : swapCase (swapCase c) = c.
Proof. each_char c; by vm_compute. Qed.

Lemma swapCase_letterOrCount (c : ascii) :
  letterOrCount (swapCase c) = letterOrCount c.
Proof. each_char c; by vm_compute. Qed.

Lemma swapCase_count (c : ascii) :
  between "1" "8" (swapCase c) = between "1" "8" c
  /\ (between "1" "8" c = true -> swapCase c = c).
Proof. each_char c; by vm_compute. Qed.

Lemma swapCase_piece (c : ascii) :
  fenToPieceType (toLowerCase (swapCase c)) = fenToPieceType (toLowerCase c)
  /\ (forall t, fenToPieceType (toLowerCase c) = Some t ->
      between "A" "Z" (swapCase c) = negb (between "A" "Z" c)).
Proof.
  assert (H : match fenToPieceType (toLowerCase c) with
              | Some _ => Bool.eqb (between "A" "Z" (swapCase c))
                                   (negb (between "A" "Z" c))
              | None => true
              end = true) by (each_char c; by vm_compute).
  split; [each_char c; by vm_compute|].
  intros t Ht. rewrite Ht in H. by apply Bool.eqb_prop.
Qed.

Lemma swapChar_no_slash (c : ascii) : "/"%char ∉ swapChar c.
Proof. each_char c; by decided. Qed.

Lemma swapRank_no_slash (rank : jsstring) : "/"%char ∉ swapRank rank.
Proof.
  destruct rank as [|c rank]; [apply not_elem_of_nil|].
  unfold swapRank. generalize (c :: rank). clear. intros s.
  induction s as [|a s IH]; simpl; [apply not_elem_of_nil|].
  rewrite elem_of_app. intros [H|H]; [by apply (swapChar_no_slash a) | done].
Qed.

Lemma swapRank_map (rank : jsstring) :
  Forall (fun c => letterOrCount c = true) rank -> swapRank rank = map swapCase rank.
Proof.
  intros H.
  assert (Hs : swapRank rank = concat (map swapChar rank)) by (by destruct rank).
  rewrite Hs. clear Hs. induction H as [|c rank Hc _ IH]; simpl; [done|].
  by rewrite (swapChar_swapCase c Hc), IH.
Qed.

Lemma map_insert {A B} (f : A -> B) (l : list A) (i : nat) (v : A) :
  map f (<[i := v]> l) = <[i := f v]> (map f l).
Proof. change (f <$> <[i := v]> l = <[i := f v]> (f <$> l)). apply list_fmap_insert. Qed.

Lemma parseRankLoop_swapCase (chars : jsstring) : forall (col : nat) (r : Row),
  parseRankLoop (map swapCase chars) col (map (option_map swapColor) r)
  = map (option_map swapColor) (parseRankLoop chars col r).
Proof.
  induction chars as [|c chars IH]; intros col r; simpl; [done|].
  destruct (col <? 8); [|done].
  destruct (swapCase_count c) as [Hb Hid]. rewrite Hb.
  destruct (between "1" "8" c) eqn:Hd.
  - rewrite (Hid eq_refl). apply IH.
  - destruct (swapCase_piece c) as [Ht Hw]. rewrite Ht.
    destruct (fenToPieceType (toLowerCase c)) as [t|] eqn:Et.
    + rewrite (Hw t eq_refl).
      assert (Hins : <[col := Some (mkPiece t (if negb (between "A" "Z" c) then w else b))]>
                       (map (option_map swapColor) r)
                     = map (option_map swapColor)
                         (<[col := Some (mkPiece t (if between "A" "Z" c then w else b))]> r)).
      { rewrite map_insert. by destruct (between "A" "Z" c). }
      rewrite Hins. destruct (8 <? S col); [done | apply IH].
    + destruct (8 <? S col); [done | apply IH].
Qed.

Lemma parseRank_swapCase (rank : jsstring) :
  parseRank (map swapCase rank) = map (option_map swapColor) (parseRank rank).
Proof.
  rewrite !parseRank_loop.
  change (replicate 8 None) with (map (option_map swapColor) (replicate 8 None)) at 1.
  apply parseRankLoop_swapCase.
Qed.

Lemma getSquare_map (f : Piece -> Piece) (board : Board) (row col : nat) :
  getSquare (map (map (option_map f)) board) row col
  = f <$> getSquare board row col.
Proof.
  unfold getSquare.
  change (map (map (option_map f)) board) with (map (option_map f) <$> board).
  rewrite list_lookup_fmap. destruct (board !! row) as [r|]; simpl; [|done].
  change (map (option_map f) r) with (option_map f <$> r).
  rewrite list_lookup_fmap. by destruct (r !! col) as [[p|]|].
Qed.

Lemma swapped_ranks (bd : jsstring) :
  split "/" (join (js "/") (map swapRank (split "/" bd))) = map swapRank (split "/" bd).
Proof.
  apply split_join.
  - destruct (split_cons "/" bd) as (h0 & t0 & ->). done.
  - apply Forall_map, Forall_forall. intros p _. apply swapRank_no_slash.
Qed.

Lemma swapPieceColors_position (fen bd t c e h f : jsstring) :
  positionFen fen bd t c e h f ->
  swapPieceColors fen
  = sixFields (join (js "/") (map swapRank (split "/" bd)))
              t (swapCastlingRights c) e h f.
Proof.
  intros Hp. pose proof Hp as (_ & _ & Hr).
  apply positionFen_parts in Hp as (He & Hlen & H0 & H1 & H2 & H3 & H4 & H5).
  unfold swapPieceColors. rewrite He. unfold fields in *.
  replace (length (split " " fen) <? 6) with false by (symmetry; apply Nat.ltb_ge; lia).
  by rewrite H0, H1, H2, H3, H4, H5, Hr.
Qed.

Lemma swap_position (fen bd t c e h f : jsstring) :
  positionFen fen bd t c e h f ->
  positionFen (swapPieceColors fen)
    (join (js "/") (map swapRank (split "/" bd))) t (swapCastlingRights c) e h f
  /\ (swapEdit fen).1 = swapPieceColors fen.
Proof.
  intros Hp. pose proof (swapPieceColors_position _ _ _ _ _ _ _ Hp) as Heq.
  pose proof Hp as (Hf & Hne & Hr).
  pose proof (fields_no_space fen) as Hsp. rewrite Hf in Hsp, Hne.
  repeat match goal with H : Forall _ (_ :: _) |- _ => inversion H; clear H; subst end.
  assert (Hfields : fields (swapPieceColors fen)
          = [join (js "/") (map swapRank (split "/" bd));
             t; swapCastlingRights c; e; h; f]).
  { rewrite Heq. apply split_sixFields. repeat constructor;
      auto using swapCastlingRights_no_space, swappedBoard_no_space. }
  split.
  - split; [done|]. split.
    + rewrite Hfields. repeat constructor; auto using swapCastlingRights_nonempty.
      apply join_nonempty. rewrite length_map. lia.
    + by rewrite swapped_ranks, length_map.
  - unfold swapEdit. cbn [fst]. unfold fields in Hfields. rewrite Hfields.
    apply positionFen_parts in Hp as (_ & _ & _ & Hturn & _). unfold fields in Hturn.
    rewrite Hturn. by rewrite Heq.
Qed.

Lemma plainBoard_swapped (bd : jsstring) :
  plainBoard bd ->
  split "/" (join (js "/") (map swapRank (split "/" bd)))
  = map (map swapCase) (split "/" bd)
  /\ plainBoard (join (js "/") (map swapRank (split "/" bd))).
Proof.
  intros Hplain. unfold plainBoard in *.
  assert (Hm : map swapRank (split "/" bd) = map (map swapCase) (split "/" bd)).
  { induction Hplain as [|r rs Hr _ IH]; simpl; [done|].
    by rewrite swapRank_map, IH. }
  rewrite swapped_ranks, Hm. split; [done|].
  apply Forall_map. eapply Forall_impl; [exact Hplain|].
  intros r Hr. apply Forall_map. eapply Forall_impl; [exact Hr|].
  intros a Ha. by rewrite swapCase_letterOrCount.
Qed.

Lemma pieceAt_swapped (fen bd t c e h f : jsstring) (row col : nat) :
  positionFen fen bd t c e h f -> plainBoard bd ->
  pieceAt (swapPieceColors fen) row col = swapColor <$> pieceAt fen row col.
Proof.
  intros Hp Hplain. destruct (swap_position _ _ _ _ _ _ _ Hp) as [Hp' _].
  rewrite (pieceAt_position _ _ _ _ _ _ _ row col Hp'),
          (pieceAt_position _ _ _ _ _ _ _ row col Hp).
  destruct (plainBoard_swapped bd Hplain) as [-> _].
  unfold parseBoard. rewrite map_map.
  rewrite (map_ext _ (fun r => map (option_map swapColor) (parseRank r)))
    by apply parseRank_swapCase.
  rewrite <- (map_map parseRank (map (option_map swapColor))).
  apply getSquare_map.
Qed.

Lemma swapCase_twice_ranks (ranks : list jsstring) :
  map (map swapCase) (map (map swapCase) ranks) = ranks.
Proof.
  rewrite map_map. rewrite (map_ext _ id); [apply map_id|].
  intros r. rewrite map_map. rewrite (map_ext _ id); [apply map_id|].
  apply swapCase_involutive.
Qed.

(** ** C2 *)

(** C2.  On a FEN with six fields and eight ranks written with letters and
    the counts 1 to 8, SwapColors inverts the case of every letter of every
    rank string in place, so that each square holds the piece it held in
    the other colour; it exchanges the white and the black castling rights
    and keeps the turn, the en-passant field and both counters.  Applied
    twice it gives back the board field, and so the piece on every square. *)
Theorem C2_swap_colors (Chess : jsstring -> option jsstring) (st : AppState)
    (bd t c e h f : jsstring) :
  keepsTurn Chess -> positionFen (fen st) bd t c e h f -> plainBoard bd ->
  let once := handleSwapColors Chess st in
  let twice := handleSwapColors Chess once in
  (exists bd', fields (fen once) = [bd'; t; swapCastlingRights c; e; h; f]
               /\ split "/" bd' = map (map swapCase) (split "/" bd))
  /\ (forall row col,
        pieceAt (fen once) row col = swapColor <$> pieceAt (fen st) row col)
  /\ castlingRights (swapCastlingRights c)
     = mkRights (blackKingside (castlingRights c)) (blackQueenside (castlingRights c))
                (whiteKingside (castlingRights c)) (whiteQueenside (castlingRights c))
  /\ fields (fen twice) = [bd; t; swapCastlingRights (swapCastlingRights c); e; h; f]
  /\ (forall row col, pieceAt (fen twice) row col = pieceAt (fen st) row col).
Proof.
  intros Hk Hp Hplain once twice.
  destruct (swap_position _ _ _ _ _ _ _ Hp) as [Hp1 He1].
  assert (Hsix : forall x bd0 t0 c0 e0 h0 f0,
            positionFen x bd0 t0 c0 e0 h0 f0 -> sixFieldFen x).
  { intros x ? ? ? ? ? ? (Hf0 & Hne0 & _). split; [by rewrite Hf0 | done]. }
  assert (Honce : fen once = swapPieceColors (fen st)).
  { unfold once. rewrite handleSwapColors_fen; [done | done |].
    rewrite He1. by eapply Hsix. }
  destruct (plainBoard_swapped bd Hplain) as [Hranks Hplain1].
  destruct (swap_position _ _ _ _ _ _ _ Hp1) as [Hp2 He2].
  assert (Htwice : fen twice = swapPieceColors (swapPieceColors (fen st))).
  { unfold twice. rewrite handleSwapColors_fen; [| done |].
    - by rewrite Honce.
    - rewrite Honce, He2. by eapply Hsix. }
  assert (Hback : join (js "/") (map swapRank (split "/"
                    (join (js "/") (map swapRank (split "/" bd))))) = bd).
  { destruct (plainBoard_swapped _ Hplain1) as [Hr2 _].
    remember (join (js "/") (map swapRank (split "/"
                (join (js "/") (map swapRank (split "/" bd)))))) as bd2 eqn:E2.
    rewrite Hranks, swapCase_twice_ranks in Hr2.
    by rewrite <- (join_split "/" bd2), Hr2, join_split. }
  rewrite Hback in Hp2.
  split; [|split; [|split; [|split]]].
  - eexists. rewrite Honce. split; [apply Hp1 | done].
  - intros row col. rewrite Honce. by eapply pieceAt_swapped.
  - apply castlingRights_swapCastlingRights.
  - rewrite Htwice. apply Hp2.
  - intros row col. rewrite Htwice.
    by rewrite (pieceAt_position _ _ _ _ _ _ _ row col Hp2),
               (pieceAt_position _ _ _ _ _ _ _ row col Hp).
Qed.

Lemma C2_witness :
  let st := mkApp (js "r3k2r/pp1b4/8/2pP4/8/8/5PPP/4K2R w Kkq c6 0 21")
                  [] None false None in
  keepsTurn chessEcho
  /\ positionFen (fen st) (js "r3k2r/pp1b4/8/2pP4/8/8/5PPP/4K2R")
                 (js "w") (js "Kkq") (js "c6") (js "0") (js "21")
  /\ plainBoard (js "r3k2r/pp1b4/8/2pP4/8/8/5PPP/4K2R")
  /\ fields (fen (handleSwapColors chessEcho (handleSwapColors chessEcho st)))
     = [js "r3k2r/pp1b4/8/2pP4/8/8/5PPP/4K2R"; js "w";
        swapCastlingRights (swapCastlingRights (js "Kkq")); js "c6"; js "0"; js "21"].
Proof.
  intros st.
  assert (Hp : positionFen (fen st) (js "r3k2r/pp1b4/8/2pP4/8/8/5PPP/4K2R")
                 (js "w") (js "Kkq") (js "c6") (js "0") (js "21")).
  { split; [reflexivity|]. split; [|reflexivity]. repeat constructor; discriminate. }
  assert (Hb : plainBoard (js "r3k2r/pp1b4/8/2pP4/8/8/5PPP/4K2R")).
  { by decided. }
  split; [apply keepsTurn_chessEcho|]. split; [exact Hp|]. split; [exact Hb|].
  destruct (C2_swap_colors chessEcho st _ _ _ _ _ _ keepsTurn_chessEcho Hp Hb)
    as (_ & _ & _ & Htwice & _).
  exact Htwice.
Defined.

(** ** The validator *)

Lemma includes_elem_of (s : jsstring) (c : ascii) : includes s c = true <-> c ∈ s.
Proof.
  unfold includes. rewrite existsb_exists. split.
  - intros (a & Hin & Heq). apply Ascii.eqb_eq in Heq as ->. by apply list_elem_of_In.
  - intros H. exists c. split; [by apply list_elem_of_In | apply Ascii.eqb_refl].
Qed.

Lemma forallb_Forall {A} (f : A -> bool) (l : list A) :
  forallb f l = true <-> Forall (fun a => f a = true) l.
Proof.
  induction l as [|a l IH]; simpl; [by split|].
  rewrite andb_true_iff, IH. split.
  - intros [? ?]. by constructor.
  - by inversion 1.
Qed.

Lemma isEmpty_false (s : jsstring) : isEmpty s = false <-> s <> [].
Proof. by destruct s. Qed.

Lemma validFENChar_spec (c : ascii) :
  validFENChar c = true <-> c ∈ js "rnbqkpRNBQKP12345678".
Proof.
  rewrite <- (bool_decide_eq_true (c ∈ js "rnbqkpRNBQKP12345678")).
  each_char c; by vm_compute.
Qed.

Lemma digit_spec (c : ascii) : between "0" "9" c = true <-> c ∈ js "0123456789".
Proof.
  rewrite <- (bool_decide_eq_true (c ∈ js "0123456789")).
  each_char c; by vm_compute.
Qed.

Lemma file_spec (c : ascii) : between "a" "h" c = true <-> c ∈ js "abcdefgh".
Proof.
  rewrite <- (bool_decide_eq_true (c ∈ js "abcdefgh")).
  each_char c; by vm_compute.
Qed.

Lemma validRank_spec (rank : jsstring) : validRank rank = true <-> rankOk rank.
Proof.
  unfold validRank, rankOk.
  rewrite !andb_true_iff, negb_true_iff, isEmpty_false, forallb_Forall, Nat.eqb_eq.
  rewrite (Forall_iff _ rank (fun c => c ∈ js "rnbqkpRNBQKP12345678"))
    by apply validFENChar_spec.
  tauto.
Qed.

Lemma castlingLetters_spec (s : jsstring) :
  castlingLetters s = true <-> Forall (fun c => c ∈ js "KQkq") s.
Proof.
  unfold castlingLetters. rewrite forallb_Forall.
  apply Forall_iff. intros c. apply includes_elem_of.
Qed.

Lemma enPassantSquare_spec (s : jsstring) :
  enPassantSquare s = true
  <-> exists file rank, s = [file; rank] /\ file ∈ js "abcdefgh" /\ rank ∈ js "36".
Proof.
  destruct s as [|file [|rank [|]]]; cbn [enPassantSquare];
    try (split; [done | by intros (? & ? & [=] & _)]).
  rewrite andb_true_iff, file_spec, includes_elem_of. split.
  - intros [? ?]. by exists file, rank.
  - by intros (? & ? & [= <- <-] & ? & ?).
Qed.

Lemma allDigits_spec (s : jsstring) : allDigits s = true <-> numeric s.
Proof.
  unfold allDigits, numeric.
  rewrite andb_true_iff, negb_true_iff, isEmpty_false, forallb_Forall.
  by rewrite (Forall_iff _ s (fun c => c ∈ js "0123456789")) by apply digit_spec.
Qed.

Lemma orb_negb_decide (P : Prop) `{Decision P} (x : bool) :
  negb (bool_decide P) && negb x = false <-> P \/ x = true.
Proof.
  destruct (bool_decide_reflect P); destruct x; simpl; split; try tauto; try done.
  intros [?|?]; done.
Qed.

Lemma splitWs_cons (s : jsstring) : exists h t, splitWs s = h :: t.
Proof.
  induction s as [|c s IH]; simpl; [by eauto|].
  destruct (isSpace c).
  - destruct s as [|c' s']; [by eauto|]. destruct (isSpace c'); [done | by eauto].
  - destruct IH as (h & t & ->). by eauto.
Qed.

Lemma validateFENFormat_spec (s : jsstring) :
  validateFENFormat s = true <-> structurallyValid s.
Proof.
  unfold validateFENFormat, structurallyValid. fold (wsFields s).
  destruct (isEmpty s) eqn:Hs.
  { split; [done|]. destruct s; [|done].
    by intros (? & ? & ? & ? & ? & ? & H & _). }
  destruct (splitWs_cons (trim s)) as (h0 & t0 & E0). fold (wsFields s) in E0.
  destruct (wsFields s) as [|bd [|t [|c [|e [|h [|f [|]]]]]]] eqn:E;
    try (split; [done | by intros (? & ? & ? & ? & ? & ? & [=] & _)]).
  destruct (length (split "/" bd) =? 8) eqn:Hlen; cbn [negb].
  2:{ apply Nat.eqb_neq in Hlen. split; [done|].
      by intros (? & ? & ? & ? & ? & ? & [= <- <- <- <- <- <-] & ? & _). }
  apply Nat.eqb_eq in Hlen.
  destruct (forallb validRank (split "/" bd)) eqn:Hranks; cbn [negb].
  2:{ split; [done|].
      intros (? & ? & ? & ? & ? & ? & [= <- <- <- <- <- <-] & _ & Hr & _).
      assert (forallb validRank (split "/" bd) = true); [|congruence].
      apply forallb_Forall. eapply Forall_impl; [exact Hr|].
      intros r. apply validRank_spec. }
  assert (HR : Forall rankOk (split "/" bd)).
  { apply forallb_Forall in Hranks. eapply Forall_impl; [exact Hranks|].
    intros r. apply validRank_spec. }
  destruct (negb (bool_decide (t = js "w")) && negb (bool_decide (t = js "b"))) eqn:Ht.
  { split; [done|].
    intros (? & ? & ? & ? & ? & ? & [= <- <- <- <- <- <-] & _ & _ & Hturn & _).
    apply andb_true_iff in Ht as [H1 H2].
    apply negb_true_iff, bool_decide_eq_false in H1, H2. tauto. }
  assert (HT : t = js "w" \/ t = js "b").
  { destruct (bool_decide_reflect (t = js "w")); [by left|].
    destruct (bool_decide_reflect (t = js "b")); [by right | done]. }
  destruct (negb (bool_decide (c = js "-")) && negb (castlingLetters c)) eqn:Hc.
  { split; [done|].
    intros (? & ? & ? & ? & ? & ? & [= <- <- <- <- <- <-] & _ & _ & _ & Hcast & _).
    apply andb_true_iff in Hc as [H1 H2].
    apply negb_true_iff in H1, H2. apply bool_decide_eq_false in H1.
    destruct Hcast as [?|Hcast]; [done|].
    apply castlingLetters_spec in Hcast. congruence. }
  assert (HC : c = js "-" \/ Forall (fun a => a ∈ js "KQkq") c).
  { apply orb_negb_decide in Hc as [?|?]; [by left | right].
    by apply castlingLetters_spec. }
  destruct (negb (bool_decide (e = js "-")) && negb (enPassantSquare e)) eqn:He.
  { split; [done|].
    intros (? & ? & ? & ? & ? & ? & [= <- <- <- <- <- <-] & _ & _ & _ & _ & Hep & _).
    apply andb_true_iff in He as [H1 H2].
    apply negb_true_iff in H1, H2. apply bool_decide_eq_false in H1.
    destruct Hep as [?|Hep]; [done|].
    apply enPassantSquare_spec in Hep. congruence. }
  assert (HE : e = js "-" \/ exists file rank, e = [file; rank]
                                /\ file ∈ js "abcdefgh" /\ rank ∈ js "36").
  { apply orb_negb_decide in He as [?|?]; [by left | right].
    by apply enPassantSquare_spec. }
  destruct (allDigits h) eqn:Hh; cbn [negb orb].
  2:{ split; [done|].
      intros (? & ? & ? & ? & ? & ? & [= <- <- <- <- <- <-] & _ & _ & _ & _ & _ & Hn & _).
      apply allDigits_spec in Hn. congruence. }
  destruct (allDigits f) eqn:Hf; cbn [negb].
  2:{ split; [done|].
      intros (? & ? & ? & ? & ? & ? & [= <- <- <- <- <- <-] & _ & _ & _ & _ & _ & _ & Hn).
      apply allDigits_spec in Hn. congruence. }
  split; [intros _ | done].
  exists bd, t, c, e, h, f. repeat split; try done; by apply allDigits_spec.
Qed.

(** ** White-space-separated fields *)

Lemma splitWs_blankFree (s : jsstring) : Forall blankFree (splitWs s).
Proof.
  induction s as [|c s IH]; simpl; [by repeat constructor|].
  destruct (isSpace c) eqn:Hc.
  - destruct s as [|c' s']; [by repeat constructor|].
    destruct (isSpace c'); [done|]. constructor; [constructor | done].
  - destruct (splitWs s) as [|h t]; [by repeat constructor|].
    inversion IH; subst. constructor; [by constructor | done].
Qed.

Lemma splitWs_concat (s : jsstring) :
  concat (splitWs s) = filter (fun c => isSpace c = false) s.
Proof.
  induction s as [|c s IH]; simpl; [done|].
  destruct (isSpace c) eqn:Hc.
  - rewrite filter_cons_False by (by rewrite Hc).
    destruct s as [|c' s']; [done|]. destruct (isSpace c'); [done|]. simpl. done.
  - rewrite filter_cons_True by done. rewrite <- IH.
    destruct (splitWs_cons s) as (h & t & ->). done.
Qed.

Lemma dropWhile_blank (s : jsstring) :
  match dropWhile isSpace s with
  | [] => True
  | c :: _ => isSpace c = false
  end.
Proof.
  induction s as [|c s IH]; simpl; [done|]. by destruct (isSpace c) eqn:Hc.
Qed.

Lemma dropWhile_id (s : jsstring) :
  match s with [] => True | c :: _ => isSpace c = false end ->
  dropWhile isSpace s = s.
Proof. destruct s as [|c s]; simpl; [done|]. by intros ->. Qed.

Lemma dropWhile_filter (s : jsstring) :
  filter (fun c => isSpace c = false) (dropWhile isSpace s)
  = filter (fun c => isSpace c = false) s.
Proof.
  induction s as [|c s IH]; simpl; [done|].
  destruct (isSpace c) eqn:Hc; [|done].
  by rewrite IH, filter_cons_False by (by rewrite Hc).
Qed.

Lemma filter_reverse {A} (P : A -> Prop) `{forall x, Decision (P x)} (l : list A) :
  filter P (reverse l) = reverse (filter P l).
Proof.
  induction l as [|a l IH]; [done|].
  rewrite reverse_cons, filter_app, IH.
  destruct (decide (P a)).
  - rewrite !filter_cons_True by done. by rewrite reverse_cons.
  - rewrite !filter_cons_False by done. by rewrite app_nil_r.
Qed.

Lemma trim_filter (s : jsstring) :
  filter (fun c => isSpace c = false) (trim s) = filter (fun c => isSpace c = false) s.
Proof.
  unfold trim. by rewrite filter_reverse, dropWhile_filter, filter_reverse,
    reverse_involutive, dropWhile_filter.
Qed.

(** The fields are the characters of the string that are not white space,
    in order, cut into pieces free of white space. *)
Lemma wsFields_spec (s : jsstring) :
  Forall blankFree (wsFields s)
  /\ concat (wsFields s) = filter (fun c => isSpace c = false) s.
Proof.
  split; [apply splitWs_blankFree|].
  unfold wsFields. by rewrite splitWs_concat, trim_filter.
Qed.

Lemma splitWs_join (parts : list jsstring) :
  parts <> [] -> Forall (fun p => p <> [] /\ blankFree p) parts ->
  splitWs (join (js " ") parts) = parts.
Proof.
  assert (Hfree : forall p, blankFree p -> splitWs p = [p]).
  { induction p as [|c p IH]; intros Hp; simpl; [done|].
    inversion Hp as [|? ? Hc Hp']; subst. by rewrite Hc, IH. }
  assert (Hstep : forall p rest c,
    blankFree p -> isSpace c = false ->
    splitWs (p ++ " "%char :: c :: rest) = p :: splitWs (c :: rest)).
  { induction p as [|a p IH]; intros rest c Hp Hc.
    - simpl. by rewrite Hc.
    - inversion Hp as [|? ? Ha Hp']; subst.
      change ((a :: p) ++ " "%char :: c :: rest) with (a :: (p ++ " "%char :: c :: rest)).
      cbn [splitWs]. rewrite Ha. by rewrite IH. }
  induction parts as [|p parts IH]; intros Hne Hall; [done|].
  inversion Hall as [|? ? [Hp Hfp] Hps]; subst.
  destruct parts as [|q parts]; [by apply Hfree|].
  change (join (js " ") (p :: q :: parts))
    with (p ++ " "%char :: join (js " ") (q :: parts)).
  inversion Hps as [|? ? [Hq Hfq] _]; subst.
  destruct q as [|c q]; [done|]. inversion Hfq as [|? ? Hc _]; subst.
  assert (Hj : exists rest, join (js " ") ((c :: q) :: parts) = c :: rest).
  { destruct parts; simpl; by eauto. }
  destruct Hj as [rest Hj]. rewrite Hj, Hstep by done. rewrite <- Hj.
  by rewrite IH.
Qed.

Lemma last_app_cons {A} (l : list A) (a : A) : last (l ++ [a]) = Some a.
Proof. induction l as [|x [|y l] IH]; simpl in *; done. Qed.

Lemma trim_id (s : jsstring) :
  match s with [] => True | c :: _ => isSpace c = false end ->
  match reverse s with [] => True | c :: _ => isSpace c = false end ->
  trim s = s.
Proof.
  intros H1 H2. unfold trim.
  by rewrite (dropWhile_id s H1), (dropWhile_id (reverse s) H2), reverse_involutive.
Qed.

Lemma join_ends (parts : list jsstring) :
  parts <> [] -> Forall (fun p => p <> [] /\ blankFree p) parts ->
  match join (js " ") parts with [] => True | c :: _ => isSpace c = false end
  /\ match reverse (join (js " ") parts) with [] => True | c :: _ => isSpace c = false end.
Proof.
  induction parts as [|p parts IH]; intros Hne Hall; [done|].
  inversion Hall as [|? ? [Hp Hfp] Hps]; subst.
  assert (Hhead : forall s, match p ++ s with [] => True | c :: _ => isSpace c = false end).
  { intros s. destruct p as [|c p]; [done|]. by inversion Hfp. }
  destruct parts as [|q parts].
  - simpl. split; [rewrite <- (app_nil_r p); apply Hhead|].
    destruct (reverse p) as [|c r] eqn:E; [done|].
    assert (c ∈ p) by (apply elem_of_reverse; rewrite E; by left).
    unfold blankFree in Hfp. rewrite Forall_forall in Hfp. by apply Hfp.
  - change (join (js " ") (p :: q :: parts))
      with (p ++ " "%char :: join (js " ") (q :: parts)).
    split; [apply Hhead|].
    destruct (IH ltac:(done) Hps) as [_ Hlast].
    rewrite reverse_app, reverse_cons.
    destruct (reverse (join (js " ") (q :: parts))) as [|c r] eqn:E; [|done].
    apply (f_equal length) in E. rewrite length_reverse in E.
    inversion Hps as [|? ? [Hq _] _]; subst.
    destruct q; [done|]. destruct parts; simpl in E; done.
Qed.

(** Non-empty fields free of white space, joined by single spaces, are the
    fields the validator sees. *)
Lemma wsFields_join (parts : list jsstring) :
  parts <> [] -> Forall (fun p => p <> [] /\ blankFree p) parts ->
  wsFields (join (js " ") parts) = parts.
Proof.
  intros Hne Hall. unfold wsFields.
  destruct (join_ends parts Hne Hall) as [H1 H2].
  rewrite trim_id by done. by apply splitWs_join.
Qed.

(** ** C9 *)

(** C9.  The validator rejects a board of seven ranks, a turn other than
    [w] or [b], and any FEN one of whose ranks sums to nine squares; it
    accepts a string exactly when its six white-space-separated fields are
    eight ranks over the board alphabet that each sum to eight, a turn [w]
    or [b], a castling field [-] or made of the letters K, Q, k, q, an
    en-passant field [-] or a file a to h followed by 3 or 6, and two
    numeric counters.  The fields are the characters of the string that are
    not white space, in order, in pieces free of white space. *)
Theorem C9_validator :
  validateFENFormat (js "8/8/8/8/8/8/8 w - - 0 1") = false
  /\ validateFENFormat (js "rnbqkbnr/pppppppp/8/8/8/8/PPPPPPPP/RNBQKBNR x - - 0 1") = false
  /\ (forall s board rest rank,
        wsFields s = board :: rest -> rank ∈ split "/" board ->
        squareCount rank = 9 -> validateFENFormat s = false)
  /\ (forall s, validateFENFormat s = true <-> structurallyValid s)
  /\ (forall s, Forall blankFree (wsFields s)
                /\ concat (wsFields s) = filter (fun c => isSpace c = false) s).
Proof.
  split; [by vm_compute|]. split; [by vm_compute|]. split; [|split].
  - intros s board rest rank Hf Hin Hsum.
    destruct (validateFENFormat s) eqn:Hv; [|done].
    apply validateFENFormat_spec in Hv
      as (bd & ? & ? & ? & ? & ? & Hf' & _ & Hr & _).
    rewrite Hf in Hf'. injection Hf' as -> _.
    rewrite Forall_forall in Hr. destruct (Hr rank Hin) as (_ & _ & H8). lia.
  - apply validateFENFormat_spec.
  - apply wsFields_spec.
Qed.

(** ** C10 *)

Lemma ceilDiv1000_spec (a : Z) :
  (1000 * (ceilDiv1000 a - 1) < a <= 1000 * ceilDiv1000 a)%Z.
Proof.
  unfold ceilDiv1000.
  pose proof (Z.div_mod (- a) 1000 ltac:(lia)).
  pose proof (Z.mod_pos_bound (- a) 1000 ltac:(lia)). lia.
Qed.

(** C10.  An upload that fires less than 1000 ms after the last call that
    was let through is turned away before the call: the state keeps its
    time stamp, the error slot receives the wait message, and the wait it
    reports is the remaining cool-down in seconds, rounded up.  Two uploads
    400 ms apart, the first one let through: the second is turned away with
    a reported wait of one second, which covers the 0.6 s that remain, and
    one call is issued in all. *)
Theorem C10_cooldown (st : UploadState) (now : Z) :
  (now - lastApiCallRef st < API_CALL_COOLDOWN)%Z ->
  let remaining := (API_CALL_COOLDOWN - (now - lastApiCallRef st))%Z in
  let wait := ceilDiv1000 remaining in
  handleImageUpload true now st
  = (mkUpload (lastApiCallRef st) (Some (waitMessage wait)) (isProcessing st),
     RateLimited wait)
  /\ (1000 * (wait - 1) < remaining <= 1000 * wait)%Z
  /\ (forall first,
        (API_CALL_COOLDOWN <= first - lastApiCallRef st)%Z ->
        let '(st1, step1) := handleImageUpload true first st in
        let '(st2, step2) := handleImageUpload true (first + 400) st1 in
        step1 = CallIssued /\ step2 = RateLimited 1
        /\ (600 <= 1000 * 1)%Z
        /\ uploadError st2
           = Some (js "Please wait 1 second before uploading another image.")
        /\ lastApiCallRef st2 = first
        /\ snd (uploads [first; (first + 400)%Z] st) = 1).
Proof.
  intros Hlt remaining wait. split; [|split].
  - unfold handleImageUpload. cbn [negb].
    by replace (now - lastApiCallRef st <? API_CALL_COOLDOWN)%Z with true
      by (symmetry; by apply Z.ltb_lt).
  - apply ceilDiv1000_spec.
  - intros first Hfirst. unfold uploads, handleImageUpload. cbn [negb].
    replace (first - lastApiCallRef st <? API_CALL_COOLDOWN)%Z with false
      by (symmetry; by apply Z.ltb_ge).
    cbn [lastApiCallRef].
    replace (first + 400 - first)%Z with 400%Z by lia.
    repeat split; done.
Qed.

Lemma C10_witness :
  let st := mkUpload 1700000000000 None false in
  (1700000000400 - lastApiCallRef st < API_CALL_COOLDOWN)%Z
  /\ handleImageUpload true 1700000000400 st
     = (mkUpload 1700000000000
          (Some (js "Please wait 1 second before uploading another image.")) false,
        RateLimited 1).
Proof.
  intros st.
  assert (H : (1700000000400 - lastApiCallRef st < API_CALL_COOLDOWN)%Z) by reflexivity.
  split; [exact H|].
  destruct (C10_cooldown st 1700000000400 H) as [Hstep _]. exact Hstep.
Defined.

(** ** The detector grid mapper *)

(** ** The detector grid mapper *)















(** ** C7 *)



(** The mapping loop itself can throw: a detection with a known label and a
    coordinate that is not a number indexes the grid with [NaN]. *)
Lemma detectionsToFEN_can_throw :
  detectionsToFEN
    [mkDetection NaN (Fin 10) (Fin 4) (Fin 4) (js "w-queen") (Fin (1 # 2))]
    (Some (Fin 100)) (Some (Fin 100)) = Thrown.
Proof. by vm_compute. Qed.

(** ** C8 *)

(** C8.  Whenever the board bounds computed from the detections and the
    optional image dimensions are degenerate (a width or height that is
    not positive, or a square size that is not positive or not finite), the
    mapper returns the empty board with the default metadata and does not
    throw; an empty detection list without image dimensions is such a case,
    and so is one with 0 by 0 dimensions. *)
Theorem C8_degenerate_bounds (detections : list ChessPieceDetection)
    (imageWidth imageHeight : option num) :
  degenerate (boardBounds detections imageWidth imageHeight) = true ->
  detectionsToFEN detections imageWidth imageHeight
  = Returned (js "8/8/8/8/8/8/8/8 w - - 0 1")
  /\ degenerate (boardBounds [] None None) = true
  /\ degenerate (boardBounds [] (Some (Fin 0)) (Some (Fin 0))) = true.
Proof.
  intros Hdeg. split; [|split; by vm_compute].
  unfold detectionsToFEN. unfold degenerate in Hdeg.
  destruct (numLe (boardWidth _) (ofNat 0) || numLe (boardHeight _) (ofNat 0));
    [done|].
  simpl in Hdeg. by rewrite Hdeg.
Qed.

Lemma C8_witness :
  let detections :=
    [mkDetection (Fin 10) (Fin 10) (Fin 0) (Fin 0) (js "white-king") (Fin 1)] in
  degenerate (boardBounds detections None None) = true
  /\ detectionsToFEN detections None None = Returned (js "8/8/8/8/8/8/8/8 w - - 0 1").
Proof.
  intros detections.
  assert (H : degenerate (boardBounds detections None None) = true) by (by vm_compute).
  split; [exact H|].
  destruct (C8_degenerate_bounds detections None None H) as [Hfen _]. exact Hfen.
Defined.

(** ** Remarks on the edges of the statements *)

(** [swapPieceColors] copies letters and the counts 1 to 8 and drops every
    other character of a rank; on such text, outside FEN, the pieces after
    the dropped character move one file. *)
Remark swapPieceColors_drops_other_characters :
  swapPieceColors (js "0P6/8/8/8/8/8/8/8 w - - 0 1") = js "p6/8/8/8/8/8/8/8 w - - 0 1"
  /\ pieceAt (js "0P6/8/8/8/8/8/8/8 w - - 0 1") 0 1 = Some (mkPiece pawn w)
  /\ pieceAt (js "p6/8/8/8/8/8/8/8 w - - 0 1") 0 0 = Some (mkPiece pawn b).
Proof. repeat split; by vm_compute. Qed.

(** The cool-down runs from the last call that was let through: an upload
    that was turned away does not restart it. *)
Remark cooldown_runs_from_last_call (start : Z) (st : UploadState) :
  (API_CALL_COOLDOWN <= start - lastApiCallRef st)%Z ->
  snd (uploads [start; (start + 900)%Z; (start + 1100)%Z] st) = 2.
Proof.
  intros H.
  assert (H1 : handleImageUpload true start st = (mkUpload start None true, CallIssued)).
  { unfold handleImageUpload. cbn [negb].
    by replace (start - lastApiCallRef st <? API_CALL_COOLDOWN)%Z with false
      by (symmetry; by apply Z.ltb_ge). }
  assert (H2 : forall e, handleImageUpload true (start + 900) (mkUpload start e true)
               = (mkUpload start (Some (waitMessage 1)) true, RateLimited 1)).
  { intros e. unfold handleImageUpload. cbn [negb lastApiCallRef isProcessing].
    by replace (start + 900 - start)%Z with 900%Z by lia. }
  assert (H3 : forall e, handleImageUpload true (start + 1100) (mkUpload start e true)
               = (mkUpload (start + 1100) None true, CallIssued)).
  { intros e. unfold handleImageUpload. cbn [negb lastApiCallRef isProcessing].
    by replace (start + 1100 - start)%Z with 1100%Z by lia. }
  unfold uploads. by rewrite H1, H2, H3.
Qed.

(** Image dimensions 0 by 0 are falsy: the bounds are then estimated from
    the detections, and the board need not be empty. *)
Remark zero_dimensions_use_detections :
  detectionsToFEN
    [mkDetection (Fin 10) (Fin 10) (Fin 4) (Fin 4) (js "white-pawn") (Fin (1 # 2));
     mkDetection (Fin 90) (Fin 90) (Fin 4) (Fin 4) (js "b-queen") (Fin (1 # 3))]
    (Some (Fin 0)) (Some (Fin 0))
  = Returned (js "P7/8/8/8/8/8/8/7q w - - 0 1").
Proof. by vm_compute. Qed.

(** ** Ranks as lists of squares *)

Lemma count_parseInt (c : ascii) :
  between "1" "8" c = true ->
  exists n, parseInt c = Some n /\ 1 <= n <= 8.
Proof.
  intros H. apply rank_digits in H as Hin.
  change (js "12345678") with ["1"; "2"; "3"; "4"; "5"; "6"; "7"; "8"]%char in Hin.
  repeat (apply elem_of_cons in Hin as [->|Hin];
          [eexists; split; [by vm_compute | lia]|]).
  by apply elem_of_nil in Hin.
Qed.

Lemma parseRankLoop_other (c : ascii) (rest : jsstring) (col : nat) (r : Row) :
  col < 8 -> between "1" "8" c = false ->
  parseRankLoop (c :: rest) col r
  = parseRankLoop rest (S col)
      (match decodePiece c with Some p => <[col := Some p]> r | None => r end).
Proof.
  intros Hcol Hc. cbn [parseRankLoop].
  replace (col <? 8) with true by (symmetry; apply Nat.ltb_lt; lia).
  rewrite Hc. cbv iota.
  replace (8 <? S col) with false by (symmetry; apply Nat.ltb_ge; lia).
  unfold decodePiece. by destruct (fenToPieceType (toLowerCase c)).
Qed.

Lemma length_cellsOf (c : ascii) :
  length (cellsOf c)
  = if between "1" "8" c then default 0 (parseInt c) else 1.
Proof. unfold cellsOf. destruct (between "1" "8" c); [apply length_replicate | done]. Qed.

Lemma length_expand (rank : jsstring) : length (expand rank) = squareCount rank.
Proof.
  induction rank as [|c rank IH]; [done|].
  unfold expand in *. cbn [map concat squareCount].
  by rewrite length_app, length_cellsOf, IH.
Qed.

Lemma parseRankLoop_expand (chars : jsstring) : forall (pre : Row),
  length pre + squareCount chars <= 8 ->
  parseRankLoop chars (length pre) (pre ++ replicate (8 - length pre) None)
  = pre ++ expand chars ++ replicate (8 - length pre - squareCount chars) None.
Proof.
  induction chars as [|c chars IH]; intros pre Hsum.
  - cbn [parseRankLoop expand map concat squareCount app]. by rewrite Nat.sub_0_r.
  - cbn [squareCount] in Hsum.
    destruct (between "1" "8" c) eqn:Hc.
    + destruct (count_parseInt c Hc) as (n & Hn & Hrange).
      rewrite Hn in Hsum. cbn [default from_option id] in Hsum.
      rewrite (parseRankLoop_digit c chars _ n) by (done || lia).
      specialize (IH (pre ++ replicate n None)).
      rewrite length_app, length_replicate in IH.
      replace (pre ++ replicate (8 - length pre) None)
        with ((pre ++ replicate n None) ++ replicate (8 - (length pre + n)) None).
      2:{ rewrite <- app_assoc, <- replicate_add. do 2 f_equal. lia. }
      rewrite IH by lia.
      unfold expand. cbn [map concat squareCount]. unfold cellsOf at 2.
      rewrite Hc, Hn. cbn [default from_option id].
      replace (8 - length pre - (n + squareCount chars))
        with (8 - (length pre + n) - squareCount chars) by lia.
      by rewrite <- !app_assoc.
    + rewrite parseRankLoop_other by (done || lia).
      specialize (IH (pre ++ [decodePiece c])).
      rewrite length_app in IH. cbn [length] in IH.
      replace (length pre + 1) with (S (length pre)) in IH by lia.
      assert (Hrow : match decodePiece c with
                     | Some p => <[length pre := Some p]> (pre ++ replicate (8 - length pre) None)
                     | None => pre ++ replicate (8 - length pre) None
                     end
                     = (pre ++ [decodePiece c]) ++ replicate (8 - S (length pre)) None).
      { replace (8 - length pre) with (S (8 - S (length pre))) by lia.
        destruct (decodePiece c) as [p|].
        - rewrite insert_app_r_alt by lia. rewrite Nat.sub_diag.
          by rewrite <- app_assoc.
        - by rewrite <- app_assoc. }
      rewrite Hrow, IH by lia.
      unfold expand. cbn [map concat squareCount]. unfold cellsOf at 2. rewrite Hc.
      replace (8 - length pre - (1 + squareCount chars))
        with (8 - S (length pre) - squareCount chars) by lia.
      by rewrite <- !app_assoc.
Qed.

(** A rank that lists at most eight squares decodes to those squares,
    followed by empty squares up to the eighth. *)
Lemma parseRank_expand (rank : jsstring) :
  squareCount rank <= 8 ->
  parseRank rank = expand rank ++ replicate (8 - squareCount rank) None.
Proof.
  intros H. rewrite parseRank_loop.
  pose proof (parseRankLoop_expand rank [] ) as Hl. cbn [length app] in Hl.
  rewrite Nat.sub_0_r in Hl. by apply Hl.
Qed.

Lemma parseRank_fullRank (rank : jsstring) :
  fullRank rank -> parseRank rank = expand rank.
Proof.
  intros H. rewrite parseRank_expand by (unfold fullRank in H; lia).
  unfold fullRank in H. rewrite H. cbn. apply app_nil_r.
Qed.

(** ** The validator on the editor's fields *)

Lemma validateFENFormat_validFields (s : jsstring) :
  validateFENFormat s = negb (isEmpty s) && validFields (wsFields s).
Proof.
  unfold validateFENFormat, validFields, wsFields.
  destruct (isEmpty s); [done|]. cbn [negb andb].
  destruct (splitWs (trim s)) as [|bd [|t [|c [|e [|h [|f [|]]]]]]]; try done.
  destruct (length (split "/" bd) =? 8); cbn [negb andb]; [|done].
  destruct (forallb validRank (split "/" bd)); cbn [negb andb]; [|done].
  destruct (bool_decide (t = js "w")), (bool_decide (t = js "b")); cbn [negb andb orb];
    try done;
    destruct (bool_decide (c = js "-")), (castlingLetters c); cbn [negb andb orb];
    try done;
    destruct (bool_decide (e = js "-")), (enPassantSquare e); cbn [negb andb orb];
    try done;
    by destruct (allDigits h), (allDigits f).
Qed.

Lemma validFields_inv (parts : list jsstring) :
  validFields parts = true ->
  exists bd t c e h f,
    parts = [bd; t; c; e; h; f]
    /\ length (split "/" bd) = 8 /\ forallb validRank (split "/" bd) = true
    /\ (t = js "w" \/ t = js "b")
    /\ (c = js "-" \/ castlingLetters c = true)
    /\ (e = js "-" \/ enPassantSquare e = true)
    /\ allDigits h = true /\ allDigits f = true.
Proof.
  destruct parts as [|bd [|t [|c [|e [|h [|f [|]]]]]]]; try done.
  cbn [validFields]. rewrite !andb_true_iff, !orb_true_iff, !bool_decide_eq_true.
  rewrite Nat.eqb_eq. intros ((((((? & ?) & ?) & ?) & ?) & ?) & ?).
  by exists bd, t, c, e, h, f.
Qed.

Lemma validFields_intro (bd t c e h f : jsstring) :
  length (split "/" bd) = 8 -> forallb validRank (split "/" bd) = true ->
  (t = js "w" \/ t = js "b") ->
  (c = js "-" \/ castlingLetters c = true) ->
  (e = js "-" \/ enPassantSquare e = true) ->
  allDigits h = true -> allDigits f = true ->
  validFields [bd; t; c; e; h; f] = true.
Proof.
  intros. cbn [validFields].
  rewrite !andb_true_iff, !orb_true_iff, !bool_decide_eq_true, Nat.eqb_eq. tauto.
Qed.

Lemma validFENChar_blank (c : ascii) : validFENChar c = true -> isSpace c = false.
Proof. each_char c; by vm_compute. Qed.

Lemma castlingLetter_blank (c : ascii) : includes (js "KQkq") c = true -> isSpace c = false.
Proof. each_char c; by vm_compute. Qed.

Lemma digit_blank (c : ascii) : between "0" "9" c = true -> isSpace c = false.
Proof. each_char c; by vm_compute. Qed.

Lemma file_blank (c : ascii) : between "a" "h" c = true -> isSpace c = false.
Proof. each_char c; by vm_compute. Qed.

Lemma blankFree_join (sep : ascii) (parts : list jsstring) :
  isSpace sep = false -> Forall blankFree parts -> blankFree (join [sep] parts).
Proof.
  intros Hsep. induction 1 as [|p parts Hp Hps IH]; [constructor|].
  destruct parts as [|q parts]; [done|].
  change (join [sep] (p :: q :: parts)) with (p ++ sep :: join [sep] (q :: parts)).
  apply Forall_app. split; [done|]. by constructor.
Qed.

Lemma validRank_blankFree (rank : jsstring) : validRank rank = true -> blankFree rank.
Proof.
  unfold validRank. rewrite !andb_true_iff, forallb_Forall. intros [[_ H] _].
  eapply Forall_impl; [exact H|]. apply validFENChar_blank.
Qed.

Lemma validFields_blankFree (parts : list jsstring) :
  validFields parts = true -> Forall blankFree parts.
Proof.
  intros H. apply validFields_inv in H
    as (bd & t & c & e & h & f & -> & _ & Hr & Ht & Hc & He & Hh & Hf).
  repeat apply Forall_cons_2; try apply Forall_nil_2.
  - rewrite <- (join_split "/" bd). apply blankFree_join; [done|].
    apply forallb_Forall in Hr. eapply Forall_impl; [exact Hr|].
    apply validRank_blankFree.
  - by destruct Ht as [-> | ->]; repeat constructor.
  - destruct Hc as [-> | Hc]; [by repeat constructor|].
    unfold castlingLetters in Hc. apply forallb_Forall in Hc.
    eapply Forall_impl; [exact Hc|]. apply castlingLetter_blank.
  - destruct He as [-> | He]; [by repeat constructor|].
    destruct e as [|file [|rank [|]]]; try done. cbn [enPassantSquare] in He.
    apply andb_true_iff in He as [Hfile Hrank].
    repeat constructor; [by apply file_blank|].
    revert Hrank. each_char rank; by vm_compute.
  - unfold allDigits in Hh. apply andb_true_iff in Hh as [_ Hh].
    apply forallb_Forall in Hh. eapply Forall_impl; [exact Hh|]. apply digit_blank.
  - unfold allDigits in Hf. apply andb_true_iff in Hf as [_ Hf].
    apply forallb_Forall in Hf. eapply Forall_impl; [exact Hf|]. apply digit_blank.
Qed.

Lemma editorFen_sixFieldFen (fen : jsstring) : editorFen fen -> sixFieldFen fen.
Proof.
  intros [Hv Hne]. split; [|done].
  apply validFields_inv in Hv as (? & ? & ? & ? & ? & ? & -> & _). done.
Qed.

(** The validator sees the fields the handlers see, and accepts them. *)
Lemma editorFen_validate (fen : jsstring) :
  editorFen fen -> wsFields fen = fields fen /\ validateFENFormat fen = true.
Proof.
  intros [Hv Hne].
  assert (Hws : wsFields fen = fields fen).
  { rewrite <- (join_split " " fen) at 1. apply wsFields_join.
    - intros E. by rewrite E in Hv.
    - apply validFields_blankFree in Hv.
      rewrite Forall_forall in Hv, Hne |- *. intros p Hp. split; eauto. }
  split; [done|].
  rewrite validateFENFormat_validFields, Hws, Hv.
  destruct fen; [by vm_compute in Hv | done].
Qed.

Lemma editorFen_intro (fen : jsstring) (parts : list jsstring) :
  fields fen = parts -> validFields parts = true ->
  Forall (fun p => p <> []) parts -> editorFen fen.
Proof. intros <- Hv Hne. by split. Qed.

Lemma editorFen_positionFen (fen : jsstring) :
  editorFen fen ->
  exists bd t c e h f,
    positionFen fen bd t c e h f /\ validFields [bd; t; c; e; h; f] = true.
Proof.
  intros [Hv Hne]. pose proof Hv as Hv'.
  apply validFields_inv in Hv as (bd & t & c & e & h & f & Hf & Hlen & _).
  exists bd, t, c, e, h, f. split; [|by rewrite <- Hf].
  split; [done|]. by split.
Qed.

(** ** The board text the editor writes *)

Lemma pieceChar_valid (p : Piece) :
  validFENChar (pieceChar p) = true /\ between "1" "8" (pieceChar p) = false.
Proof. by destruct p as [[] []]. Qed.

Lemma count_valid (k : nat) :
  1 <= k <= 8 ->
  forallb validFENChar (numToString k) = true /\ squareCount (numToString k) = k.
Proof.
  intros [H1 H8].
  do 9 (destruct k as [|k]; [first [lia | by vm_compute] |]). lia.
Qed.

Lemma squareCount_app (s t : jsstring) :
  squareCount (s ++ t) = squareCount s + squareCount t.
Proof. induction s as [|c s IH]; cbn [app squareCount]; [done|]. rewrite IH. lia. Qed.

Lemma encodeRowLoop_valid (r : Row) : forall k : nat,
  k + length r <= 8 ->
  forallb validFENChar (encodeRowLoop r k) = true
  /\ squareCount (encodeRowLoop r k) = k + length r.
Proof.
  induction r as [|[p|] r IH]; intros k Hk; cbn [encodeRowLoop length] in *.
  - destruct k as [|k]; [done|]. change (0 <? S k) with true. cbv iota.
    rewrite Nat.add_0_r. apply count_valid. lia.
  - destruct (IH 0) as [IH1 IH2]; [lia|].
    destruct (pieceChar_valid p) as [Hp1 Hp2].
    assert (Hcount : forallb validFENChar (if 0 <? k then numToString k else []) = true
                     /\ squareCount (if 0 <? k then numToString k else []) = k).
    { destruct k as [|k]; [done|]. change (0 <? S k) with true. cbv iota.
      apply count_valid. lia. }
    destruct Hcount as [Hc1 Hc2].
    rewrite forallb_app, squareCount_app, Hc1, Hc2. cbn [forallb squareCount].
    rewrite Hp1, Hp2, IH1, IH2. split; [done|]. lia.
  - destruct (IH (S k)) as [IH1 IH2]; [lia|]. split; [done|]. lia.
Qed.

Lemma encodeRow_validRank (r : Row) : length r = 8 -> validRank (encodeRow r) = true.
Proof.
  intros Hlen. destruct (encodeRowLoop_valid r 0) as [H1 H2]; [lia|].
  unfold validRank, encodeRow. rewrite H1, H2, Hlen. cbn [Nat.add Nat.eqb andb].
  destruct (encodeRowLoop r 0); [by rewrite Hlen in H2 | done].
Qed.

(** The board field written for an eight-by-eight array has eight ranks
    the validator accepts. *)
Lemma boardToFen_valid (board : Board) :
  wellShaped board ->
  length (split "/" (boardToFen board)) = 8
  /\ forallb validRank (split "/" (boardToFen board)) = true.
Proof.
  intros [Hlen Hrows]. rewrite split_boardToFen by (by destruct board).
  rewrite length_map. split; [done|].
  apply forallb_Forall, Forall_map. eapply Forall_impl; [exact Hrows|].
  intros r Hr. by apply encodeRow_validRank.
Qed.

(** ** Every operation keeps the editor's FEN valid *)

Lemma rebuilt_editorFen (fen newFen turn : jsstring) :
  editorFen fen -> rebuiltFrom fen newFen turn -> editorFen newFen.
Proof.
  intros [Hv Hne] (parts & board & board' & Hread & Hshape & -> & ->).
  apply readFen_Some in Hread as (-> & _).
  pose proof Hv as Hinv.
  apply validFields_inv in Hinv as (bd & t & c & e & h & f & Hf & _ & _ & Ht & Hc & He & Hh & Hd).
  rewrite Hf in Hne.
  assert (Hfields : fields (rebuildFen (boardToFen board') (fields fen))
                    = [boardToFen board'; t; c; e; h; f]).
  { rewrite fields_rebuildFen by (apply boardToFen_no_space || apply fields_no_space).
    rewrite Hf.
    repeat match goal with H : Forall _ (_ :: _) |- _ => inversion H; clear H; subst end.
    repeat f_equal; by apply partOr_lookup. }
  destruct (boardToFen_valid board' Hshape) as [H8 Hranks].
  eapply editorFen_intro; [exact Hfields | by apply validFields_intro |].
  repeat match goal with H : Forall _ (_ :: _) |- _ => inversion H; clear H; subst end.
  repeat constructor; try done. by apply boardToFen_nonempty.
Qed.

Lemma squareCount_reverse (rank : jsstring) : squareCount (reverse rank) = squareCount rank.
Proof.
  induction rank as [|c rank IH]; [done|].
  rewrite reverse_cons, squareCount_app, IH. cbn [squareCount]. lia.
Qed.

Lemma validRank_rotateRank (rank : jsstring) :
  validRank rank = true -> validRank (rotateRank rank) = true.
Proof.
  unfold validRank, rotateRank. destruct rank as [|c rank]; [done|].
  rewrite !andb_true_iff. intros [[_ Hall] Hcount].
  rewrite squareCount_reverse. split; [split|done].
  - destruct (reverse (c :: rank)) eqn:E; [|done].
    apply (f_equal length) in E. by rewrite length_reverse in E.
  - apply forallb_Forall. apply forallb_Forall in Hall. by apply Forall_reverse.
Qed.

Lemma swapCastlingRights_valid (c : jsstring) :
  swapCastlingRights c = js "-" \/ castlingLetters (swapCastlingRights c) = true.
Proof.
  unfold swapCastlingRights. destruct (bool_decide (c = js "-")); [by left|].
  destruct (includes c "K"), (includes c "Q"), (includes c "k"), (includes c "q");
    first [left; reflexivity | right; reflexivity].
Qed.

Lemma rotateEnPassant_valid (e : jsstring) :
  e = js "-" \/ enPassantSquare e = true ->
  rotateEnPassant e = js "-" \/ enPassantSquare (rotateEnPassant e) = true.
Proof.
  intros [->|H]; [by left|].
  apply enPassantSquare_spec in H as (file & rank & -> & Hfile & Hrank).
  change (js "abcdefgh") with ["a"; "b"; "c"; "d"; "e"; "f"; "g"; "h"]%char in Hfile.
  change (js "36") with ["3"; "6"]%char in Hrank.
  right.
  repeat (apply elem_of_cons in Hfile as [->|Hfile]);
    [| | | | | | | | by apply elem_of_nil in Hfile];
    (repeat (apply elem_of_cons in Hrank as [->|Hrank]);
     [| | by apply elem_of_nil in Hrank]); by vm_compute.
Qed.

Lemma rotate_editorFen (fen : jsstring) :
  editorFen fen -> editorFen (rotateFEN180 fen).
Proof.
  intros He. pose proof He as [_ Hne].
  apply editorFen_positionFen in He as (bd & t & c & e & h & f & Hp & Hv).
  pose proof (rotate_position _ _ _ _ _ _ _ Hp) as (Hf' & Hne' & Hlen').
  apply validFields_inv in Hv
    as (? & ? & ? & ? & ? & ? & [= <- <- <- <- <- <-] & Hlen & Hr & Ht & Hc & Hep & Hh & Hd).
  eapply editorFen_intro; [exact Hf' | | by rewrite <- Hf'].
  apply validFields_intro; try done.
  - rewrite rotated_ranks. apply forallb_Forall, Forall_map, Forall_reverse.
    apply forallb_Forall in Hr. eapply Forall_impl; [exact Hr|].
    apply validRank_rotateRank.
  - apply swapCastlingRights_valid.
  - by apply rotateEnPassant_valid.
Qed.

Lemma validFENChar_letterOrCount (c : ascii) :
  validFENChar c = true ->
  letterOrCount c = true /\ validFENChar (swapCase c) = true
  /\ between "1" "8" (swapCase c) = between "1" "8" c
  /\ (between "1" "8" c = true -> swapCase c = c).
Proof. each_char c; by vm_compute. Qed.

Lemma validRank_swapRank (rank : jsstring) :
  validRank rank = true -> validRank (swapRank rank) = true.
Proof.
  unfold validRank. rewrite !andb_true_iff, !forallb_Forall, !Nat.eqb_eq.
  intros [[Hne Hall] Hcount].
  rewrite swapRank_map
    by (eapply Forall_impl; [exact Hall|]; intros c Hc;
        by apply validFENChar_letterOrCount).
  split; [split|].
  - by destruct rank.
  - apply Forall_map. eapply Forall_impl; [exact Hall|]. intros c Hc.
    by apply validFENChar_letterOrCount.
  - rewrite <- Hcount. clear Hne Hcount.
    induction Hall as [|c rank Hc _ IH]; [done|]. cbn [map squareCount].
    destruct (validFENChar_letterOrCount c Hc) as (_ & _ & Hb & Hsame).
    rewrite Hb, IH. destruct (between "1" "8" c); [by rewrite Hsame | done].
Qed.

Lemma swap_editorFen (fen : jsstring) :
  editorFen fen -> editorFen (swapEdit fen).1 /\ (swapEdit fen).1 = swapPieceColors fen.
Proof.
  intros He. pose proof He as [_ Hne].
  apply editorFen_positionFen in He as (bd & t & c & e & h & f & Hp & Hv).
  destruct (swap_position _ _ _ _ _ _ _ Hp) as [(Hf' & Hne' & Hlen') Heq].
  split; [|done]. rewrite Heq.
  apply validFields_inv in Hv
    as (? & ? & ? & ? & ? & ? & [= <- <- <- <- <- <-] & Hlen & Hr & Ht & Hc & Hep & Hh & Hd).
  eapply editorFen_intro; [exact Hf' | | by rewrite <- Hf'].
  apply validFields_intro; try done.
  - rewrite swapped_ranks. apply forallb_Forall, Forall_map.
    apply forallb_Forall in Hr. eapply Forall_impl; [exact Hr|].
    apply validRank_swapRank.
  - apply swapCastlingRights_valid.
Qed.

Lemma perform_editorFen (Chess : jsstring -> option jsstring) (op : Operation)
    (st : AppState) :
  keepsTurn Chess -> editorFen (fen st) -> editorFen (fen (perform Chess op st)).
Proof.
  intros Hk He.
  assert (Hedit : forall op', isEdit op' -> editorFen (fen (perform Chess op' st))).
  { intros op' Hop.
    destruct (perform_edit Chess op' st Hop) as [->|(newFen & turn & st' & Hre & ->)];
      [done|].
    rewrite commitFen_fen;
      [by eapply rebuilt_editorFen | done
      | by eapply rebuiltFrom_sixFieldFen | by eapply rebuiltFrom_turnOf]. }
  destruct op as [piece target|square|source target| |]; try (by apply Hedit).
  - cbn [perform]. destruct (handleFlipBoard_fen Chess st) as [->|[_ ->]]; [done|].
    by apply rotate_editorFen.
  - cbn [perform]. destruct (swap_editorFen _ He) as [He' Heq].
    rewrite handleSwapColors_fen; [done | done | by apply editorFen_sixFieldFen].
Qed.

(** ** Round trip and validity of the written board *)

(** X1.  Writing an eight-by-eight array as board text and reading the text
    back, as every edit handler does on the next event, returns the array:
    the same piece or no piece on each of the 64 squares. *)
Theorem board_text_round_trip (board : Board) :
  wellShaped board ->
  parseBoard (split "/" (boardToFen board)) = board.
Proof.
  intros [Hlen Hrows]. rewrite split_boardToFen by (by destruct board).
  unfold parseBoard. rewrite map_map. clear Hlen.
  induction Hrows as [|r rows Hr _ IH]; cbn [map]; [done|].
  rewrite parseRank_encodeRow by done. by f_equal.
Qed.

Lemma board_text_round_trip_witness :
  let board := setSquare emptyBoard 3 4 (Some (mkPiece queen b)) in
  wellShaped board
  /\ boardToFen board = js "8/8/8/4q3/8/8/8/8"
  /\ parseBoard (split "/" (boardToFen board)) = board.
Proof.
  intros board.
  assert (Hb : wellShaped board) by (split; [reflexivity | by repeat constructor]).
  split; [exact Hb|]. split; [reflexivity|].
  apply (board_text_round_trip board Hb).
Defined.

(** X2.  The board text written for an eight-by-eight array always has
    eight ranks, each made of piece letters and the counts 1 to 8 only and
    each listing exactly eight squares: the validator's checks on a board
    field never fail on a board the editor wrote. *)
Theorem written_board_is_valid (board : Board) :
  wellShaped board ->
  length (split "/" (boardToFen board)) = 8
  /\ Forall rankOk (split "/" (boardToFen board)).
Proof.
  intros Hb. destruct (boardToFen_valid board Hb) as [Hlen Hranks].
  split; [done|].
  apply forallb_Forall in Hranks. eapply Forall_impl; [exact Hranks|].
  intros rank. apply validRank_spec.
Qed.

Lemma written_board_is_valid_witness :
  let board := setSquare emptyBoard 3 4 (Some (mkPiece queen b)) in
  wellShaped board
  /\ length (split "/" (boardToFen board)) = 8
  /\ Forall rankOk (split "/" (boardToFen board)).
Proof.
  intros board.
  assert (Hb : wellShaped board) by (split; [reflexivity | by repeat constructor]).
  split; [exact Hb|].
  apply (written_board_is_valid board Hb).
Defined.

(** ** Validity as an invariant *)

Lemma editorFen_DEFAULT_POSITION : editorFen DEFAULT_POSITION.
Proof. split; [by vm_compute | by decided]. Qed.

(** X3.  Validity is an invariant of editing.  From a FEN whose six fields
    are non-empty and pass the validator's checks, any sequence of Place,
    Remove, Move, Rotate180 and SwapColors leads to a FEN of the same kind,
    which [validateFENFormat] accepts; chess.js is any library that reports
    the turn it was given. *)
Theorem operations_keep_fen_valid (Chess : jsstring -> option jsstring)
    (ops : list Operation) (st : AppState) :
  keepsTurn Chess -> editorFen (fen st) ->
  editorFen (fen (performAll Chess ops st))
  /\ validateFENFormat (fen (performAll Chess ops st)) = true.
Proof.
  intros Hk. revert st. unfold performAll.
  induction ops as [|op ops IH]; intros st He; cbn [fold_left].
  - split; [done|]. by apply editorFen_validate.
  - apply IH. by apply perform_editorFen.
Qed.

Lemma operations_keep_fen_valid_witness :
  let ops := [Remove (js "e2"); SwapColors; Place (mkPiece king w) (js "d5");
              Rotate180; Move (js "a1") (js "h8")] in
  keepsTurn chessEcho /\ editorFen (fen initialState)
  /\ validateFENFormat (fen (performAll chessEcho ops initialState)) = true.
Proof.
  intros ops. split; [apply keepsTurn_chessEcho|].
  split; [apply editorFen_DEFAULT_POSITION|].
  apply (operations_keep_fen_valid chessEcho ops initialState
           keepsTurn_chessEcho editorFen_DEFAULT_POSITION).
Defined.

(** X4.  Flip Board never fails on such a FEN: the rotated FEN passes the
    handler's own validation, so it is displayed, no error is reported and
    the orientation flag is cleared, whatever chess.js makes of it. *)
Theorem flip_board_succeeds (Chess : jsstring -> option jsstring) (st : AppState) :
  editorFen (fen st) ->
  fen (handleFlipBoard Chess st) = rotateFEN180 (fen st)
  /\ processingError (handleFlipBoard Chess st) = processingError st
  /\ isBoardFlipped (handleFlipBoard Chess st) = false
  /\ editorFen (rotateFEN180 (fen st)).
Proof.
  intros He. pose proof (rotate_editorFen _ He) as He'.
  destruct (editorFen_validate _ He') as [_ Hv].
  unfold handleFlipBoard.
  assert (isEmpty (fen st) = false) as ->.
  { destruct He as [Hf _]. by destruct (fen st). }
  rewrite Hv. cbn [negb]. by destruct (Chess _).
Qed.

Lemma flip_board_succeeds_witness :
  editorFen (fen initialState)
  /\ fen (handleFlipBoard chessEcho initialState)
     = js "RNBKQBNR/PPPPPPPP/8/8/8/8/pppppppp/rnbkqbnr w kqKQ - 0 1".
Proof.
  split; [apply editorFen_DEFAULT_POSITION|].
  destruct (flip_board_succeeds chessEcho initialState editorFen_DEFAULT_POSITION)
    as [-> _].
  reflexivity.
Defined.

(** ** Placing and removing a piece *)

Lemma isSome_readFen (fen : jsstring) :
  is_Some (readFen fen) ->
  exists parts board,
    readFen fen = Some (parts, board) /\ wellShaped board
    /\ Forall (fun p => " "%char ∉ p) parts.
Proof.
  intros [[parts board] Hread]. exists parts, board. split; [done|].
  split; [by eapply readFen_wellShaped|].
  apply readFen_Some in Hread as (-> & _). apply fields_no_space.
Qed.

(** X5.  Place: with a palette piece in hand, a drop on a square of a FEN
    the handler can read returns true, releases the piece in hand, puts
    that piece on the square, replacing whatever stood there, and leaves
    every other square as it was.  On a FEN it cannot read the drop returns
    false and changes nothing but the piece in hand. *)
Theorem place_puts_the_piece (Chess : jsstring -> option jsstring) (st : AppState)
    (piece : Piece) (target : jsstring) (tr tc : nat) :
  keepsTurn Chess ->
  draggedPiece st = Some piece ->
  squareCoords (Some target) = Some (tr, tc) ->
  let after := enhancedOnDrop Chess None (Some target) st in
  (is_Some (readFen (fen st)) ->
   snd after = true
   /\ draggedPiece (fst after) = None
   /\ pieceAt (fen (fst after)) tr tc = Some piece
   /\ (forall row col, (row, col) <> (tr, tc) ->
       pieceAt (fen (fst after)) row col = pieceAt (fen st) row col))
  /\ (readFen (fen st) = None -> after = (setDraggedPiece None st, false)).
Proof.
  intros Hk Hd Ht after.
  destruct (squareCoords_Some _ _ _ Ht) as (Hvt & Htr & Htc).
  assert (Hstart : after =
    match placeEdit piece (Some target) (fen st) with
    | Some (newFen, preservedTurn) =>
        (commitFen Chess newFen preservedTurn (setDraggedPiece None st), true)
    | None => (setDraggedPiece None st, false)
    end).
  { unfold after, enhancedOnDrop. rewrite Hd. change (truthy None) with false.
    cbn [negb]. by rewrite Hvt. }
  split.
  - intros Hsome. apply isSome_readFen in Hsome as (parts & board & Hread & Hshape & Hsp).
    set (board' := setSquare board tr tc (Some piece)).
    assert (Hshape' : wellShaped board') by (by apply setSquare_wellShaped).
    assert (Hedit : placeEdit piece (Some target) (fen st)
                    = Some (rebuildFen (boardToFen board') parts, partOr parts 1)).
    { unfold placeEdit. rewrite Hread, Ht. by destruct piece. }
    rewrite Hedit in Hstart.
    assert (Hfen : fen (fst after) = rebuildFen (boardToFen board') parts).
    { assert (Hrebuilt : rebuiltFrom (fen st) (rebuildFen (boardToFen board') parts)
                                     (partOr parts 1)) by (by exists parts, board, board').
      rewrite Hstart. cbn [fst].
      apply commitFen_fen;
        [done | by eapply rebuiltFrom_sixFieldFen | by eapply rebuiltFrom_turnOf]. }
    rewrite Hstart at 1 2. cbn [fst snd]. split; [done|]. split.
    { unfold commitFen. cbn [fen setFen setDraggedPiece].
      destruct (Chess _); [|done]. destruct (negb _); [|done]. by destruct (Chess _). }
    rewrite Hfen. split.
    + rewrite pieceAt_rebuildFen by done. by apply getSquare_setSquare_eq.
    + intros row col Hne. rewrite pieceAt_rebuildFen by done. unfold board'.
      rewrite getSquare_setSquare_ne by done. unfold pieceAt. by rewrite Hread.
  - intros Hnone. rewrite Hstart. unfold placeEdit. by rewrite Hnone.
Qed.

Lemma place_puts_the_piece_witness :
  let st := handlePieceDragStart (mkPiece queen b) initialState in
  let after := enhancedOnDrop chessEcho None (Some (js "e2")) st in
  keepsTurn chessEcho
  /\ draggedPiece st = Some (mkPiece queen b)
  /\ squareCoords (Some (js "e2")) = Some (6, 4)
  /\ is_Some (readFen (fen st))
  /\ pieceAt (fen st) 6 4 = Some (mkPiece pawn w)
  /\ pieceAt (fen (fst after)) 6 4 = Some (mkPiece queen b).
Proof.
  intros st after.
  assert (Hd : draggedPiece st = Some (mkPiece queen b)) by reflexivity.
  assert (Ht : squareCoords (Some (js "e2")) = Some (6, 4)) by reflexivity.
  assert (Hr : is_Some (readFen (fen st))) by (by vm_compute; eexists).
  split; [apply keepsTurn_chessEcho|]. split; [exact Hd|]. split; [exact Ht|].
  split; [exact Hr|]. split; [reflexivity|].
  destruct (place_puts_the_piece chessEcho st (mkPiece queen b) (js "e2") 6 4
              keepsTurn_chessEcho Hd Ht) as [Hplace _].
  destruct (Hplace Hr) as (_ & _ & H & _). exact H.
Defined.

(** X6.  Remove: a right click on an empty square changes nothing at all;
    on an occupied square it empties that square and leaves every other
    square as it was. *)
Theorem remove_clears_the_square (Chess : jsstring -> option jsstring) (st : AppState)
    (square : jsstring) (r c : nat) :
  keepsTurn Chess ->
  squareCoords (Some square) = Some (r, c) ->
  (pieceAt (fen st) r c = None -> handleSquareRightClick Chess (Some square) st = st)
  /\ (forall piece, pieceAt (fen st) r c = Some piece ->
      let after := handleSquareRightClick Chess (Some square) st in
      pieceAt (fen after) r c = None
      /\ (forall row col, (row, col) <> (r, c) ->
          pieceAt (fen after) row col = pieceAt (fen st) row col)).
Proof.
  intros Hk Hs.
  destruct (squareCoords_Some _ _ _ Hs) as (Hv & Hr & Hc).
  split.
  - intros Hnone. unfold handleSquareRightClick, removeEdit. rewrite Hv. cbn [negb].
    unfold pieceAt in Hnone.
    destruct (readFen (fen st)) as [[parts board]|]; [|done].
    by rewrite Hs, Hnone.
  - intros piece Hp after.
    apply pieceAt_Some in Hp as (parts & board & Hread & Hget).
    pose proof (readFen_wellShaped _ _ _ Hread) as Hshape.
    pose proof Hread as Hparts. apply readFen_Some in Hparts as (Hparts & _).
    assert (Hsp : Forall (fun p => " "%char ∉ p) parts)
      by (rewrite Hparts; apply fields_no_space).
    set (board' := setSquare board r c None).
    assert (Hshape' : wellShaped board') by (by apply setSquare_wellShaped).
    assert (Hafter : after = commitFen Chess (rebuildFen (boardToFen board') parts)
                               (partOr parts 1) st).
    { unfold after, handleSquareRightClick, removeEdit. rewrite Hv. cbn [negb].
      by rewrite Hread, Hs, Hget. }
    assert (Hfen : fen after = rebuildFen (boardToFen board') parts).
    { assert (Hrebuilt : rebuiltFrom (fen st) (rebuildFen (boardToFen board') parts)
                                     (partOr parts 1)) by (by exists parts, board, board').
      rewrite Hafter.
      apply commitFen_fen;
        [done | by eapply rebuiltFrom_sixFieldFen | by eapply rebuiltFrom_turnOf]. }
    rewrite Hfen. split.
    + rewrite pieceAt_rebuildFen by done. by apply getSquare_setSquare_eq.
    + intros row col Hne. rewrite pieceAt_rebuildFen by done. unfold board'.
      rewrite getSquare_setSquare_ne by done. unfold pieceAt. by rewrite Hread.
Qed.

Lemma remove_clears_the_square_witness :
  let after := handleSquareRightClick chessEcho (Some (js "e2")) initialState in
  keepsTurn chessEcho
  /\ squareCoords (Some (js "e2")) = Some (6, 4)
  /\ pieceAt (fen initialState) 6 4 = Some (mkPiece pawn w)
  /\ pieceAt (fen after) 6 4 = None
  /\ handleSquareRightClick chessEcho (Some (js "e2")) after = after.
Proof.
  intros after.
  assert (Hs : squareCoords (Some (js "e2")) = Some (6, 4)) by reflexivity.
  assert (Hp : pieceAt (fen initialState) 6 4 = Some (mkPiece pawn w)) by reflexivity.
  destruct (remove_clears_the_square chessEcho initialState (js "e2") 6 4
              keepsTurn_chessEcho Hs) as [_ Hrem].
  destruct (Hrem _ Hp) as [Hnone _].
  destruct (remove_clears_the_square chessEcho after (js "e2") 6 4
              keepsTurn_chessEcho Hs) as [Hnoop _].
  split; [apply keepsTurn_chessEcho|]. split; [exact Hs|]. split; [exact Hp|].
  split; [exact Hnone|]. exact (Hnoop Hnone).
Defined.

(** ** What a rotation does to the squares *)

Lemma reverse_cellsOf (c : ascii) : reverse (cellsOf c) = cellsOf c.
Proof. unfold cellsOf. destruct (between "1" "8" c); [apply reverse_replicate | done]. Qed.

Lemma expand_app (s t : jsstring) : expand (s ++ t) = expand s ++ expand t.
Proof. unfold expand. by rewrite map_app, concat_app. Qed.

Lemma expand_reverse (rank : jsstring) : expand (reverse rank) = reverse (expand rank).
Proof.
  induction rank as [|c rank IH]; [done|].
  rewrite reverse_cons, expand_app, IH.
  change (expand (c :: rank)) with (cellsOf c ++ expand rank).
  rewrite reverse_app. f_equal.
  unfold expand. cbn [map concat]. by rewrite app_nil_r, reverse_cellsOf.
Qed.

Lemma parseRank_rotateRank (rank : jsstring) :
  fullRank rank -> parseRank (rotateRank rank) = reverse (parseRank rank).
Proof.
  intros Hfull. rewrite (parseRank_fullRank rank Hfull).
  assert (Hrot : rotateRank rank = reverse rank) by (by destruct rank).
  rewrite Hrot, parseRank_fullRank; [apply expand_reverse|].
  unfold fullRank. by rewrite squareCount_reverse.
Qed.

Lemma getSquare_rotated (board : Board) (row col : nat) :
  wellShaped board -> row < 8 -> col < 8 ->
  getSquare (map reverse (reverse board)) row col = getSquare board (7 - row) (7 - col).
Proof.
  intros [Hlen Hrows] Hrow Hcol. unfold getSquare.
  rewrite list_lookup_fmap, reverse_lookup by lia. rewrite Hlen.
  replace (8 - S row) with (7 - row) by lia.
  destruct (board !! (7 - row)) as [r|] eqn:E; cbn [fmap option_fmap option_map]; [|done].
  rewrite Forall_forall in Hrows.
  assert (Hr : length r = 8) by (apply Hrows; by eapply list_elem_of_lookup_2).
  rewrite reverse_lookup by lia. rewrite Hr.
  by replace (8 - S col) with (7 - col) by lia.
Qed.

(** X7.  Rotate180 is a half turn of the board: on a position whose ranks
    each list eight squares, the square in row [r] and column [c] of the
    rotated FEN holds what the square in row [7 - r] and column [7 - c]
    held, piece type and colour unchanged. *)
Theorem rotation_is_a_half_turn (fen bd t c e h f : jsstring) (row col : nat) :
  positionFen fen bd t c e h f -> Forall fullRank (split "/" bd) ->
  row < 8 -> col < 8 ->
  pieceAt (rotateFEN180 fen) row col = pieceAt fen (7 - row) (7 - col).
Proof.
  intros Hp Hfull Hrow Hcol.
  pose proof (rotate_position _ _ _ _ _ _ _ Hp) as Hp'.
  rewrite (pieceAt_position _ _ _ _ _ _ _ _ _ Hp'),
          (pieceAt_position _ _ _ _ _ _ _ _ _ Hp).
  rewrite rotated_ranks. unfold parseBoard. rewrite map_map.
  rewrite (map_ext_Forall _ (fun rank => reverse (parseRank rank))).
  2:{ apply Forall_reverse. eapply Forall_impl; [exact Hfull|].
      apply parseRank_rotateRank. }
  rewrite <- (map_map parseRank reverse), map_reverse.
  apply getSquare_rotated; [|done|done].
  apply parseBoard_wellShaped. apply Hp.
Qed.

Lemma rotation_is_a_half_turn_witness :
  let fen := js "rnbqkbnr/pppppppp/8/8/4P3/8/PPPP1PPP/RNBQKBNR b KQkq e3 0 1" in
  positionFen fen (js "rnbqkbnr/pppppppp/8/8/4P3/8/PPPP1PPP/RNBQKBNR")
              (js "b") (js "KQkq") (js "e3") (js "0") (js "1")
  /\ Forall fullRank (split "/" (js "rnbqkbnr/pppppppp/8/8/4P3/8/PPPP1PPP/RNBQKBNR"))
  /\ pieceAt fen 4 4 = Some (mkPiece pawn w)
  /\ pieceAt (rotateFEN180 fen) 3 3 = pieceAt fen (7 - 3) (7 - 3).
Proof.
  intros fen.
  assert (Hp : positionFen fen (js "rnbqkbnr/pppppppp/8/8/4P3/8/PPPP1PPP/RNBQKBNR")
                 (js "b") (js "KQkq") (js "e3") (js "0") (js "1")).
  { split; [reflexivity|]. split; [|reflexivity]. repeat constructor; discriminate. }
  assert (Hfull : Forall fullRank
            (split "/" (js "rnbqkbnr/pppppppp/8/8/4P3/8/PPPP1PPP/RNBQKBNR")))
    by (unfold fullRank; decided).
  split; [exact Hp|]. split; [exact Hfull|]. split; [reflexivity|].
  apply (rotation_is_a_half_turn _ _ _ _ _ _ _ 3 3 Hp Hfull); lia.
Defined.

(** ** Rotation and colour swap in either order *)

Lemma reverse_swapChar (c : ascii) : reverse (swapChar c) = swapChar c.
Proof.
  unfold swapChar. by destruct (between "1" "8" c), (between "A" "Z" c), (between "a" "z" c).
Qed.

Lemma swapRank_concat (rank : jsstring) : swapRank rank = concat (map swapChar rank).
Proof. by destruct rank. Qed.

Lemma rotateRank_reverse (rank : jsstring) : rotateRank rank = reverse rank.
Proof. by destruct rank. Qed.

Lemma swapRank_rotateRank (rank : jsstring) :
  swapRank (rotateRank rank) = rotateRank (swapRank rank).
Proof.
  rewrite !rotateRank_reverse, !swapRank_concat.
  induction rank as [|c rank IH]; [done|].
  rewrite reverse_cons, map_app, concat_app, IH. cbn [map concat].
  by rewrite app_nil_r, reverse_app, reverse_swapChar.
Qed.

(** X8.  Rotate180 and SwapColors commute: on every position the two
    transforms give the same FEN text in either order. *)
Theorem rotate_and_swap_commute (fen bd t c e h f : jsstring) :
  positionFen fen bd t c e h f ->
  rotateFEN180 (swapPieceColors fen) = swapPieceColors (rotateFEN180 fen).
Proof.
  intros Hp.
  destruct (swap_position _ _ _ _ _ _ _ Hp) as [Hs _].
  pose proof (rotate_position _ _ _ _ _ _ _ Hp) as Hr.
  rewrite (rotateFEN180_position _ _ _ _ _ _ _ Hs),
          (swapPieceColors_position _ _ _ _ _ _ _ Hr).
  rewrite swapped_ranks, rotated_ranks. do 2 f_equal.
  rewrite <- map_reverse, !map_map.
  apply map_ext. intros rank. symmetry. apply swapRank_rotateRank.
Qed.

Lemma rotate_and_swap_commute_witness :
  rotateFEN180 (swapPieceColors DEFAULT_POSITION)
  = swapPieceColors (rotateFEN180 DEFAULT_POSITION)
  /\ rotateFEN180 (swapPieceColors DEFAULT_POSITION)
     = js "rnbkqbnr/pppppppp/8/8/8/8/PPPPPPPP/RNBKQBNR w kqKQ - 0 1".
Proof.
  assert (Hp : positionFen DEFAULT_POSITION (js "rnbqkbnr/pppppppp/8/8/8/8/PPPPPPPP/RNBQKBNR")
                 (js "w") (js "KQkq") (js "-") (js "0") (js "1")).
  { split; [reflexivity|]. split; [|reflexivity]. repeat constructor; discriminate. }
  split; [|reflexivity].
  apply (rotate_and_swap_commute _ _ _ _ _ _ _ Hp).
Defined.

(** ** The castling check boxes *)

Lemma includesString_char (s : jsstring) (r : ascii) :
  includesString s [r] = includes s r.
Proof.
  unfold includes. induction s as [|c s IH]; [done|].
  cbn [includesString startsWith existsb]. rewrite IH.
  destruct s; by rewrite andb_true_r.
Qed.

Lemma removeFirst_char (s : jsstring) (r : ascii) :
  removeFirst s [r]
  = match s with
    | [] => []
    | c :: s' => if Ascii.eqb r c then s' else c :: removeFirst s' [r]
    end.
Proof.
  destruct s as [|c s]; [done|]. cbn [removeFirst startsWith length drop].
  destruct (Ascii.eqb r c); [|done]. by destruct s.
Qed.

Lemma includes_cons (c : ascii) (s : jsstring) (r : ascii) :
  includes (c :: s) r = Ascii.eqb r c || includes s r.
Proof. done. Qed.

Lemma includes_app (s t : jsstring) (r : ascii) :
  includes (s ++ t) r = includes s r || includes t r.
Proof. unfold includes. apply existsb_app. Qed.

Lemma occurrences_cons (r c : ascii) (s : jsstring) :
  occurrences r (c :: s) = (if Ascii.eqb r c then 1 else 0) + occurrences r s.
Proof.
  unfold occurrences. rewrite filter_cons.
  destruct (Ascii.eqb_spec r c) as [->|Hne].
  - by rewrite decide_True.
  - by rewrite decide_False by congruence.
Qed.

Lemma includes_occurrences (s : jsstring) (r : ascii) :
  includes s r = (0 <? occurrences r s).
Proof.
  induction s as [|c s IH]; [done|].
  rewrite includes_cons, occurrences_cons, IH.
  by destruct (Ascii.eqb r c).
Qed.

Lemma removeFirst_includes (s : jsstring) (r r' : ascii) :
  includes (removeFirst s [r]) r'
  = if Ascii.eqb r' r then 1 <? occurrences r s else includes s r'.
Proof.
  destruct (Ascii.eqb_spec r' r) as [Heq|Hne'].
  - subst r'. induction s as [|c s IH]; rewrite removeFirst_char; [done|].
    rewrite occurrences_cons. destruct (Ascii.eqb_spec r c) as [Hc|Hc].
    + rewrite includes_occurrences. by destruct (occurrences r s).
    + rewrite includes_cons, IH. by destruct (Ascii.eqb_spec r c).
  - induction s as [|c s IH]; rewrite removeFirst_char; [done|].
    destruct (Ascii.eqb_spec r c) as [Hc|Hc].
    + subst c. rewrite includes_cons. by destruct (Ascii.eqb_spec r' r).
    + by rewrite !includes_cons, IH.
Qed.

Lemma removeFirst_no_space (s : jsstring) (r : ascii) :
  " "%char ∉ s -> " "%char ∉ removeFirst s [r].
Proof.
  induction s as [|c s IH]; rewrite removeFirst_char; [done|].
  rewrite !not_elem_of_cons. intros [Hc Hs].
  destruct (Ascii.eqb r c); [done|]. rewrite not_elem_of_cons. by split; [|apply IH].
Qed.

Lemma removeFirst_app_end (s : jsstring) (r : ascii) :
  includes s r = false -> removeFirst (s ++ [r]) [r] = s.
Proof.
  induction s as [|c s IH]; rewrite removeFirst_char; cbn [app].
  - by rewrite Ascii.eqb_refl.
  - rewrite includes_cons. intros H. apply orb_false_iff in H as [-> Hs].
    by rewrite IH.
Qed.

Lemma right_letter (r : ascii) :
  r ∈ js "KQkq" -> r <> " "%char /\ r <> "-"%char.
Proof.
  change (js "KQkq") with ["K"; "Q"; "k"; "q"]%char. rewrite !elem_of_cons.
  intros [->|[->|[->|[->|H]]]]; try done. by apply elem_of_nil in H.
Qed.

Lemma toggleCastling_includes (castling : jsstring) (r r' : ascii) (enabled : bool) :
  r <> "-"%char -> r' <> "-"%char ->
  includes (toggleCastling castling [r] enabled) r'
  = if Ascii.eqb r' r then enabled || (1 <? occurrences r castling)
    else includes castling r'.
Proof.
  intros Hr Hr'. unfold toggleCastling. rewrite includesString_char.
  assert (Hdash : includes (js "-") r' = false).
  { cbn. destruct (Ascii.eqb_spec r' "-"); [done|]. done. }
  destruct enabled; cbn [orb].
  - destruct (includes castling r) eqn:Hin; cbn [negb].
    + assert (isEmpty castling = false) as -> by (by destruct castling).
      destruct (Ascii.eqb_spec r' r) as [->|]; done.
    + assert (isEmpty (castling ++ [r]) = false) as -> by (by destruct castling).
      rewrite includes_app, includes_cons.
      destruct (Ascii.eqb_spec r' r) as [->|Hne]; [by rewrite orb_true_r|].
      cbn. by rewrite orb_false_r.
  - pose proof (removeFirst_includes castling r r') as Hrem.
    destruct (removeFirst castling [r]) as [|c s] eqn:E; cbn [isEmpty]; [|done].
    rewrite Hdash. by rewrite <- Hrem.
Qed.

Lemma toggleCastling_no_space (castling : jsstring) (r : ascii) (enabled : bool) :
  r <> " "%char -> " "%char ∉ castling -> " "%char ∉ toggleCastling castling [r] enabled.
Proof.
  intros Hr Hc. unfold toggleCastling.
  assert (Hdash : " "%char ∉ js "-") by (by decided).
  destruct enabled.
  - destruct (negb _).
    + assert (isEmpty (castling ++ [r]) = false) as -> by (by destruct castling).
      rewrite elem_of_app, elem_of_cons, elem_of_nil. intros [?|[?|?]]; by eauto.
    + by destruct castling.
  - pose proof (removeFirst_no_space castling r Hc).
    by destruct (removeFirst castling [r]).
Qed.

Lemma fields_castlingEdit (fen0 : jsstring) (r : ascii) (enabled : bool) (castling : jsstring) :
  sixFieldFen fen0 -> r <> " "%char -> fields fen0 !! 2 = Some castling ->
  fields (castlingEdit (fields fen0) [r] enabled)
  = <[2 := toggleCastling castling [r] enabled]> (fields fen0)
  /\ castling <> [] /\ " "%char ∉ castling.
Proof.
  intros [Hlen Hne] Hr Hc.
  assert (Hc1 : castling <> []).
  { rewrite Forall_forall in Hne. apply Hne. by eapply list_elem_of_lookup_2. }
  assert (Hc2 : " "%char ∉ castling).
  { pose proof (fields_no_space fen0) as Hsp. rewrite Forall_forall in Hsp.
    apply Hsp. by eapply list_elem_of_lookup_2. }
  split; [|done].
  unfold castlingEdit. rewrite Hc.
  assert (orDefault (Some castling) (js "-") = castling) as -> by (by destruct castling).
  unfold fields at 1. change (js " ") with [" "%char]. apply split_join.
  - intros E. apply (f_equal length) in E. rewrite length_insert, Hlen in E. done.
  - apply Forall_insert; [apply fields_no_space|]. by apply toggleCastling_no_space.
Qed.

Lemma handleCastlingRightsChange_rejected (Chess : jsstring -> option jsstring)
    (st : AppState) (right : jsstring) (enabled : bool) :
  Chess (fen st) = None -> sixFieldFen (fen st) ->
  fen (handleCastlingRightsChange Chess right enabled st)
  = castlingEdit (fields (fen st)) right enabled.
Proof.
  intros Hrej [Hlen Hne]. unfold handleCastlingRightsChange. rewrite Hrej.
  assert (isEmpty (fen st) = false) as ->.
  { destruct (fen st); [by vm_compute in Hlen | done]. }
  unfold fields in *. by rewrite Hlen.
Qed.

(** X9.  A castling check box, on a position chess.js rejects (two kings of
    one colour, say), edits the FEN text directly: only the castling field
    changes; a ticked box leaves the right listed, a cleared box removes
    the first occurrence of its letter, so the right is gone when the
    letter stood there once; the other three rights are as before. *)
Theorem castling_box_sets_the_right (Chess : jsstring -> option jsstring)
    (st : AppState) (r : ascii) (enabled : bool) (castling : jsstring) :
  Chess (fen st) = None -> sixFieldFen (fen st) ->
  fields (fen st) !! 2 = Some castling -> r ∈ js "KQkq" ->
  let after := handleCastlingRightsChange Chess [r] enabled st in
  exists castling',
    fields (fen after) = <[2 := castling']> (fields (fen st))
    /\ includes castling' r = enabled || (1 <? occurrences r castling)
    /\ forall r', r' ∈ js "KQkq" -> r' <> r -> includes castling' r' = includes castling r'.
Proof.
  intros Hrej Hsix Hc Hr after. destruct (right_letter r Hr) as [Hsp Hdash].
  exists (toggleCastling castling [r] enabled).
  unfold after. rewrite handleCastlingRightsChange_rejected by done.
  destruct (fields_castlingEdit (fen st) r enabled castling Hsix Hsp Hc) as (-> & _ & _).
  split; [done|]. split.
  - rewrite toggleCastling_includes by done. by rewrite Ascii.eqb_refl.
  - intros r' Hr' Hne. destruct (right_letter r' Hr') as [_ Hdash'].
    rewrite toggleCastling_includes by done.
    by destruct (Ascii.eqb_spec r' r).
Qed.


Lemma castling_box_sets_the_right_witness :
  let st := mkApp (js "KK6/8/8/8/8/8/8/k7 w Kq - 0 1") DEFAULT_POSITION None false None in
  let after := handleCastlingRightsChange chessRejects ["Q"%char] true st in
  chessRejects (fen st) = None /\ sixFieldFen (fen st)
  /\ fields (fen st) !! 2 = Some (js "Kq") /\ "Q"%char ∈ js "KQkq"
  /\ fen after = js "KK6/8/8/8/8/8/8/k7 w KqQ - 0 1"
  /\ exists castling',
       fields (fen after) = <[2 := castling']> (fields (fen st))
       /\ includes castling' "Q" = true || (1 <? occurrences "Q" (js "Kq")).
Proof.
  intros st after.
  assert (Hsix : sixFieldFen (fen st)) by (split; [reflexivity | by decided]).
  assert (Hc : fields (fen st) !! 2 = Some (js "Kq")) by reflexivity.
  assert (Hr : "Q"%char ∈ js "KQkq") by (by decided).
  split; [reflexivity|]. split; [exact Hsix|]. split; [exact Hc|]. split; [exact Hr|].
  split; [reflexivity|].
  destruct (castling_box_sets_the_right chessRejects st "Q" true (js "Kq")
              eq_refl Hsix Hc Hr) as (castling' & H1 & H2 & _).
  by exists castling'.
Defined.

(** X10.  The same handler can leave the editor with a FEN its own
    validator rejects: on a valid FEN without castling rights that chess.js
    rejects, ticking a box appends the letter to the dash, the castling
    field reads [-K] (or [-Q], [-k], [-q]), the box shows as ticked, and
    [validateFENFormat] refuses the FEN. *)
Theorem castling_box_after_dash (Chess : jsstring -> option jsstring)
    (st : AppState) (r : ascii) :
  Chess (fen st) = None -> editorFen (fen st) ->
  fields (fen st) !! 2 = Some (js "-") -> r ∈ js "KQkq" ->
  let after := handleCastlingRightsChange Chess [r] true st in
  fields (fen after) !! 2 = Some ["-"%char; r]
  /\ includes ["-"%char; r] r = true
  /\ validateFENFormat (fen after) = false.
Proof.
  intros Hrej He Hc Hr after. destruct (right_letter r Hr) as [Hsp Hdash].
  pose proof (editorFen_sixFieldFen _ He) as Hsix.
  assert (Hfen : fen after = castlingEdit (fields (fen st)) [r] true)
    by (by apply handleCastlingRightsChange_rejected).
  destruct (fields_castlingEdit (fen st) r true (js "-") Hsix Hsp Hc) as (Hf & _ & _).
  assert (Htoggle : toggleCastling (js "-") [r] true = ["-"%char; r]).
  { unfold toggleCastling. rewrite includesString_char. cbn.
    destruct (Ascii.eqb_spec r "-"); [done|]. done. }
  rewrite Htoggle in Hf. rewrite <- Hfen in Hf.
  destruct He as [Hv Hne]. pose proof (validFields_blankFree _ Hv) as Hblank.
  pose proof Hv as Hinv.
  apply validFields_inv in Hinv as (bd & t & c & e & h & f & Hparts & _).
  rewrite Hparts in Hc. injection Hc as ->.
  rewrite Hparts in Hf, Hne, Hblank. cbn [insert list_insert] in Hf.
  split; [by rewrite Hf|]. split.
  { rewrite includes_cons, includes_cons, Ascii.eqb_refl. apply orb_true_r. }
  assert (Hws : wsFields (fen after) = fields (fen after)).
  { rewrite <- (join_split " " (fen after)) at 1. fold (fields (fen after)).
    rewrite Hf. apply wsFields_join; [done|].
    repeat match goal with H : Forall _ (_ :: _) |- _ => inversion H; clear H; subst end.
    repeat constructor; try done.
    by apply castlingLetter_blank, includes_elem_of. }
  rewrite validateFENFormat_validFields, Hws, Hf. cbn [validFields].
  assert (Hbad : bool_decide (["-"%char; r] = js "-") || castlingLetters ["-"%char; r] = false)
    by (by rewrite bool_decide_eq_false_2).
  rewrite Hbad, andb_false_r. cbn [andb]. apply andb_false_r.
Qed.

Lemma castling_box_after_dash_witness :
  let st := mkApp (js "KK6/8/8/8/8/8/8/k7 w - - 0 1") DEFAULT_POSITION None false None in
  let after := handleCastlingRightsChange chessRejects ["K"%char] true st in
  chessRejects (fen st) = None /\ editorFen (fen st)
  /\ validateFENFormat (fen st) = true
  /\ fen after = js "KK6/8/8/8/8/8/8/k7 w -K - 0 1"
  /\ validateFENFormat (fen after) = false.
Proof.
  intros st after.
  assert (He : editorFen (fen st)) by (split; [by vm_compute | by decided]).
  assert (Hc : fields (fen st) !! 2 = Some (js "-")) by reflexivity.
  assert (Hr : "K"%char ∈ js "KQkq") by (by decided).
  split; [reflexivity|]. split; [exact He|]. split; [reflexivity|]. split; [reflexivity|].
  apply (castling_box_after_dash chessRejects st "K" eq_refl He Hc Hr).
Defined.

(** X11.  Ticking a box and clearing it again restores the FEN text: on a
    position chess.js rejects, with a right that was not listed, the second
    click undoes the first character for character. *)
Theorem castling_box_tick_untick (Chess : jsstring -> option jsstring)
    (st : AppState) (r : ascii) (castling : jsstring) :
  sixFieldFen (fen st) -> fields (fen st) !! 2 = Some castling ->
  r <> " "%char -> includes castling r = false ->
  let ticked := handleCastlingRightsChange Chess [r] true st in
  Chess (fen st) = None -> Chess (fen ticked) = None ->
  fields (fen ticked) !! 2 = Some (castling ++ [r])
  /\ fen (handleCastlingRightsChange Chess [r] false ticked) = fen st.
Proof.
  intros Hsix Hc Hsp Hin ticked Hrej Hrej'.
  assert (Hfen : fen ticked = castlingEdit (fields (fen st)) [r] true)
    by (by apply handleCastlingRightsChange_rejected).
  destruct (fields_castlingEdit (fen st) r true castling Hsix Hsp Hc) as (Hf & Hne & Hns).
  assert (Htoggle : toggleCastling castling [r] true = castling ++ [r]).
  { unfold toggleCastling. rewrite includesString_char, Hin. cbn [negb].
    by destruct castling. }
  rewrite Htoggle, <- Hfen in Hf.
  assert (Hsix' : sixFieldFen (fen ticked)).
  { destruct Hsix as [Hlen Hall]. split; rewrite Hf.
    - by rewrite length_insert.
    - apply Forall_insert; [done|]. by destruct castling. }
  assert (Hc' : fields (fen ticked) !! 2 = Some (castling ++ [r])).
  { rewrite Hf. apply list_lookup_insert_eq. destruct Hsix as [-> _]. lia. }
  split; [done|].
  rewrite handleCastlingRightsChange_rejected by done.
  unfold castlingEdit. rewrite Hc'.
  assert (orDefault (Some (castling ++ [r])) (js "-") = castling ++ [r]) as ->
    by (by destruct castling).
  assert (toggleCastling (castling ++ [r]) [r] false = castling) as ->.
  { unfold toggleCastling. rewrite removeFirst_app_end by done. by destruct castling. }
  rewrite Hf, list_insert_insert_eq, list_insert_id by done.
  change (js " ") with [" "%char]. apply join_split.
Qed.

Lemma castling_box_tick_untick_witness :
  let st := mkApp (js "KK6/8/8/8/8/8/8/k7 w Kq - 0 1") DEFAULT_POSITION None false None in
  let ticked := handleCastlingRightsChange chessRejects ["Q"%char] true st in
  sixFieldFen (fen st) /\ fields (fen st) !! 2 = Some (js "Kq")
  /\ includes (js "Kq") "Q" = false
  /\ fields (fen ticked) !! 2 = Some (js "KqQ")
  /\ fen (handleCastlingRightsChange chessRejects ["Q"%char] false ticked) = fen st.
Proof.
  intros st ticked.
  assert (Hsix : sixFieldFen (fen st)) by (split; [reflexivity | by decided]).
  assert (Hc : fields (fen st) !! 2 = Some (js "Kq")) by reflexivity.
  split; [exact Hsix|]. split; [exact Hc|]. split; [reflexivity|].
  apply (castling_box_tick_untick chessRejects st "Q" (js "Kq") Hsix Hc); done.
Defined.

(** ** King counts *)

Lemma countKings_occurrences (boardPart : jsstring) :
  countKings boardPart = (occurrences "K" boardPart, occurrences "k" boardPart).
Proof.
  unfold countKings.
  assert (H : forall s a1 a2,
    fold_left
      (fun (counts : nat * nat) (char : ascii) =>
         let '(whiteKings, blackKings) := counts in
         let whiteKings := if Ascii.eqb char "K" then S whiteKings else whiteKings in
         let blackKings := if Ascii.eqb char "k" then S blackKings else blackKings in
         (whiteKings, blackKings)) s (a1, a2)
    = (a1 + occurrences "K" s, a2 + occurrences "k" s)).
  { induction s as [|c s IH]; intros a1 a2; cbn [fold_left].
    - unfold occurrences. cbn. by rewrite !Nat.add_0_r.
    - rewrite IH, !occurrences_cons.
      rewrite (Ascii.eqb_sym c "K"), (Ascii.eqb_sym c "k").
      destruct (Ascii.eqb "K" c), (Ascii.eqb "k" c); f_equal; lia. }
  apply (H boardPart 0 0).
Qed.

Lemma occurrences_app (c : ascii) (s t : jsstring) :
  occurrences c (s ++ t) = occurrences c s + occurrences c t.
Proof. unfold occurrences. by rewrite filter_app, length_app. Qed.

Lemma occurrences_join (c : ascii) (ranks : list jsstring) :
  c <> "/"%char ->
  occurrences c (join (js "/") ranks)
  = length (filter (fun a => a = c) (concat ranks)).
Proof.
  intros Hc. induction ranks as [|r ranks IH]; [done|].
  destruct ranks as [|r' ranks].
  - cbn [join concat]. by rewrite app_nil_r.
  - change (join (js "/") (r :: r' :: ranks))
      with (r ++ "/"%char :: join (js "/") (r' :: ranks)).
    rewrite occurrences_app, occurrences_cons, IH.
    destruct (Ascii.eqb_spec c "/"); [done|].
    change (concat (r :: r' :: ranks)) with (r ++ concat (r' :: ranks)).
    by rewrite filter_app, length_app.
Qed.

Lemma cellsOf_king (c : ascii) :
  length (filter (fun square => square = Some (mkPiece king w)) (cellsOf c))
  = (if Ascii.eqb "K" c then 1 else 0)
  /\ length (filter (fun square => square = Some (mkPiece king b)) (cellsOf c))
     = (if Ascii.eqb "k" c then 1 else 0).
Proof. each_char c; by vm_compute. Qed.

Lemma filter_replicate_None (p : Piece) (n : nat) :
  filter (fun square : option Piece => square = Some p) (replicate n None) = [].
Proof. induction n as [|n IH]; [done|]. cbn [replicate]. by rewrite filter_cons_False. Qed.

Lemma parseRank_kings (rank : jsstring) :
  squareCount rank <= 8 ->
  length (filter (fun square => square = Some (mkPiece king w)) (parseRank rank))
  = occurrences "K" rank
  /\ length (filter (fun square => square = Some (mkPiece king b)) (parseRank rank))
     = occurrences "k" rank.
Proof.
  intros H. rewrite parseRank_expand by done.
  rewrite !filter_app, !filter_replicate_None, !app_nil_r. clear H.
  induction rank as [|c rank [IH1 IH2]]; [done|].
  change (expand (c :: rank)) with (cellsOf c ++ expand rank).
  rewrite !filter_app, !length_app, !occurrences_cons, IH1, IH2.
  destruct (cellsOf_king c) as [-> ->]. done.
Qed.

Lemma parseBoard_kings (ranks : list jsstring) :
  Forall (fun rank => squareCount rank <= 8) ranks ->
  countPiece (mkPiece king w) (parseBoard ranks)
  = length (filter (fun a => a = "K"%char) (concat ranks))
  /\ countPiece (mkPiece king b) (parseBoard ranks)
     = length (filter (fun a => a = "k"%char) (concat ranks)).
Proof.
  unfold countPiece, parseBoard.
  induction 1 as [|rank ranks Hr _ [IH1 IH2]]; [done|].
  cbn [map concat]. rewrite !filter_app, !length_app, IH1, IH2.
  destruct (parseRank_kings rank Hr) as [-> ->]. done.
Qed.

(** X12.  The king check counts letters of the board text, and on a
    position whose ranks list at most eight squares that is the number of
    kings on the board the handlers decode: there is no warning exactly
    when the board holds one white king and one black king. *)
Theorem king_warnings_match_the_board (fen bd t c e h f : jsstring) :
  positionFen fen bd t c e h f ->
  Forall (fun rank => squareCount rank <= 8) (split "/" bd) ->
  let board := parseBoard (split "/" bd) in
  (forall row col, pieceAt fen row col = getSquare board row col)
  /\ countKings bd
     = (countPiece (mkPiece king w) board, countPiece (mkPiece king b) board)
  /\ (checkKingCounts fen = []
      <-> countPiece (mkPiece king w) board = 1
          /\ countPiece (mkPiece king b) board = 1).
Proof.
  intros Hp Hranks board.
  split; [intros row col; by apply (pieceAt_position _ _ _ _ _ _ _ _ _ Hp)|].
  assert (Hcount : countKings bd
     = (countPiece (mkPiece king w) board, countPiece (mkPiece king b) board)).
  { rewrite countKings_occurrences. unfold board.
    destruct (parseBoard_kings _ Hranks) as [-> ->].
    rewrite <- (join_split "/" bd) at 1 2. change ["/"%char] with (js "/").
    by rewrite !occurrences_join. }
  split; [done|].
  unfold checkKingCounts. destruct Hp as (Hf & _ & _). unfold fields in Hf.
  rewrite Hf. cbn [lookup list_lookup default from_option id]. rewrite Hcount.
  generalize (countPiece (mkPiece king w) board) as wk.
  generalize (countPiece (mkPiece king b) board) as bk.
  intros [|[|bk]] [|[|wk]]; cbn; split; try done; intros [? ?]; done.
Qed.

Lemma king_warnings_match_the_board_witness :
  let bd := js "KK6/8/8/8/8/8/8/k7" in
  let fen := js "KK6/8/8/8/8/8/8/k7 w - - 0 1" in
  positionFen fen bd (js "w") (js "-") (js "-") (js "0") (js "1")
  /\ Forall (fun rank => squareCount rank <= 8) (split "/" bd)
  /\ checkKingCounts fen = [js "White has 2 kings (should be 1)"]
  /\ countKings bd = (countPiece (mkPiece king w) (parseBoard (split "/" bd)),
                      countPiece (mkPiece king b) (parseBoard (split "/" bd))).
Proof.
  intros bd fen.
  assert (Hp : positionFen fen bd (js "w") (js "-") (js "-") (js "0") (js "1")).
  { split; [reflexivity|]. split; [|reflexivity]. repeat constructor; discriminate. }
  assert (Hr : Forall (fun rank => squareCount rank <= 8) (split "/" bd)) by (by decided).
  split; [exact Hp|]. split; [exact Hr|]. split; [reflexivity|].
  apply (king_warnings_match_the_board _ _ _ _ _ _ _ Hp Hr).
Defined.

(** ** The analysis links *)

Lemma map_join (g : ascii -> ascii) (sep : ascii) (parts : list jsstring) :
  map g (join [sep] parts) = join [g sep] (map (map g) parts).
Proof.
  induction parts as [|p parts IH]; [done|]. destruct parts as [|q parts]; [done|].
  change (join [sep] (p :: q :: parts)) with (p ++ sep :: join [sep] (q :: parts)).
  rewrite map_app. cbn [map]. by rewrite IH.
Qed.

Lemma filter_join (P : ascii -> Prop) `{forall c, Decision (P c)}
    (sep : ascii) (parts : list jsstring) :
  P sep -> filter P (join [sep] parts) = join [sep] (map (filter P) parts).
Proof.
  intros Hsep. induction parts as [|p parts IH]; [done|].
  destruct parts as [|q parts]; [done|].
  change (join [sep] (p :: q :: parts)) with (p ++ sep :: join [sep] (q :: parts)).
  rewrite filter_app, filter_cons_True by done. by rewrite IH.
Qed.

Lemma filter_all (P : ascii -> Prop) `{forall c, Decision (P c)} (s : jsstring) :
  Forall P s -> filter P s = s.
Proof.
  induction 1 as [|c s Hc _ IH]; [done|]. by rewrite filter_cons_True, IH.
Qed.

Lemma Forall_join (P : ascii -> Prop) (sep : ascii) (parts : list jsstring) :
  P sep -> Forall (fun p => Forall P p) parts -> Forall P (join [sep] parts).
Proof.
  intros Hsep Hall. induction Hall as [|p ps Hp _ IH]; [constructor|].
  destruct ps as [|q ps]; [done|].
  change (join [sep] (p :: q :: ps)) with (p ++ sep :: join [sep] (q :: ps)).
  apply Forall_app. split; [done|]. by constructor.
Qed.

Lemma underscored_field (p : jsstring) : " "%char ∉ p -> underscored p = p.
Proof.
  unfold underscored. induction p as [|c p IH]; [done|].
  rewrite not_elem_of_cons. intros [Hc Hp]. cbn [map]. rewrite IH by done.
  by destruct (Ascii.eqb_spec c " ").
Qed.

Lemma underscored_join (parts : list jsstring) :
  Forall (fun p => " "%char ∉ p) parts ->
  underscored (join (js " ") parts) = join (js "_") parts.
Proof.
  intros H. unfold underscored. change (js " ") with [" "%char].
  rewrite map_join. change (js "_") with ["_"%char]. f_equal.
  induction H as [|p parts Hp _ IH]; [done|]. cbn [map].
  rewrite IH. f_equal. by apply underscored_field.
Qed.

Lemma validFENChar_lichess (c : ascii) : validFENChar c = true -> lichessChar c = true.
Proof. each_char c; by vm_compute. Qed.

Lemma castlingLetter_lichess (c : ascii) :
  includes (js "KQkq") c = true -> lichessChar c = true.
Proof. each_char c; by vm_compute. Qed.

Lemma digit_lichess (c : ascii) : between "0" "9" c = true -> lichessChar c = true.
Proof. each_char c; by vm_compute. Qed.

Lemma file_lichess (c : ascii) :
  between "a" "h" c = true -> lichessChar c = bool_decide (c = "b"%char).
Proof. each_char c; by vm_compute. Qed.

Lemma rank36_lichess (c : ascii) : includes (js "36") c = true -> lichessChar c = true.
Proof. each_char c; by vm_compute. Qed.

(** Every field of a valid FEN but the en-passant square is written with
    characters of the Lichess class. *)
Lemma validFields_lichess (bd t c e h f : jsstring) :
  validFields [bd; t; c; e; h; f] = true ->
  Forall (fun p => Forall (fun a => lichessChar a = true) p) [bd; t; c; h; f].
Proof.
  intros H. apply validFields_inv in H
    as (? & ? & ? & ? & ? & ? & [= <- <- <- <- <- <-] & _ & Hr & Ht & Hc & _ & Hh & Hf).
  repeat apply Forall_cons_2; try apply Forall_nil_2.
  - rewrite <- (join_split "/" bd). apply Forall_join; [done|].
    apply forallb_Forall in Hr. eapply Forall_impl; [exact Hr|]. intros rank Hrank.
    unfold validRank in Hrank. rewrite !andb_true_iff, forallb_Forall in Hrank.
    destruct Hrank as [[_ Hall] _]. eapply Forall_impl; [exact Hall|].
    apply validFENChar_lichess.
  - by destruct Ht as [-> | ->]; repeat constructor.
  - destruct Hc as [-> | Hc]; [by repeat constructor|].
    unfold castlingLetters in Hc. apply forallb_Forall in Hc.
    eapply Forall_impl; [exact Hc|]. apply castlingLetter_lichess.
  - unfold allDigits in Hh. apply andb_true_iff in Hh as [_ Hh].
    apply forallb_Forall in Hh. eapply Forall_impl; [exact Hh|]. apply digit_lichess.
  - unfold allDigits in Hf. apply andb_true_iff in Hf as [_ Hf].
    apply forallb_Forall in Hf. eapply Forall_impl; [exact Hf|]. apply digit_lichess.
Qed.

(** X13.  The Lichess path of a valid FEN is the FEN with underscores for
    spaces, except for an en-passant square: the character filter keeps
    the letter b only among the files, so a square on any other file
    reaches Lichess as its bare rank digit ([e3] becomes [3]). *)
Theorem lichess_path_of_a_valid_fen (fen bd t c e h f : jsstring) :
  editorFen fen -> fields fen = [bd; t; c; e; h; f] ->
  lichessFEN fen
  = join (js "_") [bd; t; c; filter (fun a => lichessChar a = true) e; h; f]
  /\ (e = js "-" -> lichessFEN fen = underscored fen)
  /\ (forall file rank, e = [file; rank] ->
      filter (fun a => lichessChar a = true) e
      = if bool_decide (file = "b"%char) then e else [rank]).
Proof.
  intros [Hv Hne] Hf. rewrite Hf in Hv.
  pose proof (validFields_lichess _ _ _ _ _ _ Hv) as Hl.
  assert (Hsp : Forall (fun p => " "%char ∉ p) [bd; t; c; e; h; f])
    by (rewrite <- Hf; apply fields_no_space).
  assert (Hu : underscored fen = join (js "_") [bd; t; c; e; h; f]).
  { rewrite <- (join_split " " fen). fold (fields fen). rewrite Hf.
    by apply underscored_join. }
  assert (Hpath : lichessFEN fen
    = join (js "_") [bd; t; c; filter (fun a => lichessChar a = true) e; h; f]).
  { unfold lichessFEN. rewrite Hu. change (js "_") with ["_"%char].
    rewrite filter_join by done. cbn [map].
    repeat match goal with H : Forall _ (_ :: _) |- _ => inversion H; clear H; subst end.
    by rewrite (filter_all _ bd), (filter_all _ t), (filter_all _ c),
               (filter_all _ h), (filter_all _ f) by done. }
  split; [done|]. split.
  - intros ->. by rewrite Hpath, Hu.
  - intros file rank ->.
    apply validFields_inv in Hv
      as (? & ? & ? & ? & ? & ? & [= <- <- <- <- <- <-] & _ & _ & _ & _ & He & _).
    destruct He as [He|He]; [done|]. cbn [enPassantSquare] in He.
    apply andb_true_iff in He as [Hfile Hrank].
    rewrite filter_cons, (filter_all _ [rank])
      by (repeat constructor; by apply rank36_lichess).
    rewrite (file_lichess file Hfile).
    destruct (bool_decide_reflect (file = "b"%char)) as [->|Hb].
    + by rewrite decide_True.
    + by rewrite decide_False.
Qed.

Lemma lichess_path_of_a_valid_fen_witness :
  let fen := js "rnbqkbnr/pppppppp/8/8/4P3/8/PPPP1PPP/RNBQKBNR b KQkq e3 0 1" in
  editorFen fen
  /\ fields fen = [js "rnbqkbnr/pppppppp/8/8/4P3/8/PPPP1PPP/RNBQKBNR"; js "b"; js "KQkq";
                   js "e3"; js "0"; js "1"]
  /\ lichessFEN fen = js "rnbqkbnr/pppppppp/8/8/4P3/8/PPPP1PPP/RNBQKBNR_b_KQkq_3_0_1"
  /\ lichessFEN fen
     = join (js "_") [js "rnbqkbnr/pppppppp/8/8/4P3/8/PPPP1PPP/RNBQKBNR"; js "b"; js "KQkq";
                      filter (fun a => lichessChar a = true) (js "e3"); js "0"; js "1"].
Proof.
  intros fen.
  assert (He : editorFen fen) by (split; [by vm_compute | by decided]).
  assert (Hf : fields fen = [js "rnbqkbnr/pppppppp/8/8/4P3/8/PPPP1PPP/RNBQKBNR"; js "b";
                             js "KQkq"; js "e3"; js "0"; js "1"]) by reflexivity.
  split; [exact He|]. split; [exact Hf|]. split; [reflexivity|].
  apply (lichess_path_of_a_valid_fen _ _ _ _ _ _ _ He Hf).
Defined.

Lemma length_lichessFEN (fen : jsstring) : length (lichessFEN fen) <= length fen.
Proof.
  unfold lichessFEN, underscored.
  etransitivity; [apply length_filter|]. by rewrite length_map.
Qed.

(** X14.  The two Lichess buttons, on a valid FEN of at most 200 characters
    with one king of each colour: the link is opened without a question to
    the user, the state is left alone, and the address is the fixed prefix
    followed by the path above. *)
Theorem lichess_buttons_open_the_path (confirm : jsstring -> bool) (st : AppState) :
  editorFen (fen st) -> checkKingCounts (fen st) = [] -> length (fen st) <= 200 ->
  handleAnalyzeLichess confirm st
  = (st, Opened (js "https://lichess.org/analysis/" ++ lichessFEN (fen st)))
  /\ handleEditorLichess confirm st
     = (st, Opened (js "https://lichess.org/editor/" ++ lichessFEN (fen st))).
Proof.
  intros He Hk Hlen. destruct (editorFen_validate _ He) as [_ Hv].
  pose proof (length_lichessFEN (fen st)) as Hl.
  unfold handleAnalyzeLichess, handleEditorLichess.
  replace (200 <? length (lichessFEN (fen st))) with false
    by (symmetry; apply Nat.ltb_ge; lia).
  rewrite Hv, Hk. split; reflexivity.
Qed.

Lemma lichess_buttons_open_the_path_witness :
  editorFen (fen initialState) /\ checkKingCounts (fen initialState) = []
  /\ length (fen initialState) <= 200
  /\ handleAnalyzeLichess (fun _ => false) initialState
     = (initialState,
        Opened (js "https://lichess.org/analysis/rnbqkbnr/pppppppp/8/8/8/8/PPPPPPPP/RNBQKBNR_w_KQkq_-_0_1")).
Proof.
  assert (Hk : checkKingCounts (fen initialState) = []) by reflexivity.
  assert (Hl : length (fen initialState) <= 200) by (vm_compute; lia).
  split; [apply editorFen_DEFAULT_POSITION|]. split; [exact Hk|]. split; [exact Hl|].
  destruct (lichess_buttons_open_the_path (fun _ => false) initialState
              editorFen_DEFAULT_POSITION Hk Hl) as [-> _].
  reflexivity.
Defined.

(** ** The query of the other two links *)

Lemma editorChar_encode (c : ascii) :
  editorChar c = true ->
  encodeChar c = (if Ascii.eqb c " " then js "%20"
                  else if Ascii.eqb c "/" then js "%2F" else [c]).
Proof. each_char c; by vm_compute. Qed.

Lemma editorChar_intro (c : ascii) :
  validFENChar c = true \/ c ∈ js "/ wb-KQkqabcdefgh" \/ between "0" "9" c = true ->
  editorChar c = true.
Proof.
  unfold editorChar. rewrite <- includes_elem_of. intros [-> | [-> | ->]]; [done| |];
    by rewrite ?orb_true_r.
Qed.

Lemma editorFen_chars (fen : jsstring) :
  editorFen fen -> Forall (fun c => editorChar c = true) fen.
Proof.
  intros [Hv Hne]. rewrite <- (join_split " " fen). fold (fields fen).
  apply validFields_inv in Hv
    as (bd & t & c & e & h & f & -> & _ & Hr & Ht & Hc & He & Hh & Hf).
  change (js " ") with [" "%char]. apply Forall_join; [done|].
  repeat apply Forall_cons_2; try apply Forall_nil_2.
  - rewrite <- (join_split "/" bd). apply Forall_join; [done|].
    apply forallb_Forall in Hr. eapply Forall_impl; [exact Hr|]. intros rank Hrank.
    unfold validRank in Hrank. rewrite !andb_true_iff, forallb_Forall in Hrank.
    destruct Hrank as [[_ Hall] _]. eapply Forall_impl; [exact Hall|].
    intros a Ha. apply editorChar_intro. by left.
  - by destruct Ht as [-> | ->]; repeat constructor.
  - destruct Hc as [-> | Hc]; [by repeat constructor|].
    unfold castlingLetters in Hc. apply forallb_Forall in Hc.
    eapply Forall_impl; [exact Hc|]. intros a Ha. revert Ha. each_char a; by vm_compute.
  - destruct He as [-> | He]; [by repeat constructor|].
    destruct e as [|file [|rank [|]]]; try done. cbn [enPassantSquare] in He.
    apply andb_true_iff in He as [Hfile Hrank].
    repeat constructor.
    + revert Hfile. each_char file; by vm_compute.
    + revert Hrank. each_char rank; by vm_compute.
  - unfold allDigits in Hh. apply andb_true_iff in Hh as [_ Hh].
    apply forallb_Forall in Hh. eapply Forall_impl; [exact Hh|].
    intros a Ha. apply editorChar_intro. by right; right.
  - unfold allDigits in Hf. apply andb_true_iff in Hf as [_ Hf].
    apply forallb_Forall in Hf. eapply Forall_impl; [exact Hf|].
    intros a Ha. apply editorChar_intro. by right; right.
Qed.

(** X15.  The query of the Chess.com and FEN Tool links: on a valid FEN
    [encodeURIComponent] escapes the spaces as [%20] and the slashes as
    [%2F] and nothing else; the Chess.com button, with one king of each
    colour, and the FEN Tool button, whatever the kings, open the fixed
    address followed by that query and leave the state alone. *)
Theorem query_links_escape_space_and_slash (confirm : jsstring -> bool) (st : AppState) :
  editorFen (fen st) ->
  encodeURIComponent (fen st) = escaped (fen st)
  /\ handleEditFENTool st
     = (st, Opened (js "https://mutsuntsai.github.io/fen-tool/?fen=" ++ escaped (fen st)))
  /\ (checkKingCounts (fen st) = [] ->
      handleAnalyzeChessCom confirm st
      = (st, Opened (js "https://www.chess.com/analysis?fen=" ++ escaped (fen st)))).
Proof.
  intros He. destruct (editorFen_validate _ He) as [_ Hv].
  assert (Henc : encodeURIComponent (fen st) = escaped (fen st)).
  { unfold encodeURIComponent, escaped. f_equal.
    apply map_ext_Forall. eapply Forall_impl; [by apply editorFen_chars|].
    apply editorChar_encode. }
  split; [done|]. split.
  - unfold handleEditFENTool. by rewrite Hv, Henc.
  - intros Hk. unfold handleAnalyzeChessCom. by rewrite Hv, Hk, Henc.
Qed.

Lemma query_links_escape_space_and_slash_witness :
  editorFen (fen initialState)
  /\ encodeURIComponent (fen initialState)
     = js "rnbqkbnr%2Fpppppppp%2F8%2F8%2F8%2F8%2FPPPPPPPP%2FRNBQKBNR%20w%20KQkq%20-%200%201"
  /\ encodeURIComponent (fen initialState) = escaped (fen initialState).
Proof.
  split; [apply editorFen_DEFAULT_POSITION|]. split; [reflexivity|].
  apply (query_links_escape_space_and_slash (fun _ => true) initialState
           editorFen_DEFAULT_POSITION).
Defined.

(** ** The cooldown over a run of uploads *)

Lemma uploads_spacing (events : list Z) (bound : Z) : forall st : UploadState,
  Forall (fun now => (now < bound)%Z) events ->
  snd (uploads events st) = 0
  \/ (lastApiCallRef st + Z.of_nat (snd (uploads events st)) * 1000 < bound)%Z.
Proof.
  induction events as [|now rest IH]; intros st Hall; [by left|].
  inversion Hall as [|? ? Hnow Hrest]; subst.
  cbn [uploads]. unfold handleImageUpload. cbn [negb].
  unfold API_CALL_COOLDOWN.
  destruct (now - lastApiCallRef st <? 1000)%Z eqn:Hcool.
  - specialize (IH (mkUpload (lastApiCallRef st)
                      (Some (waitMessage (ceilDiv1000 (1000 - (now - lastApiCallRef st)))))
                      (isProcessing st)) Hrest).
    destruct (uploads rest _) as [st'' calls]. cbn [snd lastApiCallRef] in *. exact IH.
  - apply Z.ltb_ge in Hcool.
    specialize (IH (mkUpload now None true) Hrest).
    destruct (uploads rest _) as [st'' calls]. cbn [snd lastApiCallRef] in *.
    right. destruct IH as [-> | IH]; lia.
Qed.

(** X16.  The cooldown bounds the rate of requests: however many uploads
    are attempted, and in whatever order their clock readings come, fewer
    than [k] of the attempts made before [k] seconds have passed since the
    last request go on to the network.  In particular none does within the
    first second. *)
Theorem cooldown_bounds_the_rate (events : list Z) (st : UploadState) (k : nat) :
  0 < k ->
  Forall (fun now => (now < lastApiCallRef st + Z.of_nat k * 1000)%Z) events ->
  snd (uploads events st) < k.
Proof.
  intros Hk Hall.
  destruct (uploads_spacing events _ st Hall) as [-> | H]; [done|]. lia.
Qed.

Lemma cooldown_bounds_the_rate_witness :
  let st := mkUpload 5000 None false in
  let events := [5100; 6000; 6001; 6999; 7000; 7999]%Z in
  0 < 3
  /\ Forall (fun now => (now < lastApiCallRef st + Z.of_nat 3 * 1000)%Z) events
  /\ snd (uploads events st) = 2
  /\ snd (uploads events st) < 3.
Proof.
  intros st events.
  assert (Hk : 0 < 3) by lia.
  assert (Hall : Forall (fun now => (now < lastApiCallRef st + Z.of_nat 3 * 1000)%Z) events)
    by (repeat constructor).
  split; [exact Hk|]. split; [exact Hall|]. split; [reflexivity|].
  apply (cooldown_bounds_the_rate events st 3 Hk Hall).
Defined.

(** ** Clamped coordinates are indices *)






(** ** The grid stays a grid of piece letters *)







(** ** The text written for such a grid *)





(** ** The mapper returns, and what it returns *)










(** ** The upload pipeline *)







(** ** Input the edit handlers refuse *)

Lemma validSquare_boardSquares (square : jsstring) :
  validSquare (Some square) = true <-> square ∈ boardSquares.
Proof.
  unfold boardSquares. rewrite list_elem_of_bind. split.
  - destruct square as [|file [|rank [|]]]; try done. cbn [validSquare].
    rewrite andb_true_iff. intros [Hf Hr].
    exists file. split; [|by apply file_letters].
    apply list_elem_of_bind. exists rank. split; [|by apply rank_digits].
    by apply list_elem_of_singleton.
  - intros (file & Hsq & Hf). apply list_elem_of_bind in Hsq as (rank & Hsq & Hr).
    apply list_elem_of_singleton in Hsq as ->. cbn [validSquare].
    apply file_spec in Hf as ->.
    revert Hr. change (js "12345678") with ["1"; "2"; "3"; "4"; "5"; "6"; "7"; "8"]%char.
    rewrite !elem_of_cons.
    intros [->|[->|[->|[->|[->|[->|[->|[->|H]]]]]]]]; try done.
    by apply elem_of_nil in H.
Qed.

(** X19.  A square name that is not one of the 64 is ignored by every
    edit: a move from it or onto it returns false and changes nothing, a
    right click on it changes nothing, and a palette drop on it returns
    false and only releases the piece in hand.  The 64 names are mapped
    one-to-one onto the rows and columns 0 to 7 of the board array. *)
Theorem off_board_squares_are_ignored (Chess : jsstring -> option jsstring)
    (st : AppState) (square : jsstring) (other : option jsstring) :
  square ∉ boardSquares ->
  onDrop Chess (Some square) other st = (st, false)
  /\ onDrop Chess other (Some square) st = (st, false)
  /\ handleSquareRightClick Chess (Some square) st = st
  /\ (forall piece, draggedPiece st = Some piece ->
      enhancedOnDrop Chess None (Some square) st = (setDraggedPiece None st, false))
  /\ NoDup (map (fun sq => squareCoords (Some sq)) boardSquares)
  /\ Forall (fun sq => exists row col, squareCoords (Some sq) = Some (row, col)
                                       /\ row < 8 /\ col < 8) boardSquares.
Proof.
  intros Hsq.
  assert (Hv : validSquare (Some square) = false).
  { destruct (validSquare (Some square)) eqn:E; [|done].
    by apply validSquare_boardSquares in E. }
  split; [|split; [|split; [|split; [|split]]]].
  - unfold onDrop, moveEdit. by rewrite Hv.
  - unfold onDrop, moveEdit. rewrite Hv. by rewrite orb_true_r.
  - unfold handleSquareRightClick, removeEdit. by rewrite Hv.
  - intros piece Hp. unfold enhancedOnDrop. rewrite Hp.
    change (truthy None) with false. cbn [negb]. by rewrite Hv.
  - by decided.
  - apply Forall_forall. intros sq Hin.
    apply validSquare_boardSquares in Hin.
    destruct (squareCoords (Some sq)) as [[row col]|] eqn:E.
    + exists row, col. split; [done|]. by apply squareCoords_Some in E as (_ & ? & ?).
    + exfalso. destruct sq as [|file [|rank [|]]]; try done.
      cbn [validSquare] in Hin. apply andb_true_iff in Hin as [Hf Hr].
      apply file_letters in Hf. apply rank_digits in Hr.
      assert (Hall : Forall (fun sq => is_Some (squareCoords (Some sq))) boardSquares)
        by (by decided).
      rewrite Forall_forall in Hall.
      destruct (Hall [file; rank]) as [? Hsome]; [|congruence].
      apply validSquare_boardSquares. cbn [validSquare].
      apply andb_true_iff. split; [by apply file_spec|].
      revert Hr. change (js "12345678") with ["1"; "2"; "3"; "4"; "5"; "6"; "7"; "8"]%char.
      rewrite !elem_of_cons.
      intros [->|[->|[->|[->|[->|[->|[->|[->|H]]]]]]]]; try done.
      by apply elem_of_nil in H.
Qed.

Lemma off_board_squares_are_ignored_witness :
  (js "i9" ∉ boardSquares)
  /\ onDrop chessEcho (Some (js "i9")) (Some (js "e4")) initialState = (initialState, false)
  /\ handleSquareRightClick chessEcho (Some (js "i9")) initialState = initialState.
Proof.
  assert (Hsq : js "i9" ∉ boardSquares) by (by decided).
  destruct (off_board_squares_are_ignored chessEcho initialState (js "i9")
              (Some (js "e4")) Hsq) as (H1 & _ & H3 & _).
  by repeat split.
Defined.

(** ** A FEN with fewer than six fields *)

Lemma short_fen_unreadable (fen : jsstring) :
  length (fields fen) < 6 -> readFen fen = None.
Proof.
  intros H. unfold readFen, fields in *. destruct (isEmpty fen); [done|].
  by replace (length (split " " fen) <? 6) with true by (symmetry; by apply Nat.ltb_lt).
Qed.

(** X20.  On a FEN with fewer than six space-separated fields the edits
    and Flip Board leave the FEN as it is, but Swap Colors does not: it
    rebuilds the FEN from the six array entries, so every missing field is
    written as the word [undefined]; when chess.js rejects that text it
    stays on display, with six fields, the last of them [undefined]. *)
Theorem short_fen_edge_cases (Chess : jsstring -> option jsstring) (st : AppState) :
  length (fields (fen st)) < 6 ->
  (forall op, isEdit op -> fen (perform Chess op st) = fen st)
  /\ fen (handleFlipBoard Chess st) = fen st
  /\ (Chess (swapEdit (fen st)).1 = None ->
      length (fields (fen (handleSwapColors Chess st))) = 6
      /\ fields (fen (handleSwapColors Chess st)) !! 5 = Some (js "undefined")).
Proof.
  intros Hshort. pose proof (short_fen_unreadable _ Hshort) as Hread.
  split; [|split].
  - intros op Hop.
    destruct (perform_edit Chess op st Hop)
      as [->|(newFen & turn & st' & (parts & board & board' & Hr & _) & _)]; [done|].
    congruence.
  - destruct (handleFlipBoard_fen Chess st) as [->|[_ ->]]; [done|].
    destruct (rotateFEN180_cases (fen st)) as [->|(Hlen & _)]; [done | lia].
  - intros Hrej.
    assert (Hfen : fen (handleSwapColors Chess st) = (swapEdit (fen st)).1).
    { unfold handleSwapColors. destruct (swapEdit (fen st)) as [f t] eqn:E.
      cbn [fst] in Hrej. by rewrite Hrej. }
    rewrite Hfen. destruct (swapEdit_fields (fen st)) as [-> _].
    assert (Hsame : swapPieceColors (fen st) = fen st).
    { destruct (swapPieceColors_cases (fen st)) as [->|(Hlen & _)]; [done | lia]. }
    rewrite Hsame. split; [done|].
    cbn [lookup list_lookup]. rewrite (lookup_ge_None_2 (fields (fen st)) 5) by lia.
    done.
Qed.

Lemma short_fen_edge_cases_witness :
  let st := mkApp (js "8/8/8/8/8/8/8/8 b") DEFAULT_POSITION None false None in
  length (fields (fen st)) < 6
  /\ fen (handleSwapColors chessRejects st)
     = js "8/8/8/8/8/8/8/8 b undefined undefined undefined undefined"
  /\ fen (handleFlipBoard chessRejects st) = fen st.
Proof.
  intros st.
  assert (Hshort : length (fields (fen st)) < 6) by (vm_compute; lia).
  destruct (short_fen_edge_cases chessRejects st Hshort) as (_ & Hflip & _).
  split; [exact Hshort|]. split; [reflexivity | exact Hflip].
Defined.

(** ** Edits that undo each other *)

Lemma commit_rebuilt (Chess : jsstring -> option jsstring) (st st' : AppState)
    (parts : list jsstring) (board board' : Board) :
  keepsTurn Chess -> readFen (fen st) = Some (parts, board) -> wellShaped board' ->
  let newFen := rebuildFen (boardToFen board') parts in
  fen (commitFen Chess newFen (partOr parts 1) st') = newFen
  /\ readFen newFen = Some (fields newFen, board')
  /\ forall row col, pieceAt newFen row col = getSquare board' row col.
Proof.
  intros Hk Hread Hshape newFen.
  assert (Hsp : Forall (fun p => " "%char ∉ p) parts).
  { apply readFen_Some in Hread as (-> & _). apply fields_no_space. }
  assert (Hrebuilt : rebuiltFrom (fen st) newFen (partOr parts 1))
    by (by exists parts, board, board').
  split; [|split].
  - apply commitFen_fen;
      [done | by eapply rebuiltFrom_sixFieldFen | by eapply rebuiltFrom_turnOf].
  - by apply readFen_rebuildFen.
  - intros row col. by apply pieceAt_rebuildFen.
Qed.

Lemma onDrop_fen (Chess : jsstring -> option jsstring) (st : AppState)
    (source target : jsstring) (sr sc tr tc : nat)
    (parts : list jsstring) (board : Board) (piece : Piece) :
  keepsTurn Chess ->
  squareCoords (Some source) = Some (sr, sc) ->
  squareCoords (Some target) = Some (tr, tc) ->
  readFen (fen st) = Some (parts, board) -> getSquare board sr sc = Some piece ->
  let board' := setSquare (setSquare board sr sc None) tr tc (Some piece) in
  fen (fst (onDrop Chess (Some source) (Some target) st))
  = rebuildFen (boardToFen board') parts
  /\ wellShaped board'.
Proof.
  intros Hk Hs Ht Hread Hget board'.
  destruct (squareCoords_Some _ _ _ Hs) as (Hvs & _).
  destruct (squareCoords_Some _ _ _ Ht) as (Hvt & _).
  assert (Hshape : wellShaped board').
  { do 2 apply setSquare_wellShaped. by eapply readFen_wellShaped. }
  split; [|done].
  unfold onDrop, moveEdit. rewrite Hvs, Hvt. cbn [negb orb].
  rewrite Hread, Hs, Hget, Ht. cbn [fst].
  by apply (commit_rebuilt Chess st st parts board board').
Qed.

(** X21.  A move onto an empty square and the move back restore the
    board: after dragging a piece from one square to an empty other square
    and dragging it back, every square holds what it held before. *)
Theorem move_there_and_back (Chess : jsstring -> option jsstring) (st : AppState)
    (source target : jsstring) (sr sc tr tc : nat) (piece : Piece) :
  keepsTurn Chess ->
  squareCoords (Some source) = Some (sr, sc) ->
  squareCoords (Some target) = Some (tr, tc) ->
  pieceAt (fen st) sr sc = Some piece -> pieceAt (fen st) tr tc = None ->
  let there := fst (onDrop Chess (Some source) (Some target) st) in
  let back := fst (onDrop Chess (Some target) (Some source) there) in
  pieceAt (fen there) tr tc = Some piece
  /\ forall row col, pieceAt (fen back) row col = pieceAt (fen st) row col.
Proof.
  intros Hk Hs Ht Hp Hempty there back.
  destruct (squareCoords_Some _ _ _ Hs) as (_ & Hsr & Hsc).
  destruct (squareCoords_Some _ _ _ Ht) as (_ & Htr & Htc).
  apply pieceAt_Some in Hp as (parts & board & Hread & Hget).
  pose proof (readFen_wellShaped _ _ _ Hread) as Hshape.
  assert (Hne : (sr, sc) <> (tr, tc)).
  { intros [= -> ->]. unfold pieceAt in Hempty. rewrite Hread in Hempty. congruence. }
  assert (Hget0 : getSquare board tr tc = None).
  { unfold pieceAt in Hempty. by rewrite Hread in Hempty. }
  set (board1 := setSquare (setSquare board sr sc None) tr tc (Some piece)).
  destruct (onDrop_fen Chess st source target sr sc tr tc parts board piece
              Hk Hs Ht Hread Hget) as [Hfen1 Hshape1].
  fold there board1 in Hfen1, Hshape1.
  destruct (commit_rebuilt Chess st st parts board board1 Hk Hread Hshape1)
    as (_ & Hread1 & Hat1).
  rewrite <- Hfen1 in Hread1, Hat1.
  assert (Hget1 : getSquare board1 tr tc = Some piece).
  { unfold board1. apply getSquare_setSquare_eq; [by apply setSquare_wellShaped|done|done]. }
  split; [by rewrite Hat1|].
  set (board2 := setSquare (setSquare board1 tr tc None) sr sc (Some piece)).
  destruct (onDrop_fen Chess there target source tr tc sr sc _ board1 piece
              Hk Ht Hs Hread1 Hget1) as [Hfen2 Hshape2].
  fold back board2 in Hfen2, Hshape2.
  destruct (commit_rebuilt Chess there there _ board1 board2 Hk Hread1 Hshape2)
    as (_ & _ & Hat2).
  rewrite <- Hfen2 in Hat2.
  intros row col. rewrite Hat2. unfold pieceAt. rewrite Hread. unfold board2, board1.
  destruct (decide ((row, col) = (sr, sc))) as [[= -> ->]|Hn1].
  - rewrite getSquare_setSquare_eq; [done| |done|done].
    by do 3 apply setSquare_wellShaped.
  - rewrite getSquare_setSquare_ne by done.
    destruct (decide ((row, col) = (tr, tc))) as [[= -> ->]|Hn2].
    + rewrite getSquare_setSquare_eq; [done| |done|done].
      by do 2 apply setSquare_wellShaped.
    + by rewrite !getSquare_setSquare_ne by done.
Qed.

Lemma move_there_and_back_witness :
  let there := fst (onDrop chessEcho (Some (js "e2")) (Some (js "e4")) initialState) in
  let back := fst (onDrop chessEcho (Some (js "e4")) (Some (js "e2")) there) in
  keepsTurn chessEcho
  /\ pieceAt (fen initialState) 6 4 = Some (mkPiece pawn w)
  /\ pieceAt (fen initialState) 4 4 = None
  /\ pieceAt (fen there) 4 4 = Some (mkPiece pawn w)
  /\ fen back = fen initialState.
Proof.
  intros there back.
  assert (Hs : squareCoords (Some (js "e2")) = Some (6, 4)) by reflexivity.
  assert (Ht : squareCoords (Some (js "e4")) = Some (4, 4)) by reflexivity.
  assert (Hp : pieceAt (fen initialState) 6 4 = Some (mkPiece pawn w)) by reflexivity.
  assert (He : pieceAt (fen initialState) 4 4 = None) by reflexivity.
  destruct (move_there_and_back chessEcho initialState (js "e2") (js "e4") 6 4 4 4
              (mkPiece pawn w) keepsTurn_chessEcho Hs Ht Hp He) as [H1 _].
  split; [apply keepsTurn_chessEcho|]. split; [exact Hp|]. split; [exact He|].
  split; [exact H1 | reflexivity].
Defined.

(** X22.  Placing a piece on an empty square and removing it again
    restores the board: after the palette drop and the right click on the
    same square, every square holds what it held before. *)
Theorem place_then_remove_restores (Chess : jsstring -> option jsstring) (st : AppState)
    (piece : Piece) (target : jsstring) (tr tc : nat) :
  keepsTurn Chess ->
  draggedPiece st = Some piece ->
  squareCoords (Some target) = Some (tr, tc) ->
  is_Some (readFen (fen st)) -> pieceAt (fen st) tr tc = None ->
  let placed := fst (enhancedOnDrop Chess None (Some target) st) in
  let removed := handleSquareRightClick Chess (Some target) placed in
  pieceAt (fen placed) tr tc = Some piece
  /\ forall row col, pieceAt (fen removed) row col = pieceAt (fen st) row col.
Proof.
  intros Hk Hd Ht [[parts board] Hread] Hempty placed removed.
  destruct (squareCoords_Some _ _ _ Ht) as (Hvt & Htr & Htc).
  pose proof (readFen_wellShaped _ _ _ Hread) as Hshape.
  assert (Hget0 : getSquare board tr tc = None).
  { unfold pieceAt in Hempty. by rewrite Hread in Hempty. }
  set (board1 := setSquare board tr tc (Some piece)).
  assert (Hshape1 : wellShaped board1) by (by apply setSquare_wellShaped).
  assert (Hfen1 : fen placed = rebuildFen (boardToFen board1) parts).
  { unfold placed, enhancedOnDrop. rewrite Hd. change (truthy None) with false.
    cbn [negb]. rewrite Hvt. cbn [negb].
    change (fen (setDraggedPiece None st)) with (fen st).
    unfold placeEdit. rewrite Hread, Ht. cbn [fst].
    assert (mkPiece (type piece) (color piece) = piece) as -> by (by destruct piece).
    by apply (commit_rebuilt Chess st _ parts board board1). }
  destruct (commit_rebuilt Chess st st parts board board1 Hk Hread Hshape1)
    as (_ & Hread1 & Hat1).
  rewrite <- Hfen1 in Hread1, Hat1.
  assert (Hget1 : getSquare board1 tr tc = Some piece)
    by (by apply getSquare_setSquare_eq).
  split; [by rewrite Hat1|].
  set (board2 := setSquare board1 tr tc None).
  assert (Hshape2 : wellShaped board2) by (by apply setSquare_wellShaped).
  assert (Hfen2 : fen removed = rebuildFen (boardToFen board2) (fields (fen placed))).
  { unfold removed, handleSquareRightClick, removeEdit. rewrite Hvt. cbn [negb].
    rewrite Hread1, Ht, Hget1.
    by apply (commit_rebuilt Chess placed placed _ board1 board2). }
  destruct (commit_rebuilt Chess placed placed _ board1 board2 Hk Hread1 Hshape2)
    as (_ & _ & Hat2).
  rewrite <- Hfen2 in Hat2.
  intros row col. rewrite Hat2. unfold pieceAt. rewrite Hread. unfold board2, board1.
  destruct (decide ((row, col) = (tr, tc))) as [[= -> ->]|Hn].
  - rewrite getSquare_setSquare_eq; [done| |done|done]. by apply setSquare_wellShaped.
  - by rewrite !getSquare_setSquare_ne by done.
Qed.

Lemma place_then_remove_restores_witness :
  let st := handlePieceDragStart (mkPiece queen b) initialState in
  let placed := fst (enhancedOnDrop chessEcho None (Some (js "e4")) st) in
  let removed := handleSquareRightClick chessEcho (Some (js "e4")) placed in
  keepsTurn chessEcho
  /\ pieceAt (fen st) 4 4 = None
  /\ pieceAt (fen placed) 4 4 = Some (mkPiece queen b)
  /\ fen removed = fen st.
Proof.
  intros st placed removed.
  assert (Hd : draggedPiece st = Some (mkPiece queen b)) by reflexivity.
  assert (Ht : squareCoords (Some (js "e4")) = Some (4, 4)) by reflexivity.
  assert (Hr : is_Some (readFen (fen st))) by (by vm_compute; eexists).
  assert (He : pieceAt (fen st) 4 4 = None) by reflexivity.
  destruct (place_then_remove_restores chessEcho st (mkPiece queen b) (js "e4") 4 4
              keepsTurn_chessEcho Hd Ht Hr He) as [H1 _].
  split; [apply keepsTurn_chessEcho|]. split; [exact He|].
  split; [exact H1 | reflexivity].
Defined.

(** ** A drop on the frame around the board *)








(** X24.  The turn buttons do what the other operations never do: for any
    chess.js that reports the turn it was given, choosing a side on a
    six-field FEN leaves a FEN whose turn field is that side. *)
Theorem turn_buttons_set_the_turn (Chess : jsstring -> option jsstring)
    (st : AppState) (newTurn : jsstring) :
  keepsTurn Chess -> sixFieldFen (fen st) ->
  newTurn = js "w" \/ newTurn = js "b" ->
  turnOf (fen (handleTurnChange Chess newTurn st)) = Some newTurn
  /\ (Chess (join (js " ") (assignTurn (fields (fen st)) newTurn)) = None ->
      fields (fen (handleTurnChange Chess newTurn st))
      = <[1 := newTurn]> (fields (fen st))).
Proof.
  intros Hk Hsix Hturn.
  assert (Hne : newTurn <> []) by (by destruct Hturn as [-> | ->]).
  assert (Hsp : " "%char ∉ newTurn) by (destruct Hturn as [-> | ->]; by decided).
  split; [by apply handleTurnChange_turnOf|].
  destruct Hsix as [Hlen Hall]. intros Hrej. unfold handleTurnChange.
  assert (isEmpty (fen st) = false) as ->.
  { destruct (fen st); [by vm_compute in Hlen | done]. }
  unfold fields in *.
  replace (length (split " " (fen st)) <? 2) with false
    by (symmetry; apply Nat.ltb_ge; lia).
  rewrite Hrej. cbn [fen setFen].
  pose proof (split_parts_nosep " " (fen st)) as Hparts.
  destruct (split " " (fen st)) as [|p0 [|p1 rest]]; try done.
  cbn [assignTurn insert list_insert]. change (js " ") with [" "%char].
  apply split_join; [done|].
  inversion Hparts as [|? ? H0 H']; subst. inversion H' as [|? ? H1 Hrest]; subst.
  by repeat constructor.
Qed.

Lemma turn_buttons_set_the_turn_witness :
  keepsTurn chessEcho /\ sixFieldFen (fen initialState)
  /\ fen (handleTurnChange chessEcho (js "b") initialState)
     = js "rnbqkbnr/pppppppp/8/8/8/8/PPPPPPPP/RNBQKBNR b KQkq - 0 1"
  /\ turnOf (fen (handleTurnChange chessEcho (js "b") initialState)) = Some (js "b").
Proof.
  split; [apply keepsTurn_chessEcho|]. split; [apply sixFieldFen_DEFAULT_POSITION|].
  split; [reflexivity|].
  apply (turn_buttons_set_the_turn chessEcho initialState (js "b")
           keepsTurn_chessEcho sixFieldFen_DEFAULT_POSITION).
  by right.
Defined.
